(** * A shallow embedding of the skip list of skiplist.c / skiplist.h

    The C program keeps its elements in heap records linked by pointers.
    The embedding keeps that shape: a [process] holds the heap (a finite map
    from addresses to element records), the file-level counter
    [Current_Random_Level] and the allocation frontier; a [SkipList] value
    is the contents of a [struct SkipList_struct].  Every operation takes the
    process and the container and returns the new ones, or a fault.

    Conventions.
    - [key_type] and [data_type] are [void *]: they are modelled as [Z], the
      null pointer being [0].
    - C [int] and [long] quantities that are subtracted (spans, distances,
      lengths, ranks, the level counter) are [Z], on the range where the C
      arithmetic does not overflow; quantities that are only used as array
      indices and loop bounds (levels, heights) are [nat].
    - A pointer to an element is a [loc]; a pointer that may be [NULL] is an
      [option loc].
    - [while] loops that follow pointers take fuel; running out of it is
      reported as [Timeout], a null or dangling dereference or an array
      access out of bounds as [Fault]. *)

From stdpp Require Import gmap list sorting.
From Stdlib Require Import ZArith Lia.

(** ** Results of fallible code *)

Inductive res (A : Type) : Type :=
| Ok (a : A)
| Fault
| Timeout.
Arguments Ok {A} a.
Arguments Fault {A}.
Arguments Timeout {A}.

Definition res_bind {A B : Type} (f : A → res B) (m : res A) : res B :=
  match m with
  | Ok a => f a
  | Fault => Fault
  | Timeout => Timeout
  end.

#[global] Instance res_mbind : MBind res := @res_bind.
#[global] Instance res_mret : MRet res := @Ok.

(** ** Data of skiplist.h *)

Definition MAX_LEVEL : nat := 20.

Definition loc := positive.

Definition key_type := Z.
Definition data_type := Z.
Definition NULL : Z := 0.

Record SkipList_element_struct : Type := mkElement {
  e_key : key_type;
  e_data : data_type;
  e_height : nat;
  e_forward : list (option loc);
  e_diff : list Z
}.

Record SkipList : Type := mkSkipList {
  Member_Compare : key_type → key_type → Z;
  sl_header : loc;
  sl_finger : list loc;
  sl_distance : list Z;
  sl_level : nat;
  sl_length : Z
}.

(** The part of the program state that all containers share. [released] logs
    the calls of the containers' [Member_Delete] routines. *)
Record process : Type := mkProcess {
  Current_Random_Level : Z;
  heap : gmap loc SkipList_element_struct;
  brk : loc;
  released : list (key_type * data_type)
}.

(** Local arrays of type [skiplist_finger] and [skiplist_delta] are not
    initialised by their declaration: an entry is [None] until it is
    written. *)
Definition skiplist_finger := list (option loc).
Definition skiplist_delta := list (option Z).

Definition fresh_finger : skiplist_finger := replicate MAX_LEVEL None.
Definition fresh_delta : skiplist_delta := replicate MAX_LEVEL None.

(** ** Memory accesses *)

Definition deref (h : gmap loc SkipList_element_struct) (a : loc)
  : res SkipList_element_struct :=
  match h !! a with
  | Some e => Ok e
  | None => Fault
  end.

Definition index {A : Type} (l : list A) (i : nat) : res A :=
  match l !! i with
  | Some x => Ok x
  | None => Fault
  end.

Definition store {A : Type} (l : list A) (i : nat) (x : A) : res (list A) :=
  if decide (i < length l) then Ok (<[i := x]> l) else Fault.

Definition local_get {A : Type} (l : list (option A)) (i : nat) : res A :=
  match l !! i with
  | Some (Some x) => Ok x
  | _ => Fault
  end.

Definition local_set {A : Type} (l : list (option A)) (i : nat) (x : A)
  : res (list (option A)) :=
  store l i (Some x).

(** [a->forward[i]] and [a->diff[i]], read and written. *)
Definition get_forward (h : gmap loc SkipList_element_struct) (a : loc) (i : nat)
  : res (option loc) :=
  e ← deref h a; index (e_forward e) i.

Definition get_diff (h : gmap loc SkipList_element_struct) (a : loc) (i : nat)
  : res Z :=
  e ← deref h a; index (e_diff e) i.

Definition set_forward (h : gmap loc SkipList_element_struct) (a : loc) (i : nat)
  (x : option loc) : res (gmap loc SkipList_element_struct) :=
  e ← deref h a;
  fw ← store (e_forward e) i x;
  Ok (<[a := mkElement (e_key e) (e_data e) (e_height e) fw (e_diff e)]> h).

Definition set_diff (h : gmap loc SkipList_element_struct) (a : loc) (i : nat)
  (x : Z) : res (gmap loc SkipList_element_struct) :=
  e ← deref h a;
  df ← store (e_diff e) i x;
  Ok (<[a := mkElement (e_key e) (e_data e) (e_height e) (e_forward e) df]> h).

(** [for (i = a; i < a + n; i++) body] *)
Fixpoint for_range {St : Type} (a n : nat) (body : nat → St → res St) (s : St)
  : res St :=
  match n with
  | O => Ok s
  | S n' => s' ← body a s; for_range (S a) n' body s'
  end.

(** ** Level assignment *)

(** The loop [for (i = c; (i & 1); i >>= 1) n++] on a 64-bit [long]. *)
Fixpoint level_loop (fuel : nat) (i : Z) (n : nat) : nat :=
  match fuel with
  | O => n
  | S fuel' =>
    if negb (Z.land i 1 =? 0)%Z then level_loop fuel' (Z.shiftr i 1) (S n)
    else n
  end.

(** Returns the chosen level and the new value of [Current_Random_Level].
    The counter is a [Z]: the definition is that of the C function for the
    counter values from 0 to [2^63 - 2]. At [2^63 - 1] the increment
    overflows the C [long], and at [-1], which only an overflow leads to,
    the C loop does not end, where [level_loop] stops after 64 rounds. *)
Definition Choose_Random_Level (c : Z) : nat * Z :=
  let n := level_loop 64 c 1 in
  (if decide (n < MAX_LEVEL) then n else MAX_LEVEL, (c + 1)%Z).

(** ** Search by key *)

Fixpoint key_while (fuel : nat) (h : gmap loc SkipList_element_struct)
  (cmp : key_type → key_type → Z) (k : key_type) (current : nat)
  (f : loc) (delta : Z) : res (loc * Z) :=
  match fuel with
  | O => Timeout
  | S fuel' =>
    nx ← get_forward h f current;
    match nx with
    | None => Ok (f, delta)
    | Some x =>
      ex ← deref h x;
      if (cmp k (e_key ex) >? 0)%Z then
        d ← get_diff h f current;
        key_while fuel' h cmp k current x (delta + d)%Z
      else Ok (f, delta)
    end
  end.

(** The [for (current = sl->level-1; current >= 0; current--)] loop, at
    [current = n - 1]. *)
Fixpoint key_levels (fuel : nat) (h : gmap loc SkipList_element_struct)
  (k : key_type) (n : nat) (sl : SkipList) (finger : skiplist_finger)
  (delta : skiplist_delta) (f : loc) (last : Z)
  : res (SkipList * skiplist_finger * skiplist_delta) :=
  match n with
  | O => Ok (sl, finger, delta)
  | S current =>
    cf ← index (sl_finger sl) current;
    ce ← deref h cf;
    '(f1, d1) ←
      (if negb (e_key ce =? NULL)%Z && (Member_Compare sl k (e_key ce) >? 0)%Z
       then dist ← index (sl_distance sl) current; Ok (cf, dist)
       else Ok (f, last));
    '(f2, d2) ← key_while fuel h (Member_Compare sl) k current f1 d1;
    fg ← store (sl_finger sl) current f2;
    finger' ← local_set finger current f2;
    ds ← store (sl_distance sl) current d2;
    delta' ← local_set delta current d2;
    key_levels fuel h k current
      (mkSkipList (Member_Compare sl) (sl_header sl) fg ds (sl_level sl)
         (sl_length sl))
      finger' delta' f2 d2
  end.

Definition Search_by_Key (fuel : nat) (p : process) (sl : SkipList)
  (finger : skiplist_finger) (delta : skiplist_delta) (k : key_type)
  : res (SkipList * skiplist_finger * skiplist_delta) :=
  key_levels fuel (heap p) k (sl_level sl) sl finger delta (sl_header sl) 0%Z.

(** ** Search by index *)

Fixpoint index_while (fuel : nat) (h : gmap loc SkipList_element_struct)
  (n : Z) (current : nat) (f : loc) (place : Z) : res (loc * Z) :=
  match fuel with
  | O => Timeout
  | S fuel' =>
    nx ← get_forward h f current;
    match nx with
    | None => Ok (f, place)
    | Some x =>
      d ← get_diff h f current;
      if (d + place <? n)%Z then index_while fuel' h n current x (place + d)%Z
      else Ok (f, place)
    end
  end.

Fixpoint index_levels (fuel : nat) (h : gmap loc SkipList_element_struct)
  (n : Z) (m : nat) (sl : SkipList) (finger : skiplist_finger)
  (f : loc) (place : Z) : res (SkipList * skiplist_finger * Z) :=
  match m with
  | O => Ok (sl, finger, place)
  | S current =>
    dist ← index (sl_distance sl) current;
    '(f1, place1) ←
      (if (dist <? n)%Z
       then cf ← index (sl_finger sl) current; Ok (cf, dist)
       else Ok (f, place));
    '(f2, place2) ← index_while fuel h n current f1 place1;
    fg ← store (sl_finger sl) current f2;
    finger' ← local_set finger current f2;
    ds ← store (sl_distance sl) current place2;
    index_levels fuel h n current
      (mkSkipList (Member_Compare sl) (sl_header sl) fg ds (sl_level sl)
         (sl_length sl))
      finger' f2 place2
  end.

(** Returns the container with its refreshed cache, the finger and the
    [found] flag. *)
Definition Search_by_Index (fuel : nat) (p : process) (sl : SkipList)
  (finger : skiplist_finger) (n : Z) : res (SkipList * skiplist_finger * bool) :=
  '(sl', finger', place) ←
    index_levels fuel (heap p) n (sl_level sl) sl finger (sl_header sl) 0%Z;
  Ok (sl', finger', (n - place =? 1)%Z).

(** ** Construction *)

(** [malloc] hands out the address at the frontier. The [forward] array of a
    new element is not initialised by [MakeNode]; its entries read as [NULL]
    until they are written. *)
Definition MakeNode (p : process) (newLevel : nat) (k : key_type) (d : data_type)
  : process * loc :=
  (mkProcess (Current_Random_Level p)
     (<[brk p := mkElement k d newLevel (replicate newLevel None)
                   (replicate newLevel 0%Z)]> (heap p))
     (Pos.succ (brk p)) (released p),
   brk p).

(** The loop of [SkipList_Create] writes the same value to each of the
    [MAX_LEVEL] entries of the four arrays. *)
Definition SkipList_Create (p : process) (c : key_type → key_type → Z)
  : process * SkipList :=
  let '(p1, hd) := MakeNode p MAX_LEVEL NULL NULL in
  (mkProcess (Current_Random_Level p1)
     (<[hd := mkElement NULL NULL MAX_LEVEL (replicate MAX_LEVEL None)
                (replicate MAX_LEVEL 1%Z)]> (heap p1))
     (brk p1) (released p1),
   mkSkipList c hd (replicate MAX_LEVEL hd) (replicate MAX_LEVEL 1%Z) 1 0%Z).

(** ** Destruction *)

(** The [while] loop of [SkipList_Free]: it unlinks the first element from
    level 0 of the header [n], hands its pair to the cleanup routine and
    releases its record. *)
Fixpoint free_while (fuel : nat) (p : process) (n : loc) : res process :=
  match fuel with
  | O => Timeout
  | S fuel' =>
    nx ← get_forward (heap p) n 0;
    match nx with
    | None => Ok p
    | Some m =>
      w ← get_forward (heap p) m 0;
      h1 ← set_forward (heap p) n 0 w;
      em ← deref h1 m;
      free_while fuel'
        (mkProcess (Current_Random_Level p) (delete m h1) (brk p)
           (released p ++ [(e_key em, e_data em)]))
        n
    end
  end.

(** The records of the elements and of the header are released. The arrays
    [finger] and [distance] and the container record itself, which are
    released last, are not part of the heap of element records. *)
Definition SkipList_Free (fuel : nat) (p : process) (sl : SkipList)
  : res process :=
  p1 ← free_while fuel p (sl_header sl);
  _ ← deref (heap p1) (sl_header sl);
  Ok (mkProcess (Current_Random_Level p1) (delete (sl_header sl) (heap p1))
        (brk p1) (released p1)).

(** ** Iteration, search, length *)

(** The visitor is called on each pair; the result is the list of its
    arguments, in call order. *)
Fixpoint iterate_while (fuel : nat) (h : gmap loc SkipList_element_struct)
  (f : loc) : res (list (key_type * data_type)) :=
  match fuel with
  | O => Timeout
  | S fuel' =>
    nx ← get_forward h f 0;
    match nx with
    | None => Ok []
    | Some x =>
      ex ← deref h x;
      rest ← iterate_while fuel' h x;
      Ok ((e_key ex, e_data ex) :: rest)
    end
  end.

Definition SkipList_Iterate (fuel : nat) (p : process) (sl : SkipList)
  : res (list (key_type * data_type)) :=
  iterate_while fuel (heap p) (sl_header sl).

Definition SkipList_Search (fuel : nat) (p : process) (sl : SkipList)
  (k : key_type) : res (SkipList * data_type) :=
  '(sl', f, d) ← Search_by_Key fuel p sl fresh_finger fresh_delta k;
  f0 ← local_get f 0;
  nx ← get_forward (heap p) f0 0;
  match nx with
  | None => Ok (sl', NULL)
  | Some x =>
    ex ← deref (heap p) x;
    if negb (Member_Compare sl' k (e_key ex) =? 0)%Z then Ok (sl', NULL)
    else Ok (sl', e_data ex)
  end.

Definition SkipList_Length (sl : SkipList) : Z := sl_length sl.

(** ** Insertion *)

Definition with_heap (p : process) (h : gmap loc SkipList_element_struct)
  : process :=
  mkProcess (Current_Random_Level p) h (brk p) (released p).

(** The locals of [SkipList_Insert] and [SkipList_Delete] that the loops
    update: the heap and the two arrays. *)
Definition grow_body (hd : loc) (len : Z) (i : nat)
  (s : gmap loc SkipList_element_struct * skiplist_finger * skiplist_delta)
  : res (gmap loc SkipList_element_struct * skiplist_finger * skiplist_delta) :=
  let '(h, u, d) := s in
  u' ← local_set u i hd;
  d' ← local_set d i 0%Z;
  ui ← local_get u' i;
  h' ← set_diff h ui i (len + 1)%Z;
  Ok (h', u', d').

Definition insert_diff_body (u : skiplist_finger) (d : skiplist_delta) (n : loc)
  (i : nat) (h : gmap loc SkipList_element_struct)
  : res (gmap loc SkipList_element_struct) :=
  ui ← local_get u i;
  x ← get_diff h ui i;
  d0 ← local_get d 0;
  di ← local_get d i;
  h1 ← set_diff h n i (x - d0 + di)%Z;
  set_diff h1 ui i (d0 - di + 1)%Z.

Definition insert_bump_body (u : skiplist_finger) (i : nat)
  (h : gmap loc SkipList_element_struct)
  : res (gmap loc SkipList_element_struct) :=
  ui ← local_get u i;
  x ← get_diff h ui i;
  set_diff h ui i (x + 1)%Z.

Definition insert_link_body (u : skiplist_finger) (n : loc) (i : nat)
  (h : gmap loc SkipList_element_struct)
  : res (gmap loc SkipList_element_struct) :=
  ui ← local_get u i;
  x ← get_forward h ui i;
  h1 ← set_forward h n i x;
  set_forward h1 ui i (Some n).

Definition SkipList_Insert (fuel : nat) (p : process) (sl : SkipList)
  (k : key_type) (m : data_type) : res (process * SkipList) :=
  '(sl1, u, d) ← Search_by_Key fuel p sl fresh_finger fresh_delta k;
  u0 ← local_get u 0;
  _ ← get_forward (heap p) u0 0;
  let '(nl, c) := Choose_Random_Level (Current_Random_Level p) in
  '(h2, u2, d2, level2) ←
    (if decide (sl_level sl1 < nl) then
       '(h, u', d') ←
         for_range (sl_level sl1) (nl - sl_level sl1)
           (grow_body (sl_header sl1) (sl_length sl1)) (heap p, u, d);
       Ok (h, u', d', nl)
     else Ok (heap p, u, d, sl_level sl1));
  let '(p3, n) :=
    MakeNode (mkProcess c h2 (brk p) (released p)) nl k m in
  h4 ← for_range 0 nl (insert_diff_body u2 d2 n) (heap p3);
  h5 ← for_range nl (level2 - nl) (insert_bump_body u2) h4;
  h6 ← for_range 0 nl (insert_link_body u2 n) h5;
  Ok (with_heap p3 h6,
      mkSkipList (Member_Compare sl1) (sl_header sl1) (sl_finger sl1)
        (sl_distance sl1) level2 (sl_length sl1 + 1)%Z).

(** ** Deletion *)

Definition delete_body (u : skiplist_finger) (n : loc) (i : nat)
  (h : gmap loc SkipList_element_struct)
  : res (gmap loc SkipList_element_struct) :=
  ui ← local_get u i;
  x ← get_forward h ui i;
  if decide (x ≠ Some n) then
    y ← get_diff h ui i;
    set_diff h ui i (y - 1)%Z
  else
    y ← get_diff h ui i;
    z ← get_diff h n i;
    h1 ← set_diff h ui i (y + (z - 1))%Z;
    w ← get_forward h1 n i;
    set_forward h1 ui i w.

(** [while ((sl->level > 1) && (sl->header->forward[sl->level-1] == NULL))
    sl->level--] *)
Fixpoint shrink_level (h : gmap loc SkipList_element_struct) (hd : loc)
  (level : nat) : res nat :=
  match level with
  | S (S l as level') =>
    x ← get_forward h hd (S l);
    match x with
    | None => shrink_level h hd level'
    | Some _ => Ok level
    end
  | _ => Ok level
  end.

(** Returns the new process and container and the number of deleted
    members. *)
Definition SkipList_Delete (fuel : nat) (p : process) (sl : SkipList)
  (k : key_type) : res (process * SkipList * Z) :=
  '(sl1, u, delta) ← Search_by_Key fuel p sl fresh_finger fresh_delta k;
  u0 ← local_get u 0;
  nx ← get_forward (heap p) u0 0;
  match nx with
  | None => Ok (p, sl1, 0%Z)
  | Some n =>
    en ← deref (heap p) n;
    if (Member_Compare sl1 (e_key en) k =? 0)%Z then
      h1 ← for_range 0 (sl_level sl1) (delete_body u n) (heap p);
      en' ← deref h1 n;
      let p2 :=
        mkProcess (Current_Random_Level p) (delete n h1) (brk p)
          (released p ++ [(e_key en', e_data en')]) in
      _ ← get_forward (heap p2) u0 0;
      level' ← shrink_level (heap p2) (sl_header sl1) (sl_level sl1);
      Ok (p2,
          mkSkipList (Member_Compare sl1) (sl_header sl1) (sl_finger sl1)
            (sl_distance sl1) level' (sl_length sl1 - 1)%Z,
          1%Z)
    else Ok (p, sl1, 0%Z)
  end.

(** ** Access by rank *)

Definition SkipList_Indexed_Key (fuel : nat) (p : process) (sl : SkipList)
  (n : Z) : res (SkipList * key_type) :=
  '(sl', f, found) ← Search_by_Index fuel p sl fresh_finger n;
  if (found : bool) then
    f0 ← local_get f 0;
    nx ← get_forward (heap p) f0 0;
    match nx with
    | None => Fault
    | Some x => ex ← deref (heap p) x; Ok (sl', e_key ex)
    end
  else Ok (sl', NULL).

Definition SkipList_Indexed_Member (fuel : nat) (p : process) (sl : SkipList)
  (n : Z) : res (SkipList * data_type) :=
  '(sl', f, found) ← Search_by_Index fuel p sl fresh_finger n;
  if (found : bool) then
    f0 ← local_get f 0;
    nx ← get_forward (heap p) f0 0;
    match nx with
    | None => Fault
    | Some x => ex ← deref (heap p) x; Ok (sl', e_data ex)
    end
  else Ok (sl', NULL).

Definition SkipList_Indexed_Update (fuel : nat) (p : process) (sl : SkipList)
  (n : Z) (d : data_type) : res (process * SkipList) :=
  '(sl', f, found) ← Search_by_Index fuel p sl fresh_finger n;
  if (found : bool) then
    f0 ← local_get f 0;
    nx ← get_forward (heap p) f0 0;
    match nx with
    | None => Fault
    | Some x =>
      ex ← deref (heap p) x;
      Ok (with_heap p
            (<[x := mkElement (e_key ex) d (e_height ex) (e_forward ex)
                      (e_diff ex)]> (heap p)),
          sl')
    end
  else Ok (p, sl').


Arguments SkipList_Insert fuel p sl (k m)%_Z.
Arguments SkipList_Delete fuel p sl k%_Z.
Arguments SkipList_Search fuel p sl k%_Z.
Arguments SkipList_Indexed_Key fuel p sl n%_Z.
Arguments SkipList_Indexed_Member fuel p sl n%_Z.
Arguments SkipList_Indexed_Update fuel p sl (n d)%_Z.

(** * Specification-level definitions *)

(** ** The abstract view of a container

    An [elem] is what the level-0 walk sees of one element: its address, its
    key and data and its height. The container is described by the list of
    its elements in level-0 order; position [j] of [nodes] is the node of
    rank [j], the header having rank 0. *)

Record elem : Type := mkElem {
  a_loc : loc;
  a_key : key_type;
  a_data : data_type;
  a_height : nat
}.

Definition tall (i : nat) (e : elem) : Prop := i < a_height e.

#[global] Instance tall_dec i e : Decision (tall i e).
Proof. unfold tall. apply _. Defined.

(** The first node of [l] that takes part in level [i], and the number of
    level-0 steps to it from the node before [l] (to one past the end of [l]
    when there is none). *)
Fixpoint first_tall (i : nat) (l : list elem) : option loc :=
  match l with
  | [] => None
  | e :: r => if decide (tall i e) then Some (a_loc e) else first_tall i r
  end.

Fixpoint dist (i : nat) (l : list elem) : Z :=
  match l with
  | [] => 1
  | e :: r => if decide (tall i e) then 1 else 1 + dist i r
  end%Z.

Definition header_elem (hd : loc) : elem := mkElem hd NULL NULL MAX_LEVEL.

Definition nodes (hd : loc) (els : list elem) : list elem :=
  header_elem hd :: els.

(** The heap, cell by cell. *)
Definition fwd (h : gmap loc SkipList_element_struct) (a : loc) (i : nat)
  : option (option loc) :=
  e ← h !! a; e_forward e !! i.

Definition dif (h : gmap loc SkipList_element_struct) (a : loc) (i : nat)
  : option Z :=
  e ← h !! a; e_diff e !! i.

Definition meta (h : gmap loc SkipList_element_struct) (a : loc)
  : option (key_type * data_type * nat * nat * nat) :=
  e ← h !! a;
  Some (e_key e, e_data e, e_height e, length (e_forward e), length (e_diff e)).

(** The record at [a_loc e] is the one of [e], followed in the list by
    [suf]: its links and, on the levels in use, its spans are those that
    [suf] determines. *)
Definition node_ok (h : gmap loc SkipList_element_struct) (level : nat)
  (e : elem) (suf : list elem) : Prop :=
  meta h (a_loc e) =
    Some (a_key e, a_data e, a_height e, a_height e, a_height e) ∧
  (∀ i, i < a_height e → fwd h (a_loc e) i = Some (first_tall i suf)) ∧
  (∀ i, i < a_height e → i < level → dif h (a_loc e) i = Some (dist i suf)).

(** The rank of the last node among those of rank at most [c] that takes
    part in level [i]. *)
Fixpoint fpos (ns : list elem) (i c : nat) : nat :=
  match c with
  | O => O
  | S c' =>
    match ns !! c with
    | Some e => if decide (tall i e) then c else fpos ns i c'
    | None => fpos ns i c'
    end
  end.

(** The number of leading elements whose key is strictly less than [k], as
    the search tests it. *)
Fixpoint key_rank (cmp : key_type → key_type → Z) (k : key_type)
  (els : list elem) : nat :=
  match els with
  | [] => 0
  | e :: r => if (cmp k (a_key e) >? 0)%Z then S (key_rank cmp k r) else 0
  end.

(** A comparator that orders the keys: a total preorder. *)
Definition comparator_ok (cmp : key_type → key_type → Z) : Prop :=
  (∀ a b, (cmp a b > 0)%Z ↔ (cmp b a < 0)%Z) ∧
  (∀ a b c, (cmp a b ≤ 0)%Z → (cmp b c ≤ 0)%Z → (cmp a c ≤ 0)%Z).

Definition sorted_by (cmp : key_type → key_type → Z) (ks : list key_type)
  : Prop :=
  ∀ i j a b, i < j → ks !! i = Some a → ks !! j = Some b → (cmp a b ≤ 0)%Z.

Definition key_le (cmp : key_type → key_type → Z) (a b : elem) : Prop :=
  (cmp (a_key a) (a_key b) ≤ 0)%Z.

(** A cache entry is the header, whatever the distance stored with it, or a
    node that takes part in the level, stored with its rank. *)
Definition cache_ok (sl : SkipList) (ns : list elem) : Prop :=
  ∀ i f, sl_finger sl !! i = Some f →
    f = sl_header sl ∨
    ∃ j e, ns !! j = Some e ∧ a_loc e = f ∧ tall i e ∧
           sl_distance sl !! i = Some (Z.of_nat j).

Definition frontier_ok (p : process) : Prop :=
  ∀ a, (brk p ≤ a)%positive → heap p !! a = None.

Record Inv (p : process) (sl : SkipList) (els : list elem) : Prop := mkInv {
  inv_cmp : comparator_ok (Member_Compare sl);
  inv_level : 1 ≤ sl_level sl ≤ MAX_LEVEL;
  inv_length : sl_length sl = Z.of_nat (length els);
  inv_nodup : NoDup (a_loc <$> nodes (sl_header sl) els);
  inv_nodes : ∀ j e, nodes (sl_header sl) els !! j = Some e →
    node_ok (heap p) (sl_level sl) e (drop (S j) (nodes (sl_header sl) els));
  inv_heights : ∀ e, e ∈ els → 1 ≤ a_height e ≤ sl_level sl;
  inv_sorted : StronglySorted (key_le (Member_Compare sl)) els;
  inv_frontier : frontier_ok p;
  inv_finger_len : length (sl_finger sl) = MAX_LEVEL;
  inv_distance_len : length (sl_distance sl) = MAX_LEVEL;
  inv_cache : cache_ok sl (nodes (sl_header sl) els)
}.

(** The states of one container that creation, insertions, deletions and
    searches by key lead to. The functions that work by rank
    ([SkipList_Indexed_Key], [SkipList_Indexed_Member] and
    [SkipList_Indexed_Update]) also write the cache of the container; they
    are not among the steps here, and [disciplined] below adds them. *)
Inductive reachable : process → SkipList → Prop :=
| reach_create p c :
    frontier_ok p → comparator_ok c →
    reachable (SkipList_Create p c).1 (SkipList_Create p c).2
| reach_insert fuel p sl k m p' sl' :
    reachable p sl → SkipList_Insert fuel p sl k m = Ok (p', sl') →
    reachable p' sl'
| reach_delete fuel p sl k p' sl' d :
    reachable p sl → SkipList_Delete fuel p sl k = Ok (p', sl', d) →
    reachable p' sl'
| reach_search fuel p sl k sl' v :
    reachable p sl → SkipList_Search fuel p sl k = Ok (sl', v) →
    reachable p sl'.

(** ** Pieces of the node list *)

(** The nodes of rank [q+1 .. c]. *)
Definition seg {A : Type} (l : list A) (q c : nat) : list A :=
  take (c - q) (drop (S q) l).

(** Putting [x] in after rank [c]. *)
Definition ins {A : Type} (l : list A) (c : nat) (x : A) : list A :=
  take (S c) l ++ x :: drop (S c) l.

(** Taking out the node of rank [c+1]. *)
Definition del {A : Type} (l : list A) (c : nat) : list A :=
  take (S c) l ++ drop (S (S c)) l.

(** What the visitor of an iteration sees of an element. *)
Definition pair_of (e : elem) : key_type * data_type := (a_key e, a_data e).

(** A fuel that is enough for every loop of one operation. *)
Definition enough (sl : SkipList) : nat := S (Z.to_nat (sl_length sl)).

(** ** Chains and spans, read from the heap *)

(** The nodes of level [i] from [f] on, [f] included, as the walk along
    [forward[i]] meets them. *)
Fixpoint chain (fuel : nat) (h : gmap loc SkipList_element_struct) (i : nat)
  (f : loc) : res (list loc) :=
  match fuel with
  | O => Timeout
  | S fuel' =>
    nx ← get_forward h f i;
    match nx with
    | None => Ok [f]
    | Some x => rest ← chain fuel' h i x; Ok (f :: rest)
    end
  end.

(** The sum of the spans [diff[i]] of the nodes of [l]. *)
Fixpoint span_sum (h : gmap loc SkipList_element_struct) (i : nat)
  (l : list loc) : res Z :=
  match l with
  | [] => Ok 0%Z
  | a :: r => d ← get_diff h a i; s ← span_sum h i r; Ok (d + s)%Z
  end.

(** Rank consistency with an offset: on every level, the spans from the
    header up to and including the predecessor of a node [y] add up to the
    rank of [y] minus [off]. The rank of a node is its index in the level-0
    walk, in which the header has index 0. *)
Definition span_rank_law (off : Z) (fuel : nat) (p : process) (sl : SkipList)
  : Prop :=
  ∀ i, i < MAX_LEVEL →
    ∃ c0 ci,
      chain fuel (heap p) 0 (sl_header sl) = Ok c0 ∧
      chain fuel (heap p) i (sl_header sl) = Ok ci ∧
      ∀ m y, ci !! S m = Some y →
        ∃ r, c0 !! r = Some y ∧
          span_sum (heap p) i (take (S m) ci) = Ok (Z.of_nat r - off)%Z.

(** ** Sequences of operations *)

Inductive op : Type :=
| OpInsert (k : key_type) (m : data_type)
| OpDelete (k : key_type)
| OpSearch (k : key_type).
Arguments OpInsert (k m)%_Z.
Arguments OpDelete k%_Z.
Arguments OpSearch k%_Z.

Definition run_op (fuel : nat) (st : process * SkipList) (o : op)
  : res (process * SkipList) :=
  match o with
  | OpInsert k m => SkipList_Insert fuel st.1 st.2 k m
  | OpDelete k => '(p, sl, _) ← SkipList_Delete fuel st.1 st.2 k; Ok (p, sl)
  | OpSearch k => '(sl, _) ← SkipList_Search fuel st.1 st.2 k; Ok (st.1, sl)
  end.

Fixpoint run_ops (fuel : nat) (st : process * SkipList) (os : list op)
  : res (process * SkipList) :=
  match os with
  | [] => Ok st
  | o :: r => st' ← run_op fuel st o; run_ops fuel st' r
  end.

(** The operation inserts or deletes a key that compares equal to [k]. *)
Definition touches (cmp : key_type → key_type → Z) (k : key_type) (o : op)
  : Prop :=
  match o with
  | OpInsert k' _ => cmp k' k = 0%Z
  | OpDelete k' => cmp k' k = 0%Z
  | OpSearch _ => False
  end.

(** ** A comparator and states to compute with *)

Definition cmpZ (a b : Z) : Z :=
  match (a ?= b)%Z with
  | Lt => (-1)%Z
  | Eq => 0%Z
  | Gt => 1%Z
  end.

(** A process that has not allocated anything yet. *)
Definition p0 : process := mkProcess 0 ∅ 1%positive [].

Definition state_of (r : res (process * SkipList)) : process * SkipList :=
  match r with
  | Ok st => st
  | _ => SkipList_Create p0 cmpZ
  end.

Definition st_empty : process * SkipList :=
  Eval vm_compute in SkipList_Create p0 cmpZ.

(** One element, key 5. *)
Definition st_one : process * SkipList :=
  Eval vm_compute in state_of (run_ops 8 st_empty [OpInsert 5 50]).

(** Two elements with the same key 1. *)
Definition st_dup : process * SkipList :=
  Eval vm_compute in
    state_of (run_ops 8 st_empty [OpInsert 1 10; OpInsert 1 11]).

(** Keys 1, 2, 3, 4 inserted in this order. *)
Definition st_four : process * SkipList :=
  Eval vm_compute in
    state_of (run_ops 8 st_empty
                [OpInsert 1 10; OpInsert 2 20; OpInsert 3 30; OpInsert 4 40]).

(** The first element that is not less than [k] compares equal to [k] and
    carries [v]. *)
Definition holds (cmp : key_type → key_type → Z) (k : key_type)
  (v : data_type) (els : list elem) : Prop :=
  ∃ A e B, els = A ++ e :: B ∧
    (∀ x, x ∈ A → (cmp k (a_key x) > 0)%Z) ∧
    cmp k (a_key e) = 0%Z ∧ a_data e = v.

(** ** The searches without the cache

    The ladder of the two searches as the specification words it: from the
    header, level by level, without a look at the fingers and distances
    that the last search left in the container. *)

Fixpoint key_levels_nocache (fuel : nat) (h : gmap loc SkipList_element_struct)
  (cmp : key_type → key_type → Z) (k : key_type) (n : nat)
  (finger : skiplist_finger) (delta : skiplist_delta) (f : loc) (last : Z)
  : res (skiplist_finger * skiplist_delta) :=
  match n with
  | O => Ok (finger, delta)
  | S current =>
    '(f2, d2) ← key_while fuel h cmp k current f last;
    finger' ← local_set finger current f2;
    delta' ← local_set delta current d2;
    key_levels_nocache fuel h cmp k current finger' delta' f2 d2
  end.

Definition Search_by_Key_nocache (fuel : nat) (p : process) (sl : SkipList)
  (finger : skiplist_finger) (delta : skiplist_delta) (k : key_type)
  : res (skiplist_finger * skiplist_delta) :=
  key_levels_nocache fuel (heap p) (Member_Compare sl) k (sl_level sl)
    finger delta (sl_header sl) 0%Z.

Fixpoint index_levels_nocache (fuel : nat)
  (h : gmap loc SkipList_element_struct) (n : Z) (m : nat)
  (finger : skiplist_finger) (f : loc) (place : Z)
  : res (skiplist_finger * Z) :=
  match m with
  | O => Ok (finger, place)
  | S current =>
    '(f2, place2) ← index_while fuel h n current f place;
    finger' ← local_set finger current f2;
    index_levels_nocache fuel h n current finger' f2 place2
  end.

Definition Search_by_Index_nocache (fuel : nat) (p : process) (sl : SkipList)
  (finger : skiplist_finger) (n : Z) : res (skiplist_finger * bool) :=
  '(finger', place) ←
    index_levels_nocache fuel (heap p) n (sl_level sl) finger (sl_header sl)
      0%Z;
  Ok (finger', (n - place =? 1)%Z).

(** The two heaps hold records with the same keys, data, heights and array
    lengths at the same addresses. *)
Definition same_meta (h h' : gmap loc SkipList_element_struct) : Prop :=
  ∀ b, meta h' b = meta h b.

(** ** Two containers in one process *)

(** The height of the element that an insertion into [p] allocated. *)
Definition inserted_level (p p' : process) : res nat :=
  e ← deref (heap p') (brk p); Ok (e_height e).

(** Runs a schedule of operations on two containers [a] and [b] of one
    process; an entry [(true, o)] is [o] on [a], an entry [(false, o)] is
    [o] on [b]. Returns, with the final state, the levels of the nodes
    inserted into [a], in order. *)
Fixpoint run2 (fuel : nat) (p : process) (a b : SkipList)
  (sched : list (bool * op))
  : res (process * SkipList * SkipList * list nat) :=
  match sched with
  | [] => Ok (p, a, b, [])
  | (first, o) :: r =>
    '(p1, x) ← run_op fuel (p, if first then a else b) o;
    lv ← match o with
         | OpInsert _ _ =>
           if first then l ← inserted_level p p1; Ok [l] else Ok []
         | _ => Ok []
         end;
    '(p2, a2, b2, lvs) ←
      run2 fuel p1 (if first then x else a) (if first then b else x) r;
    Ok (p2, a2, b2, lv ++ lvs)
  end.

(** The levels that the shared counter gives to the insertions into the
    first container: every insertion, into either container, takes the next
    value of the counter. *)
Fixpoint expected_levels (c : Z) (sched : list (bool * op)) : list nat :=
  match sched with
  | [] => []
  | (first, OpInsert _ _) :: r =>
    (if first then [(Choose_Random_Level c).1] else [])
    ++ expected_levels (c + 1) r
  | _ :: r => expected_levels c r
  end.

Definition is_insert (o : op) : bool :=
  match o with
  | OpInsert _ _ => true
  | _ => false
  end.

(** Two empty containers in one process. *)
Definition two_containers : process * SkipList * SkipList :=
  Eval vm_compute in
    let '(p1, a) := SkipList_Create p0 cmpZ in
    let '(p2, b) := SkipList_Create p1 cmpZ in
    (p2, a, b).

(** ** Reading a list of pairs *)

(** The data of the first pair of [kvs] whose key compares equal to [k],
    [NULL] when there is none. *)
Fixpoint first_equal (cmp : key_type → key_type → Z) (k : key_type)
  (kvs : list (key_type * data_type)) : data_type :=
  match kvs with
  | [] => NULL
  | kv :: r => if (cmp k kv.1 =? 0)%Z then kv.2 else first_equal cmp k r
  end.

(** The integer whose binary digits are [j] ones. *)
Definition ones (j : nat) : Z := (2 ^ Z.of_nat j - 1)%Z.

(** ** The cache after a search *)

(** Every cache entry of a level in use is a node that takes part in the
    level, stored with its rank. *)
Definition cache_exact (sl : SkipList) (ns : list elem) : Prop :=
  ∀ i, i < sl_level sl →
    ∃ j e, ns !! j = Some e ∧ tall i e ∧
      sl_finger sl !! i = Some (a_loc e) ∧
      sl_distance sl !! i = Some (Z.of_nat j).

(** The rank at which the search for rank [n] stops: [n - 1], or the rank of
    the last node when there are less than [n - 1] elements, or 0. *)
Definition stop_rank (n : Z) (len : nat) : nat :=
  Z.to_nat (Z.min (n - 1) (Z.of_nat len)).

(** Successive reads by rank. *)
Fixpoint indexed_keys (fuel : nat) (p : process) (sl : SkipList)
  (ranks : list Z) : res (SkipList * list key_type) :=
  match ranks with
  | [] => Ok (sl, [])
  | n :: r =>
    '(sl1, k) ← SkipList_Indexed_Key fuel p sl n;
    '(sl2, ks) ← indexed_keys fuel p sl1 r;
    Ok (sl2, k :: ks)
  end.

(** The key and the data of the pair of rank [n] of [kvs], ranks counting
    from 1; [NULL] when there is no such pair. *)
Definition key_at (kvs : list (key_type * data_type)) (n : Z) : key_type :=
  if (1 <=? n)%Z then default NULL (kvs.*1 !! Z.to_nat (n - 1)) else NULL.

Definition data_at (kvs : list (key_type * data_type)) (n : Z) : data_type :=
  if (1 <=? n)%Z then default NULL (kvs.*2 !! Z.to_nat (n - 1)) else NULL.

(** [kvs] with the data of the pair of rank [n] replaced by [d]. *)
Definition set_data_at (kvs : list (key_type * data_type)) (n : Z)
  (d : data_type) : list (key_type * data_type) :=
  if (1 <=? n)%Z
  then alter (λ kv, (kv.1, d)) (Z.to_nat (n - 1)) kvs
  else kvs.

(** What the links and spans of a list of nodes depend on. *)
Definition shape (e : elem) : loc * nat := (a_loc e, a_height e).

Definition with_data (e : elem) (d : data_type) : elem :=
  mkElem (a_loc e) (a_key e) d (a_height e).

(** ** The level-0 list alone *)

(** The header [hd] is followed on level 0 by the records of [R], in this
    order, each with its key and its data. *)
Definition level0_ok (h : gmap loc SkipList_element_struct) (hd : loc)
  (R : list elem) : Prop :=
  NoDup (hd :: (a_loc <$> R)) ∧
  fwd h hd 0 = Some (a_loc <$> R !! 0) ∧
  ∀ j e, R !! j = Some e →
    (∃ r, h !! a_loc e = Some r ∧ e_key r = a_key e ∧ e_data r = a_data e) ∧
    fwd h (a_loc e) 0 = Some (a_loc <$> R !! S j).

(** ** The container as a sorted list of pairs

    The operations on the list of pairs that the iteration visits: an
    insertion puts the pair in before the first pair whose key is not less
    than its key; a deletion takes out that first pair when its key compares
    equal to the key given. *)

Fixpoint kv_insert (cmp : key_type → key_type → Z) (k : key_type)
  (v : data_type) (kvs : list (key_type * data_type))
  : list (key_type * data_type) :=
  match kvs with
  | [] => [(k, v)]
  | kv :: r =>
    if (cmp k kv.1 >? 0)%Z then kv :: kv_insert cmp k v r else (k, v) :: kvs
  end.

Fixpoint kv_delete (cmp : key_type → key_type → Z) (k : key_type)
  (kvs : list (key_type * data_type)) : list (key_type * data_type) :=
  match kvs with
  | [] => []
  | kv :: r =>
    if (cmp k kv.1 >? 0)%Z then kv :: kv_delete cmp k r
    else if (cmp kv.1 k =? 0)%Z then r else kvs
  end.

Definition kv_apply (cmp : key_type → key_type → Z)
  (kvs : list (key_type * data_type)) (o : op) : list (key_type * data_type) :=
  match o with
  | OpInsert k v => kv_insert cmp k v kvs
  | OpDelete k => kv_delete cmp k kvs
  | OpSearch _ => kvs
  end.

(** ** The footprint of an operation *)

(** The heap [h'] differs from [h] at addresses of [S] only. *)
Definition frame (S : loc → Prop) (h h' : gmap loc SkipList_element_struct)
  : Prop :=
  ∀ x, ¬ S x → h' !! x = h !! x.

(** Every entry of the local array that has been written is in [S]. *)
Definition fingers_in (S : loc → Prop) (u : skiplist_finger) : Prop :=
  ∀ i f, u !! i = Some (Some f) → S f.

(** The addresses of the records of a container. *)
Definition owned (sl : SkipList) (els : list elem) (x : loc) : Prop :=
  x ∈ a_loc <$> nodes (sl_header sl) els.

(** Two containers of one process, with their lists of elements: each is
    well formed and no record belongs to both. *)
Definition apart (p : process) (a b : SkipList) (A B : list elem) : Prop :=
  Inv p a A ∧ Inv p b B ∧ ∀ x, owned a A x → ¬ owned b B x.

(** The operations of a schedule that go to one of the two containers. *)
Fixpoint ops_of (side : bool) (sched : list (bool * op)) : list op :=
  match sched with
  | [] => []
  | (s, o) :: r =>
    if Bool.eqb s side then o :: ops_of side r else ops_of side r
  end.

(** ** The levels of a record, read from the heap *)

(** The record at [x] has more than [i] levels. *)
Definition tallerb (h : gmap loc SkipList_element_struct) (i : nat) (x : loc)
  : bool :=
  match h !! x with
  | Some r => bool_decide (i < e_height r)
  | None => false
  end.

(** ** The states with the by-rank functions

    The by-rank functions write the cache of the container, and they are
    right only when the cache they start from is fresh: on a cache that an
    insertion or the creation has left behind they can store a node with a
    distance that is not its rank, which the later searches take over.
    [disciplined] are the states of a container whose by-rank functions
    have only been called on a fresh cache, that is right after a search by
    key or after another by-rank call: [disciplined FreshCache] holds of the
    states right after a search by key or a by-rank call,
    [disciplined AnyCache] of all these states. *)

Inductive cache_state : Type := AnyCache | FreshCache.

Inductive disciplined : cache_state → process → SkipList → Prop :=
| disc_create p c :
    frontier_ok p → comparator_ok c →
    disciplined AnyCache (SkipList_Create p c).1 (SkipList_Create p c).2
| disc_insert fuel p sl k m p' sl' :
    disciplined AnyCache p sl → SkipList_Insert fuel p sl k m = Ok (p', sl') →
    disciplined AnyCache p' sl'
| disc_delete fuel p sl k p' sl' d :
    disciplined AnyCache p sl → SkipList_Delete fuel p sl k = Ok (p', sl', d) →
    disciplined AnyCache p' sl'
| disc_search fuel p sl k sl' v :
    disciplined AnyCache p sl → SkipList_Search fuel p sl k = Ok (sl', v) →
    disciplined FreshCache p sl'
| disc_key fuel p sl n sl' k :
    disciplined FreshCache p sl →
    SkipList_Indexed_Key fuel p sl n = Ok (sl', k) →
    disciplined FreshCache p sl'
| disc_member fuel p sl n sl' d :
    disciplined FreshCache p sl →
    SkipList_Indexed_Member fuel p sl n = Ok (sl', d) →
    disciplined FreshCache p sl'
| disc_update fuel p sl n d p' sl' :
    disciplined FreshCache p sl →
    SkipList_Indexed_Update fuel p sl n d = Ok (p', sl') →
    disciplined FreshCache p' sl'
| disc_any p sl :
    disciplined FreshCache p sl → disciplined AnyCache p sl.

(** [st_four] after a search for the key 3, a read of rank 2 and a write of
    rank 4. *)
Definition st_ranked : process * SkipList :=
  Eval vm_compute in
    match SkipList_Search 8 st_four.1 st_four.2 3 with
    | Ok (sl1, _) =>
      match SkipList_Indexed_Key 8 st_four.1 sl1 2 with
      | Ok (sl2, _) =>
        match SkipList_Indexed_Update 8 st_four.1 sl2 4 44 with
        | Ok st => st
        | _ => st_four
        end
      | _ => st_four
      end
    | _ => st_four
    end.

(** The keys 3, 4, 5, 1 inserted in this order, and then a read of rank 3,
    on the cache that the insertions have left behind. *)
Definition st_stale : process * SkipList :=
  Eval vm_compute in
    match run_ops 8 st_empty
            [OpInsert 3 30; OpInsert 4 40; OpInsert 5 50; OpInsert 1 10] with
    | Ok (p, sl) =>
      match SkipList_Indexed_Key 8 p sl 3 with
      | Ok (sl1, _) => (p, sl1)
      | _ => st_empty
      end
    | _ => st_empty
    end.

(** The operations of a schedule that count for the levels of the nodes of
    the first container: its own operations and the insertions into the
    second container. *)
Definition counts (x : bool * op) : bool := x.1 || is_insert x.2.

(** * Proofs *)

(** ** The result monad and the memory accesses *)

Lemma bind_Ok {A B : Type} (a : A) (f : A → res B) : Ok a ≫= f = f a.
Proof. reflexivity. Qed.

Ltac step := rewrite bind_Ok; cbn beta iota.

Lemma bind_Ok_inv {A B : Type} (m : res A) (f : A → res B) (b : B) :
  (x ← m; f x) = Ok b → ∃ a, m = Ok a ∧ f a = Ok b.
Proof. destruct m; simpl; try discriminate. eauto. Qed.

Lemma MAX_LEVEL_pos : 0 < MAX_LEVEL.
Proof. unfold MAX_LEVEL. lia. Qed.

#[global] Opaque MAX_LEVEL.

Lemma index_Ok {A : Type} (l : list A) (i : nat) (x : A) :
  l !! i = Some x → index l i = Ok x.
Proof. unfold index. by intros ->. Qed.

Lemma store_Ok {A : Type} (l : list A) (i : nat) (x : A) :
  i < length l → store l i x = Ok (<[i := x]> l).
Proof. unfold store. intros. by rewrite decide_True. Qed.

Lemma get_forward_fwd h a i x :
  fwd h a i = Some x → get_forward h a i = Ok x.
Proof.
  unfold fwd, get_forward, deref. destruct (h !! a) as [e|]; simpl; [|done].
  apply index_Ok.
Qed.

Lemma get_diff_dif h a i x : dif h a i = Some x → get_diff h a i = Ok x.
Proof.
  unfold dif, get_diff, deref. destruct (h !! a) as [e|]; simpl; [|done].
  apply index_Ok.
Qed.

Lemma meta_deref h a k d ht lf ld :
  meta h a = Some (k, d, ht, lf, ld) →
  ∃ e, h !! a = Some e ∧ deref h a = Ok e ∧ e_key e = k ∧ e_data e = d ∧
       e_height e = ht ∧ length (e_forward e) = lf ∧ length (e_diff e) = ld.
Proof.
  unfold meta, deref. destruct (h !! a) as [e|]; simpl; [|done].
  intros [= <- <- <- <- <-]. eauto 10.
Qed.

(** What a write to one cell does to all the cells. *)
Lemma set_diff_spec h a i x z :
  dif h a i = Some z →
  ∃ h', set_diff h a i x = Ok h' ∧
    (∀ b, meta h' b = meta h b) ∧
    (∀ b j, fwd h' b j = fwd h b j) ∧
    (∀ b j, dif h' b j = if decide (b = a ∧ j = i) then Some x else dif h b j).
Proof.
  unfold dif, set_diff, deref. destruct (h !! a) as [e|] eqn:He; simpl; [|done].
  intros Hz. apply lookup_lt_Some in Hz as Hlt.
  rewrite store_Ok by done. simpl. eexists; split; [done|].
  split; [|split].
  - intros b. unfold meta. destruct (decide (b = a)) as [->|].
    + rewrite lookup_insert_eq, He. simpl. by rewrite length_insert.
    + by rewrite lookup_insert_ne.
  - intros b j. unfold fwd. destruct (decide (b = a)) as [->|].
    + by rewrite lookup_insert_eq, He.
    + by rewrite lookup_insert_ne.
  - intros b j. unfold dif. destruct (decide (b = a)) as [->|].
    + rewrite lookup_insert_eq, He. simpl. case_decide as Hd.
      * destruct Hd as [_ ->]. by rewrite list_lookup_insert_eq.
      * rewrite list_lookup_insert_ne; [done|]. naive_solver.
    + rewrite lookup_insert_ne by done. rewrite decide_False; [done|]. by intros [? _].
Qed.

Lemma set_forward_spec h a i x z :
  fwd h a i = Some z →
  ∃ h', set_forward h a i x = Ok h' ∧
    (∀ b, meta h' b = meta h b) ∧
    (∀ b j, dif h' b j = dif h b j) ∧
    (∀ b j, fwd h' b j = if decide (b = a ∧ j = i) then Some x else fwd h b j).
Proof.
  unfold fwd, set_forward, deref. destruct (h !! a) as [e|] eqn:He; simpl; [|done].
  intros Hz. apply lookup_lt_Some in Hz as Hlt.
  rewrite store_Ok by done. simpl. eexists; split; [done|].
  split; [|split].
  - intros b. unfold meta. destruct (decide (b = a)) as [->|].
    + rewrite lookup_insert_eq, He. simpl. by rewrite length_insert.
    + by rewrite lookup_insert_ne.
  - intros b j. unfold dif. destruct (decide (b = a)) as [->|].
    + by rewrite lookup_insert_eq, He.
    + by rewrite lookup_insert_ne.
  - intros b j. unfold fwd. destruct (decide (b = a)) as [->|].
    + rewrite lookup_insert_eq, He. simpl. case_decide as Hd.
      * destruct Hd as [_ ->]. by rewrite list_lookup_insert_eq.
      * rewrite list_lookup_insert_ne; [done|]. naive_solver.
    + rewrite lookup_insert_ne by done. rewrite decide_False; [done|]. by intros [? _].
Qed.

(** A counted loop keeps an invariant that each of its rounds keeps. *)
Lemma for_range_inv {St : Type} (P : nat → St → Prop) (a n : nat)
  (body : nat → St → res St) (s : St) :
  P a s →
  (∀ i s0, a ≤ i < a + n → P i s0 → ∃ s1, body i s0 = Ok s1 ∧ P (S i) s1) →
  ∃ s', for_range a n body s = Ok s' ∧ P (a + n) s'.
Proof.
  revert a s. induction n as [|n IH]; intros a s HP Hstep; simpl.
  - exists s. split; [done|]. by replace (a + 0) with a by lia.
  - destruct (Hstep a s) as (s1 & -> & HP1); [lia|done|].
    step.
    destruct (IH (S a) s1 HP1) as (s' & -> & HP').
    + intros i s0 Hi. apply Hstep. lia.
    + exists s'. split; [done|]. by replace (a + S n) with (S a + n) by lia.
Qed.

(** ** Levels and spans of the abstract list *)

Lemma first_tall_app_none i A B :
  (∀ m e, A !! m = Some e → ¬ tall i e) →
  first_tall i (A ++ B) = first_tall i B ∧
  dist i (A ++ B) = (Z.of_nat (length A) + dist i B)%Z.
Proof.
  induction A as [|x A IH]; intros HA; cbn [first_tall dist app length].
  - split; [done|lia].
  - rewrite !decide_False by (apply (HA 0); done).
    destruct IH as [-> ->]; [intros m e; apply (HA (S m))|].
    split; [done|lia].
Qed.

Lemma first_tall_app_some i A B m e :
  A !! m = Some e → tall i e →
  first_tall i (A ++ B) = first_tall i A ∧ dist i (A ++ B) = dist i A.
Proof.
  revert m. induction A as [|x A IH]; intros m Hm Ht; [done|]. simpl.
  destruct (decide (tall i x)) as [|Hx]; [done|].
  destruct m as [|m']; simpl in Hm; [by simplify_eq|].
  destruct (IH m') as [-> ->]; done.
Qed.

Lemma first_tall_None i l :
  first_tall i l = None → ∀ m e, l !! m = Some e → ¬ tall i e.
Proof.
  induction l as [|x l IH]; simpl; [done|]. case_decide; [done|].
  intros Hl [|m] e Hm; simplify_eq/=; [done|]. by eapply IH.
Qed.

Lemma first_tall_Some i l a :
  first_tall i l = Some a →
  ∃ m e, l !! m = Some e ∧ a_loc e = a ∧ tall i e ∧
    (∀ m' e', m' < m → l !! m' = Some e' → ¬ tall i e') ∧
    dist i l = (Z.of_nat m + 1)%Z.
Proof.
  induction l as [|x l IH]; simpl; [done|]. case_decide as Hx.
  - intros [= <-]. exists 0, x. repeat split; try done. lia.
  - intros Hl. destruct (IH Hl) as (m & e & Hm & Ha & Ht & Hbefore & Hd).
    exists (S m), e. repeat split; try done.
    + intros [|m'] e' Hlt Hm'; simplify_eq/=; [done|].
      eapply Hbefore; [|done]. lia.
    + lia.
Qed.

Lemma fpos_le ns i c : fpos ns i c ≤ c.
Proof.
  induction c as [|c IH]; simpl; [done|].
  destruct (ns !! S c); [case_decide|]; lia.
Qed.

Lemma fpos_tall ns i c e0 :
  ns !! 0 = Some e0 → tall i e0 →
  ∃ e, ns !! fpos ns i c = Some e ∧ tall i e.
Proof.
  intros H0 Ht. induction c as [|c IH]; simpl; [eauto|].
  destruct (ns !! S c) as [e|] eqn:He; [case_decide|]; eauto.
Qed.

Lemma fpos_after ns i c j e :
  fpos ns i c < j ≤ c → ns !! j = Some e → ¬ tall i e.
Proof.
  induction c as [|c IH]; simpl; [lia|]. intros Hj Hl.
  destruct (decide (j = S c)) as [->|Hne].
  - rewrite Hl in Hj. destruct (decide (tall i e)); [lia|done].
  - apply IH; [|done]. pose proof (fpos_le ns i c).
    destruct (ns !! S c); [case_decide|]; lia.
Qed.

Lemma fpos_ge ns i c j e :
  j ≤ c → ns !! j = Some e → tall i e → j ≤ fpos ns i c.
Proof.
  intros Hj Hl Ht. destruct (decide (j ≤ fpos ns i c)); [done|].
  exfalso. apply (fpos_after ns i c j e); [lia|done|done].
Qed.

Lemma fpos_unique ns i c j e :
  j ≤ c → ns !! j = Some e → tall i e →
  (∀ j' e', j < j' ≤ c → ns !! j' = Some e' → ¬ tall i e') →
  fpos ns i c = j.
Proof.
  intros Hj Hl Ht. induction c as [|c IH]; intros Hafter; simpl; [lia|].
  destruct (decide (j = S c)) as [->|Hne].
  - rewrite Hl. by rewrite decide_True.
  - assert (fpos ns i c = j) as Hc.
    { apply IH; [lia|]. intros j' e' ?. apply Hafter. lia. }
    destruct (ns !! S c) as [e'|] eqn:He'; [|done].
    rewrite decide_False; [done|]. eapply Hafter; [|done]. lia.
Qed.

(** ** The rank of a key *)

Lemma key_rank_le cmp k els : key_rank cmp k els ≤ length els.
Proof.
  induction els as [|e els IH]; simpl; [done|].
  destruct (cmp k (a_key e) >? 0)%Z; lia.
Qed.

Lemma key_rank_lt cmp k els j e :
  j < key_rank cmp k els → els !! j = Some e → (cmp k (a_key e) > 0)%Z.
Proof.
  revert j. induction els as [|x els IH]; intros j; simpl; [lia|].
  destruct (cmp k (a_key x) >? 0)%Z eqn:Hx; [|lia].
  destruct j as [|j]; simpl.
  - intros _ [= <-]. lia.
  - intros ? ?. apply (IH j); [lia|done].
Qed.

Lemma key_rank_at cmp k els e :
  els !! key_rank cmp k els = Some e → (cmp k (a_key e) ≤ 0)%Z.
Proof.
  induction els as [|x els IH]; simpl; [done|].
  destruct (cmp k (a_key x) >? 0)%Z eqn:Hx; simpl; [done|].
  intros [= <-]. lia.
Qed.

Lemma key_rank_ge cmp k els j e :
  comparator_ok cmp → StronglySorted (key_le cmp) els →
  key_rank cmp k els ≤ j → els !! j = Some e → (cmp k (a_key e) ≤ 0)%Z.
Proof.
  intros [_ Htrans] Hs. revert j.
  induction Hs as [|x r Hs IH Hx]; intros j; simpl; [done|].
  destruct (cmp k (a_key x) >? 0)%Z eqn:Hc.
  - destruct j as [|j]; [lia|]. simpl. intros ?. apply IH. lia.
  - intros _. destruct j as [|j]; simpl.
    + intros [= <-]. lia.
    + intros Hl. apply list_elem_of_lookup_2 in Hl.
      rewrite Forall_forall in Hx. apply (Htrans _ (a_key x)); [lia|].
      by apply Hx.
Qed.

(** ** Walking along one level *)

Section walk.
Context (h : gmap loc SkipList_element_struct) (level : nat) (hd : loc)
  (els : list elem).
Let ns := nodes hd els.
Hypothesis Hnodes :
  ∀ j e, ns !! j = Some e → node_ok h level e (drop (S j) ns).

(** The node after [e] on level [i], as the heap gives it. *)
Lemma next_node j e i :
  ns !! j = Some e → tall i e →
  (fwd h (a_loc e) i = Some None ∧
   (∀ j' e', j < j' → ns !! j' = Some e' → ¬ tall i e') ∧
   (i < level → dif h (a_loc e) i = Some (Z.of_nat (length ns) - Z.of_nat j)%Z)) ∨
  (∃ j2 e2, j < j2 ∧ ns !! j2 = Some e2 ∧ tall i e2 ∧
     fwd h (a_loc e) i = Some (Some (a_loc e2)) ∧
     (∀ j' e', j < j' < j2 → ns !! j' = Some e' → ¬ tall i e') ∧
     (i < level → dif h (a_loc e) i = Some (Z.of_nat j2 - Z.of_nat j)%Z)).
Proof.
  intros Hj Ht. destruct (Hnodes j e Hj) as (Hmeta & Hfwd & Hdif).
  specialize (Hfwd i Ht). specialize (Hdif i Ht).
  destruct (first_tall i (drop (S j) ns)) as [a|] eqn:Hft.
  - right. apply first_tall_Some in Hft as (m & e2 & Hm & Ha & Ht2 & Hbefore & Hd).
    rewrite lookup_drop in Hm. exists (S j + m), e2.
    split; [lia|]. split; [done|]. split; [done|]. split; [by rewrite Ha|].
    split.
    + intros j' e' Hj' Hl'. apply (Hbefore (j' - S j)); [lia|].
      rewrite lookup_drop. by replace (S j + (j' - S j)) with j' by lia.
    + intros Hi. rewrite Hdif by done. f_equal. lia.
  - left. split; [done|]. split.
    + intros j' e' Hj' Hl'.
      apply (first_tall_None _ _ Hft (j' - S j)).
      rewrite lookup_drop. by replace (S j + (j' - S j)) with j' by lia.
    + intros Hi. rewrite Hdif by done. f_equal.
      destruct (first_tall_app_none i (drop (S j) ns) []) as [_ Hd].
      { by apply first_tall_None. }
      rewrite app_nil_r in Hd. rewrite Hd. cbn [dist]. rewrite length_drop.
      apply lookup_lt_Some in Hj. lia.
Qed.

Lemma node_deref j e :
  ns !! j = Some e →
  ∃ r, h !! a_loc e = Some r ∧ deref h (a_loc e) = Ok r ∧
    e_key r = a_key e ∧ e_data r = a_data e ∧ e_height r = a_height e.
Proof.
  intros Hj. destruct (Hnodes j e Hj) as (Hmeta & _).
  apply meta_deref in Hmeta as (r & ? & ? & ? & ? & ? & _). eauto 10.
Qed.

Context (cmp : key_type → key_type → Z) (k : key_type) (c : nat).
Hypothesis Hlt :
  ∀ j e, 1 ≤ j ≤ c → ns !! j = Some e → (cmp k (a_key e) > 0)%Z.
Hypothesis Hge :
  ∀ j e, c < j → ns !! j = Some e → (cmp k (a_key e) ≤ 0)%Z.

Lemma key_while_spec fuel j e i :
  ns !! j = Some e → tall i e → i < level → j ≤ c → c - j < fuel →
  ∃ e', ns !! fpos ns i c = Some e' ∧ tall i e' ∧
    key_while fuel h cmp k i (a_loc e) (Z.of_nat j)
    = Ok (a_loc e', Z.of_nat (fpos ns i c)).
Proof.
  revert j e. induction fuel as [|fuel IH]; intros j e Hj Ht Hi Hjc Hfuel;
    [lia|]. simpl.
  destruct (next_node j e i Hj Ht) as
    [(Hf & Hnone & _)|(j2 & e2 & Hj2 & Hl2 & Ht2 & Hf & Hbetween & Hd)].
  - rewrite (get_forward_fwd _ _ _ _ Hf). step.
    exists e. rewrite (fpos_unique ns i c j e); try done.
    intros j' e' ?. apply Hnone. lia.
  - rewrite (get_forward_fwd _ _ _ _ Hf). step.
    destruct (node_deref j2 e2 Hl2) as (r & _ & -> & Hk & _).
    step. rewrite Hk.
    destruct (cmp k (a_key e2) >? 0)%Z eqn:Hc.
    + assert (j2 ≤ c).
      { destruct (decide (j2 ≤ c)); [done|].
        pose proof (Hge j2 e2 ltac:(lia) Hl2). lia. }
      rewrite (get_diff_dif _ _ _ _ (Hd Hi)). step.
      replace (Z.of_nat j + (Z.of_nat j2 - Z.of_nat j))%Z with (Z.of_nat j2)
        by lia.
      apply IH; try done. lia.
    + assert (c < j2).
      { destruct (decide (c < j2)); [done|].
        pose proof (Hlt j2 e2 ltac:(lia) Hl2). lia. }
      exists e. rewrite (fpos_unique ns i c j e); try done.
      intros j' e' ?. apply Hbetween. lia.
Qed.

Hypothesis Hlevel : level ≤ MAX_LEVEL.

Lemma key_levels_spec fuel n :
  ∀ sl finger delta f last js es,
  Member_Compare sl = cmp → sl_header sl = hd →
  n ≤ level →
  length (sl_finger sl) = MAX_LEVEL → length (sl_distance sl) = MAX_LEVEL →
  length finger = MAX_LEVEL → length delta = MAX_LEVEL →
  cache_ok sl ns →
  ns !! js = Some es → a_loc es = f → last = Z.of_nat js → js ≤ c →
  n ≤ a_height es → c < fuel →
  ∃ sl' finger' delta',
    key_levels fuel h k n sl finger delta f last = Ok (sl', finger', delta') ∧
    Member_Compare sl' = cmp ∧ sl_header sl' = hd ∧
    sl_level sl' = sl_level sl ∧ sl_length sl' = sl_length sl ∧
    length (sl_finger sl') = MAX_LEVEL ∧
    length (sl_distance sl') = MAX_LEVEL ∧
    length finger' = MAX_LEVEL ∧ length delta' = MAX_LEVEL ∧
    cache_ok sl' ns ∧
    (∀ i, i < n → ∃ e, ns !! fpos ns i c = Some e ∧ tall i e ∧
       finger' !! i = Some (Some (a_loc e)) ∧
       delta' !! i = Some (Some (Z.of_nat (fpos ns i c))) ∧
       sl_finger sl' !! i = Some (a_loc e) ∧
       sl_distance sl' !! i = Some (Z.of_nat (fpos ns i c))) ∧
    (∀ i, n ≤ i →
       finger' !! i = finger !! i ∧ delta' !! i = delta !! i ∧
       sl_finger sl' !! i = sl_finger sl !! i ∧
       sl_distance sl' !! i = sl_distance sl !! i).
Proof.
  induction n as [|current IH];
    intros sl finger delta f last js es Hcmp Hhd Hn Hlf Hld Hlfg Hldl Hcache
      Hjs Hf Hlast Hjsc Hes Hfuel.
  { simpl. exists sl, finger, delta. repeat split; try done. lia. }
  cbn [key_levels].
  destruct (lookup_lt_is_Some_2 (sl_finger sl) current) as [cf Hcf]; [lia|].
  rewrite (index_Ok _ _ _ Hcf). step.
  (* the start of the walk on this level *)
  assert (∃ r j1 e1, deref h cf = Ok r ∧
    ((if negb (e_key r =? NULL)%Z && (Member_Compare sl k (e_key r) >? 0)%Z
      then dist ← index (sl_distance sl) current; Ok (cf, dist)
      else Ok (f, last)) = Ok (a_loc e1, Z.of_nat j1)) ∧
    ns !! j1 = Some e1 ∧ tall current e1 ∧ j1 ≤ c) as
    (r & j1 & e1 & -> & Hstart & Hj1 & Ht1 & Hj1c).
  { destruct (Hcache current cf Hcf) as [->|(j & e & Hj & Ha & Ht & Hd)].
    - destruct (node_deref 0 (header_elem hd)) as (r & _ & Hr & Hk & _);
        [done|].
      exists r, js, es. rewrite Hhd. split; [done|]. simpl in Hk.
      rewrite Hk. simpl.
      rewrite Hf, Hlast. repeat split; done.
    - destruct (node_deref j e Hj) as (r & _ & Hr & Hk & _).
      rewrite Ha in Hr. exists r. rewrite Hk, Hcmp.
      destruct (negb (a_key e =? NULL)%Z && (cmp k (a_key e) >? 0)%Z)
        eqn:Hcond.
      + exists j, e. split; [done|]. rewrite (index_Ok _ _ _ Hd). step. rewrite Ha.
        repeat split; try done.
        apply andb_true_iff in Hcond as [_ Hc].
        destruct (decide (j ≤ c)); [done|].
        pose proof (Hge j e ltac:(lia) Hj). lia.
      + exists js, es. rewrite Hf, Hlast. repeat split; done. }
  step. rewrite Hstart. step.
  destruct (key_while_spec fuel j1 e1 current Hj1 Ht1 ltac:(lia) Hj1c ltac:(lia))
    as (e' & He' & Ht' & Hwalk).
  rewrite Hcmp, Hwalk. step.
  rewrite (store_Ok (sl_finger sl)) by lia. step.
  unfold local_set. rewrite (store_Ok finger) by lia. step.
  rewrite (store_Ok (sl_distance sl)) by lia. step.
  rewrite (store_Ok delta) by lia. step.
  pose proof (fpos_le ns current c) as Hfle.
  edestruct (IH
    (mkSkipList cmp (sl_header sl) (<[current:=a_loc e']> (sl_finger sl))
       (<[current:=Z.of_nat (fpos ns current c)]> (sl_distance sl))
       (sl_level sl) (sl_length sl))
    (<[current:=Some (a_loc e')]> finger)
    (<[current:=Some (Z.of_nat (fpos ns current c))]> delta)
    (a_loc e') (Z.of_nat (fpos ns current c)) (fpos ns current c) e')
    as (sl' & finger' & delta' & Hrun & ? & ? & ? & ? & ? & ? & ? & ? & ? &
        Hbelow & Habove); simpl; try done; try lia.
  { by rewrite length_insert. }
  { by rewrite length_insert. }
  { by rewrite length_insert. }
  { by rewrite length_insert. }
  { intros i g. simpl. destruct (decide (i = current)) as [->|Hne].
    - rewrite list_lookup_insert_eq by lia. intros [= <-]. right.
      exists (fpos ns current c), e'. repeat split; try done.
      by rewrite list_lookup_insert_eq by lia.
    - rewrite !list_lookup_insert_ne by done. apply Hcache. }
  { unfold tall in Ht'. lia. }
  exists sl', finger', delta'. split; [done|]. do 9 (split; [done|]). split.
  - intros i Hi. destruct (decide (i = current)) as [->|Hne].
    + exists e'. destruct (Habove current) as (-> & -> & -> & ->); [lia|].
      simpl. rewrite !list_lookup_insert_eq by lia. done.
    + apply Hbelow. lia.
  - intros i Hi. destruct (Habove i) as (-> & -> & -> & ->); [lia|]. simpl.
    rewrite !list_lookup_insert_ne by lia. done.
Qed.
End walk.

(** ** The search by key on a well-formed container *)

Lemma nodes_lookup_S hd els j : nodes hd els !! S j = els !! j.
Proof. done. Qed.

Lemma nodes_lookup_0 hd els : nodes hd els !! 0 = Some (header_elem hd).
Proof. done. Qed.

Lemma length_nodes hd els : length (nodes hd els) = S (length els).
Proof. done. Qed.

Lemma key_rank_nodes_lt cmp k hd els j e :
  1 ≤ j ≤ key_rank cmp k els → nodes hd els !! j = Some e →
  (cmp k (a_key e) > 0)%Z.
Proof.
  destruct j as [|j]; [lia|]. rewrite nodes_lookup_S. intros ?.
  apply key_rank_lt. lia.
Qed.

Lemma key_rank_nodes_ge cmp k hd els j e :
  comparator_ok cmp → StronglySorted (key_le cmp) els →
  key_rank cmp k els < j → nodes hd els !! j = Some e →
  (cmp k (a_key e) ≤ 0)%Z.
Proof.
  intros Hc Hs. destruct j as [|j]; [lia|]. rewrite nodes_lookup_S. intros ?.
  apply key_rank_ge; [done..|lia].
Qed.

Lemma length_fresh_finger : length fresh_finger = MAX_LEVEL.
Proof. apply length_replicate. Qed.

Lemma length_fresh_delta : length fresh_delta = MAX_LEVEL.
Proof. apply length_replicate. Qed.

(** A cached node lies on a level in use, so the entries of the levels that
    are not in use hold the header. *)
Lemma cache_above p sl els i f :
  Inv p sl els → sl_level sl ≤ i → sl_finger sl !! i = Some f →
  f = sl_header sl.
Proof.
  intros HI Hi Hf.
  destruct (inv_cache _ _ _ HI i f Hf) as [|(j & e & Hj & Ha & Ht & _)];
    [done|].
  destruct j as [|j].
  - rewrite nodes_lookup_0 in Hj. by simplify_eq.
  - rewrite nodes_lookup_S in Hj. apply list_elem_of_lookup_2 in Hj.
    apply (inv_heights _ _ _ HI) in Hj. unfold tall in Ht. lia.
Qed.

Lemma Search_by_Key_spec fuel p sl els k :
  Inv p sl els → (sl_length sl < Z.of_nat fuel)%Z →
  ∃ sl' u d,
    Search_by_Key fuel p sl fresh_finger fresh_delta k = Ok (sl', u, d) ∧
    Inv p sl' els ∧
    Member_Compare sl' = Member_Compare sl ∧ sl_header sl' = sl_header sl ∧
    sl_level sl' = sl_level sl ∧ sl_length sl' = sl_length sl ∧
    length u = MAX_LEVEL ∧ length d = MAX_LEVEL ∧
    (∀ i, i < sl_level sl →
       ∃ e, nodes (sl_header sl) els
              !! fpos (nodes (sl_header sl) els) i
                   (key_rank (Member_Compare sl) k els) = Some e ∧
         tall i e ∧
         u !! i = Some (Some (a_loc e)) ∧
         d !! i = Some (Some (Z.of_nat
                   (fpos (nodes (sl_header sl) els) i
                      (key_rank (Member_Compare sl) k els))))) ∧
    (∀ i f, sl_finger sl' !! i = Some f →
       f = sl_header sl ∨
       ∃ j e, j ≤ key_rank (Member_Compare sl) k els ∧
         nodes (sl_header sl) els !! j = Some e ∧ a_loc e = f ∧ tall i e ∧
         sl_distance sl' !! i = Some (Z.of_nat j)).
Proof.
  intros HI Hfuel. pose proof HI as [Hcmp Hlevel Hlen Hnd Hnodes Hh Hs Hfr Hfl Hdl Hc].
  set (ns := nodes (sl_header sl) els) in *.
  set (c := key_rank (Member_Compare sl) k els) in *.
  pose proof (key_rank_le (Member_Compare sl) k els) as Hcle. fold c in Hcle.
  unfold Search_by_Key.
  destruct (key_levels_spec (heap p) (sl_level sl) (sl_header sl) els Hnodes
    (Member_Compare sl) k c) with (fuel := fuel) (n := sl_level sl) (sl := sl)
    (finger := fresh_finger) (delta := fresh_delta) (f := sl_header sl)
    (last := 0%Z) (js := 0) (es := header_elem (sl_header sl))
    as (sl' & u & d & Hrun & Hcmp' & Hhd' & Hlv' & Hln' & Hfl' & Hdl' & Hul & Hdll
        & Hc' & Hbelow & Habove);
    try done; try lia; try apply length_fresh_finger;
    try apply length_fresh_delta; try (simpl; lia).
  { intros j e. apply key_rank_nodes_lt. }
  { intros j e. by apply key_rank_nodes_ge. }
  exists sl', u, d. split; [done|]. split.
  { constructor; rewrite ?Hcmp', ?Hhd', ?Hlv', ?Hln'; done. }
  do 6 (split; [done|]). split.
  - intros i Hi. destruct (Hbelow i Hi) as (e & ? & ? & ? & ? & _). eauto.
  - intros i f Hf. destruct (decide (i < sl_level sl)) as [Hi|Hi].
    + destruct (Hbelow i Hi) as (e & He & Ht & _ & _ & Hf' & Hd').
      right. exists (fpos ns i c), e. rewrite Hf' in Hf.
      pose proof (fpos_le ns i c). by simplify_eq.
    + left. destruct (Habove i ltac:(lia)) as (_ & _ & Hf' & _).
      rewrite Hf' in Hf. eapply cache_above; [done| |done]. lia.
Qed.

(** ** The loops of the insertion, cell by cell *)

Lemma local_get_Ok {A : Type} (l : list (option A)) (i : nat) (x : A) :
  l !! i = Some (Some x) → local_get l i = Ok x.
Proof. unfold local_get. by intros ->. Qed.

Lemma level_loop_ge fuel i n : n ≤ level_loop fuel i n.
Proof.
  revert i n. induction fuel as [|fuel IH]; intros i n; simpl; [done|].
  destruct (negb (Z.land i 1 =? 0)%Z); [|done].
  specialize (IH (Z.shiftr i 1) (S n)). lia.
Qed.

Lemma Choose_Random_Level_range c :
  1 ≤ (Choose_Random_Level c).1 ≤ MAX_LEVEL ∧
  (Choose_Random_Level c).2 = (c + 1)%Z.
Proof.
  unfold Choose_Random_Level. pose proof (level_loop_ge 64 c 1) as Hge.
  set (n := level_loop 64 c 1) in *. cbn [fst snd].
  pose proof MAX_LEVEL_pos. case_decide; lia.
Qed.

#[global] Opaque level_loop.

Lemma insert_diff_loop (u : skiplist_finger) (d : skiplist_delta) (n : loc)
  (nl : nat) (U : nat → loc) (D : nat → Z) h0 :
  (∀ i, i < nl → local_get u i = Ok (U i) ∧ local_get d i = Ok (D i)) →
  0 < nl →
  (∀ i, i < nl → n ≠ U i) →
  (∀ i, i < nl → is_Some (dif h0 (U i) i) ∧ is_Some (dif h0 n i)) →
  ∃ h, for_range 0 nl (insert_diff_body u d n) h0 = Ok h ∧
    (∀ b, meta h b = meta h0 b) ∧
    (∀ b j, fwd h b j = fwd h0 b j) ∧
    (∀ b j, dif h b j =
       if decide (j < nl) then
         if decide (b = n) then x ← dif h0 (U j) j; Some (x - D 0%nat + D j)%Z
         else if decide (b = U j) then Some (D 0%nat - D j + 1)%Z
         else dif h0 b j
       else dif h0 b j).
Proof.
  intros Hud Hnl Hne Hcells.
  destruct (for_range_inv (λ m h,
    (∀ b, meta h b = meta h0 b) ∧
    (∀ b j, fwd h b j = fwd h0 b j) ∧
    (∀ b j, dif h b j =
       if decide (j < m) then
         if decide (b = n) then x ← dif h0 (U j) j; Some (x - D 0%nat + D j)%Z
         else if decide (b = U j) then Some (D 0%nat - D j + 1)%Z
         else dif h0 b j
       else dif h0 b j)) 0 nl (insert_diff_body u d n) h0)
    as (h & Hrun & HP).
  - split; [done|]. split; [done|]. intros b j.
    rewrite decide_False; [done|lia].
  - intros i h [_ Hi] (Hm & Hf & Hd). simpl in Hi.
    destruct (Hud i Hi) as [Hu Hdi]. destruct (Hud 0 Hnl) as [_ Hd0].
    destruct (Hcells i Hi) as [[x Hx] [y Hy]].
    unfold insert_diff_body. rewrite Hu. step.
    assert (dif h (U i) i = Some x) as Hx'.
    { rewrite Hd. rewrite decide_False; [done|lia]. }
    rewrite (get_diff_dif _ _ _ _ Hx'). step. rewrite Hd0. step.
    rewrite Hdi. step.
    assert (dif h n i = Some y) as Hy'.
    { rewrite Hd. rewrite decide_False; [done|lia]. }
    destruct (set_diff_spec h n i (x - D 0%nat + D i)%Z y Hy')
      as (h1 & -> & Hm1 & Hf1 & Hd1). step.
    assert (dif h1 (U i) i = Some x) as Hx1.
    { rewrite Hd1. rewrite decide_False; [done|]. intros [? _].
      by apply (Hne i Hi). }
    destruct (set_diff_spec h1 (U i) i (D 0%nat - D i + 1)%Z x Hx1)
      as (h2 & -> & Hm2 & Hf2 & Hd2).
    exists h2. split; [done|]. split; [|split].
    + intros b. by rewrite Hm2, Hm1.
    + intros b j. by rewrite Hf2, Hf1.
    + intros b j. rewrite Hd2, Hd1, Hd.
      destruct (decide (j = i)) as [->|Hji].
      * rewrite (decide_True (P := i < S i)) by lia.
        rewrite (decide_False (P := i < i)) by lia.
        destruct (decide (b = U i)) as [->|Hb].
        -- rewrite decide_True by done.
           rewrite (decide_False (P := U i = n)); [done|].
           intros ?. by apply (Hne i Hi).
        -- rewrite (decide_False (P := b = U i ∧ i = i)) by (intuition congruence).
           destruct (decide (b = n)) as [->|Hbn].
           ++ rewrite decide_True by done. by rewrite Hx.
           ++ rewrite decide_False by (intuition congruence). done.
      * rewrite (decide_False (P := b = U i ∧ j = i)) by (intuition congruence).
        rewrite (decide_False (P := b = n ∧ j = i)) by (intuition congruence).
        destruct (decide (j < i)).
        -- rewrite (decide_True (P := j < S i)) by lia. done.
        -- rewrite (decide_False (P := j < S i)) by lia. done.
  - exists h. split; [done|]. apply HP.
Qed.

Lemma insert_bump_loop (u : skiplist_finger) (U : nat → loc) h0 a cnt :
  (∀ i, a ≤ i < a + cnt → local_get u i = Ok (U i)) →
  (∀ i, a ≤ i < a + cnt → is_Some (dif h0 (U i) i)) →
  ∃ h, for_range a cnt (insert_bump_body u) h0 = Ok h ∧
    (∀ b, meta h b = meta h0 b) ∧
    (∀ b j, fwd h b j = fwd h0 b j) ∧
    (∀ b j, dif h b j =
       if decide (a ≤ j < a + cnt ∧ b = U j)
       then x ← dif h0 b j; Some (x + 1)%Z
       else dif h0 b j).
Proof.
  intros Hu Hcells.
  destruct (for_range_inv (λ m h,
    (∀ b, meta h b = meta h0 b) ∧
    (∀ b j, fwd h b j = fwd h0 b j) ∧
    (∀ b j, dif h b j =
       if decide (a ≤ j < m ∧ b = U j)
       then x ← dif h0 b j; Some (x + 1)%Z
       else dif h0 b j)) a cnt (insert_bump_body u) h0)
    as (h & Hrun & HP).
  - split; [done|]. split; [done|]. intros b j.
    rewrite decide_False; [done|lia].
  - intros i h Hi (Hm & Hf & Hd).
    destruct (Hcells i Hi) as [x Hx].
    unfold insert_bump_body. rewrite (Hu i Hi). step.
    assert (dif h (U i) i = Some x) as Hx'.
    { rewrite Hd. rewrite decide_False; [done|lia]. }
    rewrite (get_diff_dif _ _ _ _ Hx'). step.
    destruct (set_diff_spec h (U i) i (x + 1)%Z x Hx')
      as (h1 & -> & Hm1 & Hf1 & Hd1).
    exists h1. split; [done|]. split; [|split].
    + intros b. by rewrite Hm1.
    + intros b j. by rewrite Hf1.
    + intros b j. rewrite Hd1, Hd.
      destruct (decide (b = U i ∧ j = i)) as [[-> ->]|Hne].
      * rewrite decide_True by (split; [lia|done]). by rewrite Hx.
      * destruct (decide (a ≤ j < i ∧ b = U j)) as [[? ->]|Hn2].
        -- rewrite decide_True; [done|]. split; [lia|done].
        -- rewrite decide_False; [done|]. intros [? ->].
           destruct (decide (j = i)) as [->|]; [intuition congruence|].
           apply Hn2. split; [lia|done].
  - exists h. split; [done|]. apply HP.
Qed.

Lemma insert_link_loop (u : skiplist_finger) (n : loc) (nl : nat)
  (U : nat → loc) h0 :
  (∀ i, i < nl → local_get u i = Ok (U i)) →
  (∀ i, i < nl → n ≠ U i) →
  (∀ i, i < nl → is_Some (fwd h0 (U i) i) ∧ is_Some (fwd h0 n i)) →
  ∃ h, for_range 0 nl (insert_link_body u n) h0 = Ok h ∧
    (∀ b, meta h b = meta h0 b) ∧
    (∀ b j, dif h b j = dif h0 b j) ∧
    (∀ b j, fwd h b j =
       if decide (j < nl) then
         if decide (b = n) then fwd h0 (U j) j
         else if decide (b = U j) then Some (Some n)
         else fwd h0 b j
       else fwd h0 b j).
Proof.
  intros Hu Hne Hcells.
  destruct (for_range_inv (λ m h,
    (∀ b, meta h b = meta h0 b) ∧
    (∀ b j, dif h b j = dif h0 b j) ∧
    (∀ b j, fwd h b j =
       if decide (j < m) then
         if decide (b = n) then fwd h0 (U j) j
         else if decide (b = U j) then Some (Some n)
         else fwd h0 b j
       else fwd h0 b j)) 0 nl (insert_link_body u n) h0)
    as (h & Hrun & HP).
  - split; [done|]. split; [done|]. intros b j.
    rewrite decide_False; [done|lia].
  - intros i h [_ Hi] (Hm & Hd & Hf). simpl in Hi.
    destruct (Hcells i Hi) as [[x Hx] [y Hy]].
    unfold insert_link_body. rewrite (Hu i Hi). step.
    assert (fwd h (U i) i = Some x) as Hx'.
    { rewrite Hf. rewrite decide_False; [done|lia]. }
    rewrite (get_forward_fwd _ _ _ _ Hx'). step.
    assert (fwd h n i = Some y) as Hy'.
    { rewrite Hf. rewrite decide_False; [done|lia]. }
    destruct (set_forward_spec h n i x y Hy')
      as (h1 & -> & Hm1 & Hd1 & Hf1). step.
    assert (fwd h1 (U i) i = Some x) as Hx1.
    { rewrite Hf1. rewrite decide_False; [done|]. intros [? _].
      by apply (Hne i Hi). }
    destruct (set_forward_spec h1 (U i) i (Some n) x Hx1)
      as (h2 & -> & Hm2 & Hd2 & Hf2).
    exists h2. split; [done|]. split; [|split].
    + intros b. by rewrite Hm2, Hm1.
    + intros b j. by rewrite Hd2, Hd1.
    + intros b j. rewrite Hf2, Hf1, Hf.
      destruct (decide (j = i)) as [->|Hji].
      * rewrite (decide_True (P := i < S i)) by lia.
        rewrite (decide_False (P := i < i)) by lia.
        destruct (decide (b = U i)) as [->|Hb].
        -- rewrite decide_True by done.
           rewrite (decide_False (P := U i = n)); [done|].
           intros ?. by apply (Hne i Hi).
        -- rewrite (decide_False (P := b = U i ∧ i = i)) by (intuition congruence).
           destruct (decide (b = n)) as [->|Hbn].
           ++ rewrite decide_True by done. by rewrite Hx.
           ++ rewrite decide_False by (intuition congruence). done.
      * rewrite (decide_False (P := b = U i ∧ j = i)) by (intuition congruence).
        rewrite (decide_False (P := b = n ∧ j = i)) by (intuition congruence).
        destruct (decide (j < i)).
        -- rewrite (decide_True (P := j < S i)) by lia. done.
        -- rewrite (decide_False (P := j < S i)) by lia. done.
  - exists h. split; [done|]. apply HP.
Qed.
Lemma grow_loop h0 (u0 : skiplist_finger) (d0 : skiplist_delta) hd len a cnt :
  length u0 = MAX_LEVEL → length d0 = MAX_LEVEL → a + cnt ≤ MAX_LEVEL →
  (∀ i, a ≤ i < a + cnt → is_Some (dif h0 hd i)) →
  ∃ h (u : skiplist_finger) (d : skiplist_delta),
    for_range a cnt (grow_body hd len) (h0, u0, d0) = Ok (h, u, d) ∧
    length u = MAX_LEVEL ∧ length d = MAX_LEVEL ∧
    (∀ i, u !! i =
       if decide (a ≤ i < a + cnt) then Some (Some hd) else u0 !! i) ∧
    (∀ i, d !! i =
       if decide (a ≤ i < a + cnt) then Some (Some 0%Z) else d0 !! i) ∧
    (∀ b, meta h b = meta h0 b) ∧
    (∀ b j, fwd h b j = fwd h0 b j) ∧
    (∀ b j, dif h b j =
       if decide (b = hd ∧ a ≤ j < a + cnt) then Some (len + 1)%Z
       else dif h0 b j).
Proof.
  intros Hul Hdl Hmax Hcells.
  destruct (for_range_inv (λ m '(h, u, d),
    length u = MAX_LEVEL ∧ length d = MAX_LEVEL ∧
    (∀ i, u !! i = if decide (a ≤ i < m) then Some (Some hd) else u0 !! i) ∧
    (∀ i, d !! i = if decide (a ≤ i < m) then Some (Some 0%Z) else d0 !! i) ∧
    (∀ b, meta h b = meta h0 b) ∧
    (∀ b j, fwd h b j = fwd h0 b j) ∧
    (∀ b j, dif h b j =
       if decide (b = hd ∧ a ≤ j < m) then Some (len + 1)%Z
       else dif h0 b j)) a cnt (grow_body hd len) (h0, u0, d0))
    as ([[h u] d] & Hrun & HP).
  - do 2 (split; [done|]). split; [|split; [|split; [|split]]]; try done.
    + intros i. rewrite decide_False; [done|lia].
    + intros i. rewrite decide_False; [done|lia].
    + intros b j. rewrite decide_False; [done|lia].
  - intros i [[h u] d] Hi (Hlu & Hld & Hu & Hd & Hm & Hf & Hdf).
    destruct (Hcells i Hi) as [x Hx].
    unfold grow_body, local_set. rewrite (store_Ok u) by lia. step.
    rewrite (store_Ok d) by lia. step.
    rewrite (local_get_Ok _ _ hd) by (rewrite list_lookup_insert_eq; [done|lia]).
    step.
    assert (dif h hd i = Some x) as Hx'.
    { rewrite Hdf. rewrite decide_False; [done|lia]. }
    destruct (set_diff_spec h hd i (len + 1)%Z x Hx')
      as (h1 & -> & Hm1 & Hf1 & Hd1). step.
    eexists (_, _, _). split; [done|]. rewrite !length_insert.
    do 2 (split; [done|]). split; [|split; [|split; [|split]]].
    + intros j. destruct (decide (j = i)) as [->|Hji].
      * rewrite list_lookup_insert_eq by lia. rewrite decide_True; [done|lia].
      * rewrite list_lookup_insert_ne by done. rewrite Hu.
        destruct (decide (a ≤ j < i)).
        -- rewrite decide_True; [done|lia].
        -- rewrite decide_False; [done|lia].
    + intros j. destruct (decide (j = i)) as [->|Hji].
      * rewrite list_lookup_insert_eq by lia. rewrite decide_True; [done|lia].
      * rewrite list_lookup_insert_ne by done. rewrite Hd.
        destruct (decide (a ≤ j < i)).
        -- rewrite decide_True; [done|lia].
        -- rewrite decide_False; [done|lia].
    + intros b. by rewrite Hm1.
    + intros b j. by rewrite Hf1.
    + intros b j. rewrite Hd1, Hdf.
      destruct (decide (b = hd ∧ j = i)) as [[-> ->]|Hne].
      * rewrite decide_True; [done|]. split; [done|lia].
      * destruct (decide (b = hd ∧ a ≤ j < i)) as [[-> ?]|Hn2].
        -- rewrite decide_True; [done|]. split; [done|lia].
        -- rewrite decide_False; [done|]. intros [-> ?].
           destruct (decide (j = i)) as [->|]; [intuition congruence|].
           apply Hn2. split; [done|lia].
  - exists h, u, d. split; [done|]. apply HP.
Qed.

(** ** Segments of the node list *)

Section segments.
Context {A : Type}.
Implicit Types l : list A.

Lemma drop_seg l q c : q ≤ c → drop (S q) l = seg l q c ++ drop (S c) l.
Proof.
  intros Hq. unfold seg.
  rewrite <-(take_drop (c - q) (drop (S q) l)) at 1.
  rewrite drop_drop. f_equal. f_equal. lia.
Qed.

Lemma length_seg l q c : c < length l → length (seg l q c) = c - q.
Proof. intros. unfold seg. rewrite length_take, length_drop. lia. Qed.

Lemma seg_lookup l q c m x :
  seg l q c !! m = Some x → l !! (S q + m) = Some x ∧ S q + m ≤ c.
Proof.
  unfold seg. intros Hm. apply lookup_take_Some in Hm as [Hm ?].
  rewrite lookup_drop in Hm. split; [done|lia].
Qed.

Lemma seg_lookup_2 l q c j x :
  q < j ≤ c → l !! j = Some x → seg l q c !! (j - S q) = Some x.
Proof.
  intros Hj Hl. unfold seg. rewrite lookup_take_lt by lia.
  rewrite lookup_drop. by replace (S q + (j - S q)) with j by lia.
Qed.

Lemma ins_lookup_le l c x q : q ≤ c → c < length l → ins l c x !! q = l !! q.
Proof.
  intros. unfold ins. rewrite lookup_app_l by (rewrite length_take; lia).
  by rewrite lookup_take_lt by lia.
Qed.

Lemma ins_lookup_new l c x : c < length l → ins l c x !! S c = Some x.
Proof.
  intros. unfold ins. rewrite lookup_app_r by (rewrite length_take; lia).
  rewrite length_take. by replace (S c - S c `min` length l) with 0 by lia.
Qed.

Lemma ins_lookup_gt l c x q :
  c < q → c < length l → ins l c x !! S q = l !! q.
Proof.
  intros. unfold ins. rewrite lookup_app_r by (rewrite length_take; lia).
  rewrite length_take.
  replace (S q - S c `min` length l) with (S (q - S c)) by lia.
  simpl. rewrite lookup_drop. f_equal. lia.
Qed.

Lemma ins_drop_le l c x q :
  q ≤ c → c < length l →
  drop (S q) (ins l c x) = seg l q c ++ x :: drop (S c) l.
Proof.
  intros. unfold ins, seg. rewrite drop_app_le by (rewrite length_take; lia).
  f_equal. rewrite take_drop_commute.
  by replace (S q + (c - q)) with (S c) by lia.
Qed.

Lemma ins_drop_new l c x :
  c < length l → drop (S (S c)) (ins l c x) = drop (S c) l.
Proof.
  intros. unfold ins. rewrite drop_app_ge by (rewrite length_take; lia).
  rewrite length_take. by replace (S (S c) - S c `min` length l) with 1 by lia.
Qed.

Lemma ins_drop_gt l c x q :
  c < q → c < length l → drop (S (S q)) (ins l c x) = drop (S q) l.
Proof.
  intros. unfold ins. rewrite drop_app_ge by (rewrite length_take; lia).
  rewrite length_take.
  replace (S (S q) - S c `min` length l) with (S (q - c)) by lia.
  simpl. rewrite drop_drop. f_equal. lia.
Qed.

Lemma del_lookup_le l c q : q ≤ c → c < length l → del l c !! q = l !! q.
Proof.
  intros. unfold del. rewrite lookup_app_l by (rewrite length_take; lia).
  by rewrite lookup_take_lt by lia.
Qed.

Lemma del_lookup_gt l c q :
  c < q → c < length l → del l c !! q = l !! S q.
Proof.
  intros. unfold del. rewrite lookup_app_r by (rewrite length_take; lia).
  rewrite length_take, lookup_drop. f_equal. lia.
Qed.

Lemma del_drop_le l c q :
  q ≤ c → c < length l →
  drop (S q) (del l c) = seg l q c ++ drop (S (S c)) l.
Proof.
  intros. unfold del, seg. rewrite drop_app_le by (rewrite length_take; lia).
  f_equal. rewrite take_drop_commute.
  by replace (S q + (c - q)) with (S c) by lia.
Qed.

Lemma del_drop_gt l c q :
  c < q → c < length l → drop (S q) (del l c) = drop (S (S q)) l.
Proof.
  intros. unfold del. rewrite drop_app_ge by (rewrite length_take; lia).
  rewrite length_take, drop_drop. f_equal. lia.
Qed.
End segments.

Lemma fpos_tall_from ns i c j e :
  j ≤ c → ns !! j = Some e → tall i e →
  ∃ e', ns !! fpos ns i c = Some e' ∧ tall i e'.
Proof.
  intros Hj Hl Ht. induction c as [|c IH]; simpl.
  - replace j with 0 in Hl by lia. eauto.
  - destruct (ns !! S c) as [x|] eqn:Hx.
    + destruct (decide (tall i x)); [eauto|].
      apply IH. destruct (decide (j = S c)) as [->|]; [|lia]. naive_solver.
    + apply IH. destruct (decide (j = S c)) as [->|]; [|lia]. naive_solver.
Qed.

(** ** The heap after an insertion *)

Lemma cells_insert_fresh h n e :
  h !! n = None →
  (∀ b, meta (<[n := e]> h) b =
     if decide (b = n)
     then Some (e_key e, e_data e, e_height e, length (e_forward e),
                length (e_diff e))
     else meta h b) ∧
  (∀ b j, fwd (<[n := e]> h) b j =
     if decide (b = n) then e_forward e !! j else fwd h b j) ∧
  (∀ b j, dif (<[n := e]> h) b j =
     if decide (b = n) then e_diff e !! j else dif h b j).
Proof.
  intros Hn. unfold meta, fwd, dif. repeat split; intros b; intros;
    (destruct (decide (b = n)) as [->|];
       [by rewrite lookup_insert_eq|by rewrite lookup_insert_ne]).
Qed.

Section node_list.
Context (h : gmap loc SkipList_element_struct) (level : nat) (hd : loc)
  (els : list elem) (c : nat).
Local Abbreviation ns := (nodes hd els).
Hypothesis Hnodes :
  ∀ j e, ns !! j = Some e → node_ok h level e (drop (S j) ns).
Hypothesis Hnd : NoDup (a_loc <$> ns).
Hypothesis Hh : ∀ e, e ∈ els → 1 ≤ a_height e ≤ level.
Hypothesis Hc : c ≤ length els.

Lemma loc_inj j e j' e' :
  ns !! j = Some e → ns !! j' = Some e' → a_loc e = a_loc e' → j = j'.
Proof.
  intros Hj Hj' Ha. apply (NoDup_lookup (a_loc <$> ns) j j' (a_loc e)); [done|..];
    rewrite list_lookup_fmap.
  - by rewrite Hj.
  - by rewrite Hj', Ha.
Qed.

Lemma node_is_Some j e : ns !! j = Some e → is_Some (h !! a_loc e).
Proof.
  intros Hj. destruct (node_deref h level hd els Hnodes j e Hj) as (r & ? & _).
  eauto.
Qed.

Lemma finger_elem i :
  i < MAX_LEVEL → ∃ e, ns !! fpos ns i c = Some e ∧ tall i e.
Proof. intros Hi. by apply (fpos_tall ns i c (header_elem hd)). Qed.

Lemma node_tall_0 j e : ns !! j = Some e → tall 0 e.
Proof.
  destruct j as [|j]; simpl.
  - intros [= <-]. apply MAX_LEVEL_pos.
  - intros Hj. apply list_elem_of_lookup_2, Hh in Hj. unfold tall. lia.
Qed.

Lemma fpos_0 : fpos ns 0 c = c.
Proof.
  destruct (lookup_lt_is_Some_2 ns c) as [e He]; [simpl; lia|].
  apply (fpos_unique ns 0 c c e); [done..| |lia].
  by apply (node_tall_0 c).
Qed.

(** A node of rank at most [c] on level [i] is the finger of that level or
    comes before it. *)
Lemma finger_or_before i q e :
  ns !! q = Some e → q ≤ c → tall i e →
  (q = fpos ns i c ∧ ∀ m x, seg ns q c !! m = Some x → ¬ tall i x) ∨
  (q < fpos ns i c ∧
     ∃ m x, seg ns q c !! m = Some x ∧ tall i x).
Proof.
  intros Hq Hqc Ht. pose proof (fpos_ge ns i c q e Hqc Hq Ht) as Hge.
  pose proof (fpos_le ns i c) as Hle.
  destruct (decide (q = fpos ns i c)) as [Heq|Hne].
  - left. split; [done|]. intros m x Hm.
    apply seg_lookup in Hm as [Hm ?].
    apply (fpos_after ns i c (S q + m)); [lia|done].
  - right. split; [lia|].
    destruct (fpos_tall_from ns i c q e Hqc Hq Ht) as (x & Hx & Htx).
    exists (fpos ns i c - S q), x. split; [|done].
    apply seg_lookup_2; [lia|done].
Qed.
End node_list.

Section insert_assembly.
Context (h2 : gmap loc SkipList_element_struct) (level2 : nat) (hd : loc)
  (els : list elem) (c nl : nat) (n : loc) (k : key_type) (m : data_type)
  (u : skiplist_finger) (d : skiplist_delta).
Local Abbreviation ns := (nodes hd els).
Let new := mkElem n k m nl.
Let U (i : nat) : loc := from_option a_loc n (ns !! fpos ns i c).
Let D (i : nat) : Z := Z.of_nat (fpos ns i c).
Let h3 := <[n := mkElement k m nl (replicate nl None) (replicate nl 0%Z)]> h2.
Hypothesis Hnodes :
  ∀ j e, ns !! j = Some e → node_ok h2 level2 e (drop (S j) ns).
Hypothesis Hnd : NoDup (a_loc <$> ns).
Hypothesis Hh : ∀ e, e ∈ els → 1 ≤ a_height e ≤ level2.
Hypothesis Hc : c ≤ length els.
Hypothesis Hfresh : h2 !! n = None.
Hypothesis Hnl : 1 ≤ nl ≤ level2.
Hypothesis Hlevel2 : level2 ≤ MAX_LEVEL.
Hypothesis Hu :
  ∀ i, i < level2 → local_get u i = Ok (U i) ∧ local_get d i = Ok (D i).

Lemma U_elem i :
  i < MAX_LEVEL → ∃ e, ns !! fpos ns i c = Some e ∧ tall i e ∧ U i = a_loc e.
Proof.
  intros Hi. destruct (finger_elem hd els c i Hi) as (e & He & Ht).
  exists e. unfold U. by rewrite He.
Qed.

Lemma node_ne_n j e : ns !! j = Some e → a_loc e ≠ n.
Proof.
  intros Hj <-. destruct (node_is_Some h2 level2 hd els Hnodes j e Hj) as [r Hr].
  congruence.
Qed.

Lemma U_ne_n i : i < MAX_LEVEL → U i ≠ n.
Proof.
  intros Hi. destruct (U_elem i Hi) as (e & He & _ & ->). by eapply node_ne_n.
Qed.

Lemma U_dif i :
  i < level2 →
  dif h2 (U i) i = Some (dist i (drop (S (fpos ns i c)) ns)).
Proof.
  intros Hi. destruct (U_elem i ltac:(lia)) as (e & He & Ht & ->).
  by apply (Hnodes _ _ He).
Qed.

Lemma U_fwd i :
  i < MAX_LEVEL →
  fwd h2 (U i) i = Some (first_tall i (drop (S (fpos ns i c)) ns)).
Proof.
  intros Hi. destruct (U_elem i ltac:(lia)) as (e & He & Ht & ->).
  by apply (Hnodes _ _ He).
Qed.

Lemma insert_heap :
  ∃ h4 h5 h6,
    for_range 0 nl (insert_diff_body u d n) h3 = Ok h4 ∧
    for_range nl (level2 - nl) (insert_bump_body u) h4 = Ok h5 ∧
    for_range 0 nl (insert_link_body u n) h5 = Ok h6 ∧
    (∀ b, meta h6 b =
       if decide (b = n) then Some (k, m, nl, nl, nl) else meta h2 b) ∧
    (∀ b j, b ≠ n → fwd h6 b j =
       if decide (j < nl ∧ b = U j) then Some (Some n) else fwd h2 b j) ∧
    (∀ j, j < nl → fwd h6 n j = fwd h2 (U j) j) ∧
    (∀ b j, b ≠ n → dif h6 b j =
       if decide (j < nl ∧ b = U j) then Some (D 0 - D j + 1)%Z
       else if decide (nl ≤ j < level2 ∧ b = U j)
            then x ← dif h2 b j; Some (x + 1)%Z
            else dif h2 b j) ∧
    (∀ j, j < nl →
       dif h6 n j = x ← dif h2 (U j) j; Some (x - D 0 + D j)%Z).
Proof.
  destruct (cells_insert_fresh h2 n
    (mkElement k m nl (replicate nl None) (replicate nl 0%Z)) Hfresh)
    as (Hm3 & Hf3 & Hd3). fold h3 in Hm3, Hf3, Hd3. simpl in Hm3, Hf3, Hd3.
  rewrite !length_replicate in Hm3.
  destruct (insert_diff_loop u d n nl U D h3) as (h4 & Hr4 & Hm4 & Hf4 & Hd4).
  { intros i Hi. apply Hu. lia. }
  { lia. }
  { intros i Hi ?. by apply (U_ne_n i); [lia|]. }
  { intros i Hi. rewrite !Hd3. rewrite decide_False by (apply U_ne_n; lia).
    rewrite decide_True by done. rewrite U_dif by lia.
    rewrite lookup_replicate_2 by done. eauto. }
  destruct (insert_bump_loop u U h4 nl (level2 - nl))
    as (h5 & Hr5 & Hm5 & Hf5 & Hd5).
  { intros i Hi. apply Hu. lia. }
  { intros i Hi. rewrite Hd4, Hd3. rewrite decide_False by lia.
    rewrite decide_False by (apply U_ne_n; lia). rewrite U_dif by lia. eauto. }
  destruct (insert_link_loop u n nl U h5) as (h6 & Hr6 & Hm6 & Hd6 & Hf6).
  { intros i Hi. apply Hu. lia. }
  { intros i Hi ?. by apply (U_ne_n i); [lia|]. }
  { intros i Hi. rewrite !Hf5, !Hf4, !Hf3.
    rewrite decide_False by (apply U_ne_n; lia).
    rewrite decide_True by done. rewrite U_fwd by lia.
    rewrite lookup_replicate_2 by done. eauto. }
  exists h4, h5, h6. do 3 (split; [done|]).
  split; [|split; [|split; [|split]]].
  - intros b. by rewrite Hm6, Hm5, Hm4, Hm3.
  - intros b j Hb. rewrite Hf6, !Hf5, !Hf4, !Hf3.
    rewrite !(decide_False (P := b = n)) by done.
    destruct (decide (j < nl)) as [Hj|Hj].
    + destruct (decide (b = U j)) as [->|Hbu].
      * rewrite decide_True; [done|]. by split.
      * rewrite decide_False; [done|]. by intros [_ ?].
    + rewrite decide_False; [done|]. by intros [? _].
  - intros j Hj. rewrite Hf6, !Hf5, !Hf4, !Hf3.
    rewrite decide_True by done. rewrite decide_True by done.
    rewrite decide_False; [done|]. apply U_ne_n. lia.
  - intros b j Hb. rewrite Hd6, !Hd5, !Hd4, !Hd3.
    rewrite !(decide_False (P := b = n)) by done.
    destruct (decide (j < nl)) as [Hj|Hj].
    + rewrite (decide_False (P := nl ≤ j < nl + (level2 - nl) ∧ b = U j))
        by lia.
      destruct (decide (b = U j)) as [->|Hbu].
      * rewrite decide_True; [done|]. by split.
      * rewrite decide_False by (by intros [_ ?]).
        rewrite decide_False; [done|]. by intros [_ ?].
    + rewrite (decide_False (P := j < nl ∧ b = U j)) by lia.
      destruct (decide (nl ≤ j < level2 ∧ b = U j)) as [[? ->]|Hn2].
      * rewrite decide_True; [done|]. split; [lia|done].
      * rewrite decide_False; [done|]. intros [? ->]. apply Hn2.
        split; [lia|done].
  - intros j Hj. rewrite Hd6, !Hd5, !Hd4, !Hd3.
    rewrite (decide_False (P := nl ≤ j < nl + (level2 - nl) ∧ n = U j))
      by lia.
    rewrite decide_True by done. rewrite decide_True by done.
    rewrite decide_False; [done|]. apply U_ne_n. lia.
Qed.

Lemma U_at i q e :
  ns !! q = Some e → i < MAX_LEVEL → a_loc e = U i → q = fpos ns i c.
Proof.
  intros Hq Hi Ha. destruct (U_elem i Hi) as (e' & He' & _ & HU).
  apply (loc_inj hd els Hnd q e _ e'); [done..|]. by rewrite Ha, HU.
Qed.

Lemma U_finger i e : ns !! fpos ns i c = Some e → U i = a_loc e.
Proof. intros He. unfold U. by rewrite He. Qed.

Lemma length_ns : length ns = S (length els).
Proof. done. Qed.

Lemma finger_span i X :
  i < MAX_LEVEL →
  first_tall i (seg ns (fpos ns i c) c ++ X) = first_tall i X ∧
  dist i (seg ns (fpos ns i c) c ++ X)
  = (Z.of_nat c - Z.of_nat (fpos ns i c) + dist i X)%Z.
Proof.
  intros Hi. pose proof (fpos_le ns i c).
  destruct (first_tall_app_none i (seg ns (fpos ns i c) c) X) as [-> ->].
  - intros m0 x Hm. apply seg_lookup in Hm as [Hm ?].
    apply (fpos_after ns i c (S (fpos ns i c) + m0)); [lia|done].
  - split; [done|]. rewrite length_seg by (rewrite length_ns; lia). lia.
Qed.

Lemma insert_nodes_ok h6 :
  (∀ b, meta h6 b =
     if decide (b = n) then Some (k, m, nl, nl, nl) else meta h2 b) →
  (∀ b j, b ≠ n → fwd h6 b j =
     if decide (j < nl ∧ b = U j) then Some (Some n) else fwd h2 b j) →
  (∀ j, j < nl → fwd h6 n j = fwd h2 (U j) j) →
  (∀ b j, b ≠ n → dif h6 b j =
     if decide (j < nl ∧ b = U j) then Some (D 0 - D j + 1)%Z
     else if decide (nl ≤ j < level2 ∧ b = U j)
          then x ← dif h2 b j; Some (x + 1)%Z
          else dif h2 b j) →
  (∀ j, j < nl →
     dif h6 n j = x ← dif h2 (U j) j; Some (x - D 0 + D j)%Z) →
  ∀ j e, ins ns c new !! j = Some e →
    node_ok h6 level2 e (drop (S j) (ins ns c new)).
Proof.
  intros Hm6 Hf6 Hfn Hd6 Hdn j e Hj.
  assert (c < length ns) as Hcl by (rewrite length_ns; lia).
  assert (D 0 = Z.of_nat c) as HD0.
  { unfold D. f_equal. apply (fpos_0 level2 hd els c Hh Hc). }
  assert (¬ tall nl new) as Hnew_nl by (unfold tall; simpl; lia).
  destruct (decide (j ≤ c)) as [Hjc|Hjc].
  - (* a node before the new one *)
    rewrite ins_lookup_le in Hj by done. rewrite ins_drop_le by done.
    destruct (Hnodes j e Hj) as (Hmeta & Hfwd & Hdif).
    rewrite (drop_seg ns j c Hjc) in Hfwd, Hdif.
    pose proof (node_ne_n j e Hj) as Hne.
    split; [|split].
    + rewrite Hm6. by rewrite decide_False.
    + intros i Hi. rewrite Hf6 by done. rewrite (Hfwd i Hi).
      destruct (finger_or_before hd els c Hc i j e Hj Hjc Hi)
        as [[Heq Hnone]|[Hlt (m0 & x & Hm0 & Hx)]].
      * destruct (first_tall_app_none i (seg ns j c) (drop (S c) ns) Hnone)
          as [-> _].
        destruct (first_tall_app_none i (seg ns j c) (new :: drop (S c) ns)
          Hnone) as [-> _].
        rewrite Heq in Hj. rewrite (U_finger i e Hj). cbn [first_tall].
        destruct (decide (i < nl)).
        -- rewrite decide_True by done. by rewrite decide_True.
        -- rewrite decide_False by lia. rewrite decide_False; [done|].
           unfold tall. simpl. lia.
      * destruct (first_tall_app_some i (seg ns j c) (drop (S c) ns) m0 x
          Hm0 Hx) as [-> _].
        destruct (first_tall_app_some i (seg ns j c) (new :: drop (S c) ns)
          m0 x Hm0 Hx) as [-> _].
        rewrite decide_False; [done|]. intros [? Ha].
        apply (U_at i j e) in Ha; [lia|done|lia].
    + intros i Hi Hil. rewrite Hd6 by done. rewrite (Hdif i Hi Hil).
      destruct (finger_or_before hd els c Hc i j e Hj Hjc Hi)
        as [[Heq Hnone]|[Hlt (m0 & x & Hm0 & Hx)]].
      * destruct (first_tall_app_none i (seg ns j c) (drop (S c) ns) Hnone)
          as [_ ->].
        destruct (first_tall_app_none i (seg ns j c) (new :: drop (S c) ns)
          Hnone) as [_ ->].
        rewrite length_seg by done.
        pose proof Hj as Hj'. rewrite Heq in Hj'.
        rewrite (U_finger i e Hj'). cbn [dist].
        destruct (decide (i < nl)).
        -- rewrite decide_True by done. rewrite decide_True by done.
           f_equal. rewrite HD0. unfold D. rewrite <-Heq. lia.
        -- rewrite decide_False by lia. rewrite decide_True by (split; [lia|done]).
           rewrite decide_False by (unfold tall; simpl; lia).
           simpl. f_equal. lia.
      * destruct (first_tall_app_some i (seg ns j c) (drop (S c) ns) m0 x
          Hm0 Hx) as [_ ->].
        destruct (first_tall_app_some i (seg ns j c) (new :: drop (S c) ns)
          m0 x Hm0 Hx) as [_ ->].
        rewrite decide_False.
        2:{ intros [? Ha]. apply (U_at i j e) in Ha; [lia|done|lia]. }
        rewrite decide_False; [done|].
        intros [? Ha]. apply (U_at i j e) in Ha; [lia|done|lia].
  - destruct j as [|q]; [lia|]. destruct (decide (q = c)) as [->|Hqc].
    + (* the new node *)
      rewrite ins_lookup_new in Hj by done. injection Hj as <-.
      rewrite ins_drop_new by done.
      unfold node_ok, new; cbn [a_loc a_key a_data a_height].
      split; [|split].
      * rewrite Hm6. by rewrite decide_True.
      * intros i Hi. rewrite Hfn by done. rewrite U_fwd by lia.
        pose proof (fpos_le ns i c).
        rewrite (drop_seg ns (fpos ns i c) c) by done.
        by destruct (finger_span i (drop (S c) ns) ltac:(lia)) as [-> _].
      * intros i Hi _. rewrite Hdn by done. rewrite U_dif by lia.
        pose proof (fpos_le ns i c).
        rewrite (drop_seg ns (fpos ns i c) c) by done.
        destruct (finger_span i (drop (S c) ns) ltac:(lia)) as [_ ->].
        simpl. f_equal. rewrite HD0. unfold D. lia.
    + (* a node after the new one *)
      rewrite ins_lookup_gt in Hj by lia. rewrite ins_drop_gt by lia.
      destruct (Hnodes q e Hj) as (Hmeta & Hfwd & Hdif).
      pose proof (node_ne_n q e Hj) as Hne.
      assert (∀ i, i < level2 → a_loc e ≠ U i) as HneU.
      { intros i Hi Ha. apply (U_at i q e) in Ha; [|done|lia].
        pose proof (fpos_le ns i c). lia. }
      split; [|split].
      * rewrite Hm6. by rewrite decide_False.
      * intros i Hi. rewrite Hf6 by done. rewrite decide_False; [by apply Hfwd|].
        intros [? Ha]. apply (HneU i); [lia|done].
      * intros i Hi Hil. rewrite Hd6 by done.
        rewrite decide_False by (intros [? Ha]; by apply (HneU i)).
        rewrite decide_False by (intros [? Ha]; by apply (HneU i)).
        by apply Hdif.
Qed.
End insert_assembly.

(** ** Insertion keeps the container well formed *)

Ltac fields :=
  unfold with_heap;
  cbn [Member_Compare sl_header sl_finger sl_distance sl_level sl_length
       heap brk Current_Random_Level released].

Lemma meta_None h a : meta h a = None ↔ h !! a = None.
Proof. unfold meta. destruct (h !! a); simpl; split; done. Qed.

Lemma no_tall_dist i (l : list elem) :
  (∀ e, e ∈ l → ¬ tall i e) →
  first_tall i l = None ∧ dist i l = (Z.of_nat (length l) + 1)%Z.
Proof.
  intros Hl. destruct (first_tall_app_none i l []) as [H1 H2].
  { intros m e Hm. apply Hl. by eapply list_elem_of_lookup_2. }
  rewrite app_nil_r in H1, H2. by rewrite H1, H2.
Qed.

Lemma fpos_above p sl els i c :
  Inv p sl els → sl_level sl ≤ i → i < MAX_LEVEL →
  fpos (nodes (sl_header sl) els) i c = 0.
Proof.
  intros HI Hi Hmax. induction c as [|c IH]; simpl; [done|].
  destruct (els !! c) as [e|] eqn:He; [|done].
  rewrite decide_False; [done|]. apply list_elem_of_lookup_2 in He.
  apply (inv_heights _ _ _ HI) in He. unfold tall. lia.
Qed.

Lemma insert_grow_spec p sl els c nl (u : skiplist_finger)
  (d : skiplist_delta) :
  Inv p sl els → c ≤ length els → 1 ≤ nl ≤ MAX_LEVEL →
  length u = MAX_LEVEL → length d = MAX_LEVEL →
  (∀ i, i < sl_level sl →
     ∃ e, nodes (sl_header sl) els !! fpos (nodes (sl_header sl) els) i c
          = Some e ∧ tall i e ∧
       u !! i = Some (Some (a_loc e)) ∧
       d !! i = Some (Some (Z.of_nat (fpos (nodes (sl_header sl) els) i c)))) →
  ∃ h2 (u2 : skiplist_finger) (d2 : skiplist_delta) level2,
    (if decide (sl_level sl < nl) then
       '(h, u', d') ←
         for_range (sl_level sl) (nl - sl_level sl)
           (grow_body (sl_header sl) (sl_length sl)) (heap p, u, d);
       Ok (h, u', d', nl)
     else Ok (heap p, u, d, sl_level sl)) = Ok (h2, u2, d2, level2) ∧
    level2 = sl_level sl `max` nl ∧
    (∀ b, meta h2 b = meta (heap p) b) ∧
    (∀ j e, nodes (sl_header sl) els !! j = Some e →
       node_ok h2 level2 e (drop (S j) (nodes (sl_header sl) els))) ∧
    (∀ i, i < level2 →
       local_get u2 i
       = Ok (from_option a_loc (brk p)
               (nodes (sl_header sl) els
                  !! fpos (nodes (sl_header sl) els) i c)) ∧
       local_get d2 i
       = Ok (Z.of_nat (fpos (nodes (sl_header sl) els) i c))).
Proof.
  intros HI Hc Hnl Hul Hdl Hud.
  pose proof (inv_level _ _ _ HI) as Hlevel.
  assert (∀ i, i < sl_level sl →
    local_get u i
    = Ok (from_option a_loc (brk p)
            (nodes (sl_header sl) els !! fpos (nodes (sl_header sl) els) i c)) ∧
    local_get d i = Ok (Z.of_nat (fpos (nodes (sl_header sl) els) i c)))
    as Hud'.
  { intros i Hi. destruct (Hud i Hi) as (e & -> & _ & Hu & Hd).
    split; by apply local_get_Ok. }
  case_decide as Hgrow.
  - destruct (grow_loop (heap p) u d (sl_header sl) (sl_length sl) (sl_level sl)
      (nl - sl_level sl)) as (h2 & u2 & d2 & -> & Hul2 & Hdl2 & Hu2 & Hd2 & Hm2
      & Hf2 & Hdf2); [done|done|lia| |].
    { intros i Hi.
      destruct (inv_nodes _ _ _ HI 0 (header_elem (sl_header sl)) eq_refl)
        as (Hmeta & _). simpl in Hmeta.
      apply meta_deref in Hmeta as (r & Hr & _ & _ & _ & _ & _ & Hlen).
      unfold dif. rewrite Hr. simpl. apply lookup_lt_is_Some. lia. }
    step. exists h2, u2, d2, nl. split; [done|]. split; [lia|].
    split; [done|]. split.
    + intros j e Hj. destruct (inv_nodes _ _ _ HI j e Hj) as (Hmeta & Hfwd & Hdif).
      split; [by rewrite Hm2|]. split.
      * intros i Hi. rewrite Hf2. by apply Hfwd.
      * intros i Hi Hil. rewrite Hdf2.
        destruct (decide (i < sl_level sl)) as [Hlt|Hge].
        -- rewrite decide_False by lia. by apply Hdif.
        -- destruct j as [|j].
           ++ injection Hj as <-. simpl.
              rewrite decide_True by (split; [done|lia]). f_equal.
              rewrite drop_0.
              destruct (no_tall_dist i els) as [_ ->].
              ** intros e He. apply (inv_heights _ _ _ HI) in He.
                 unfold tall. lia.
              ** rewrite (inv_length _ _ _ HI). lia.
           ++ rewrite nodes_lookup_S in Hj. apply list_elem_of_lookup_2 in Hj.
              apply (inv_heights _ _ _ HI) in Hj. lia.
    + intros i Hi. destruct (decide (i < sl_level sl)) as [Hlt|Hge].
      * destruct (Hud' i Hlt) as [Hgu Hgd]. unfold local_get in *.
        rewrite Hu2, Hd2. rewrite !decide_False by lia. done.
      * unfold local_get. rewrite Hu2, Hd2.
        rewrite !decide_True by lia.
        rewrite (fpos_above p sl els i c HI) by lia. done.
  - exists (heap p), u, d, (sl_level sl). split; [done|]. split; [lia|].
    split; [done|]. split; [apply (inv_nodes _ _ _ HI)|]. done.
Qed.

Lemma insert_heap_ok h2 level2 hd els c nl n k m u d :
  (∀ j e, nodes hd els !! j = Some e →
     node_ok h2 level2 e (drop (S j) (nodes hd els))) →
  NoDup (a_loc <$> nodes hd els) →
  (∀ e, e ∈ els → 1 ≤ a_height e ≤ level2) →
  c ≤ length els → h2 !! n = None → 1 ≤ nl ≤ level2 → level2 ≤ MAX_LEVEL →
  (∀ i, i < level2 →
     local_get u i
     = Ok (from_option a_loc n (nodes hd els !! fpos (nodes hd els) i c)) ∧
     local_get d i = Ok (Z.of_nat (fpos (nodes hd els) i c))) →
  ∃ h4 h5 h6,
    for_range 0 nl (insert_diff_body u d n)
      (<[n := mkElement k m nl (replicate nl None) (replicate nl 0%Z)]> h2)
    = Ok h4 ∧
    for_range nl (level2 - nl) (insert_bump_body u) h4 = Ok h5 ∧
    for_range 0 nl (insert_link_body u n) h5 = Ok h6 ∧
    (∀ b, meta h6 b =
       if decide (b = n) then Some (k, m, nl, nl, nl) else meta h2 b) ∧
    (∀ j e, ins (nodes hd els) c (mkElem n k m nl) !! j = Some e →
       node_ok h6 level2 e (drop (S j) (ins (nodes hd els) c (mkElem n k m nl)))).
Proof.
  intros Hnodes Hnd Hh Hc Hfresh Hnl Hl2 Hu.
  destruct (insert_heap h2 level2 hd els c nl n k m u d Hnodes Hc Hfresh Hnl
    Hl2 Hu) as (h4 & h5 & h6 & H4 & H5 & H6 & Hm6 & Hf6 & Hfn & Hd6 & Hdn).
  exists h4, h5, h6. do 4 (split; [done|]).
  by apply (insert_nodes_ok h2 level2 hd els c nl n k m u d).
Qed.

Lemma nodes_ins hd els c x :
  nodes hd (take c els ++ x :: drop c els) = ins (nodes hd els) c x.
Proof. done. Qed.

Lemma comparator_flip cmp a b :
  comparator_ok cmp → (cmp a b > 0)%Z → (cmp b a ≤ 0)%Z.
Proof. intros [Hsym _] H. apply Hsym in H. lia. Qed.

Lemma sorted_insert cmp k els x :
  comparator_ok cmp → StronglySorted (key_le cmp) els → a_key x = k →
  StronglySorted (key_le cmp)
    (take (key_rank cmp k els) els ++ x :: drop (key_rank cmp k els) els).
Proof.
  intros Hcmp Hs Hk. set (c := key_rank cmp k els).
  rewrite <-(take_drop c els) in Hs.
  apply StronglySorted_app in Hs as (Hcross & Hs1 & Hs2).
  apply StronglySorted_app. split; [|split; [done|]].
  - intros x1 x2 Hx1 Hx2. apply elem_of_cons in Hx2 as [->|Hx2].
    + apply list_elem_of_lookup in Hx1 as [j Hj].
      apply lookup_take_Some in Hj as [Hj ?].
      unfold key_le. rewrite Hk. apply comparator_flip; [done|].
      by apply (key_rank_lt cmp k els j).
    + by apply Hcross.
  - apply StronglySorted_cons. split; [|done].
    apply Forall_forall. intros y Hy.
    apply list_elem_of_lookup in Hy as [j Hj]. rewrite lookup_drop in Hj.
    unfold key_le. rewrite Hk.
    apply (key_rank_ge cmp k els (c + j)); [done| |lia|done].
    rewrite <-(take_drop c els). by apply StronglySorted_app.
Qed.

Lemma SkipList_Insert_spec fuel p sl els k m :
  Inv p sl els → (sl_length sl < Z.of_nat fuel)%Z →
  ∃ p' sl',
    SkipList_Insert fuel p sl k m = Ok (p', sl') ∧
    Inv p' sl'
      (take (key_rank (Member_Compare sl) k els) els
       ++ mkElem (brk p) k m (Choose_Random_Level (Current_Random_Level p)).1
       :: drop (key_rank (Member_Compare sl) k els) els) ∧
    Member_Compare sl' = Member_Compare sl ∧
    sl_header sl' = sl_header sl ∧
    Current_Random_Level p' = (Current_Random_Level p + 1)%Z ∧
    brk p' = Pos.succ (brk p) ∧ released p' = released p.
Proof.
  intros HI Hfuel.
  destruct (Search_by_Key_spec fuel p sl els k HI Hfuel)
    as (sl1 & u & d & Hsearch & HI1 & Hcmp1 & Hhd1 & Hlv1 & Hln1 & Hul & Hdl
        & Hud & Hcache).
  set (c := key_rank (Member_Compare sl) k els) in *.
  pose proof (key_rank_le (Member_Compare sl) k els) as Hc. fold c in Hc.
  pose proof (inv_level _ _ _ HI) as Hlevel.
  unfold SkipList_Insert. rewrite Hsearch. step.
  destruct (Hud 0 ltac:(lia)) as (e0 & He0 & Ht0 & Hu0 & _).
  rewrite (local_get_Ok _ _ _ Hu0). step.
  destruct (inv_nodes _ _ _ HI _ _ He0) as (_ & Hfwd0 & _).
  rewrite (get_forward_fwd _ _ _ _ (Hfwd0 0 Ht0)). step.
  destruct (Choose_Random_Level_range (Current_Random_Level p)) as [Hnl Hcnt].
  destruct (Choose_Random_Level (Current_Random_Level p)) as [nl cnt] eqn:Hch.
  simpl in Hnl, Hcnt. subst cnt. cbn [fst]. cbn beta iota.
  destruct (insert_grow_spec p sl1 els c nl u d HI1 Hc Hnl Hul Hdl)
    as (h2 & u2 & d2 & level2 & -> & Hl2 & Hm2 & Hnodes2 & Hud2).
  { intros i Hi. rewrite Hhd1. rewrite Hlv1 in Hi.
    destruct (Hud i Hi) as (e & ? & ? & ? & ?). by exists e. }
  step. unfold MakeNode. cbn [heap brk Current_Random_Level released].
  assert (h2 !! brk p = None) as Hfresh.
  { apply meta_None. rewrite Hm2. apply meta_None.
    apply (inv_frontier _ _ _ HI). lia. }
  assert (∀ e, e ∈ els → 1 ≤ a_height e ≤ level2) as Hh2.
  { intros e He. apply (inv_heights _ _ _ HI1) in He. lia. }
  destruct (insert_heap_ok h2 level2 (sl_header sl1) els c nl (brk p) k m u2 d2
    Hnodes2 (inv_nodup _ _ _ HI1) Hh2 Hc Hfresh ltac:(lia) ltac:(lia) Hud2)
    as (h4 & h5 & h6 & -> & H5 & H6 & Hm6 & Hnodes6).
  step. rewrite H5. step. rewrite H6. step.
  eexists _, _. split; [done|]. fields.
  split; [|by rewrite Hcmp1, Hhd1].
  constructor; fields.
  - rewrite Hcmp1. apply (inv_cmp _ _ _ HI).
  - lia.
  - rewrite Hln1, (inv_length _ _ _ HI). rewrite length_app. cbn [length].
    rewrite length_take, length_drop. lia.
  - rewrite nodes_ins. unfold ins. rewrite fmap_app, fmap_cons.
    rewrite <-Permutation_middle. apply NoDup_cons. split.
    + rewrite <-fmap_app, take_drop. intros Hin.
      apply list_elem_of_fmap in Hin as (e & Ha & He).
      apply list_elem_of_lookup in He as [j Hj].
      destruct (node_is_Some h2 level2 (sl_header sl1) els Hnodes2 j e Hj)
        as [r Hr]. simpl in Ha. congruence.
    + rewrite <-fmap_app, take_drop. apply (inv_nodup _ _ _ HI1).
  - rewrite nodes_ins. apply Hnodes6.
  - intros e He. apply elem_of_app in He as [He|He].
    + apply subseteq_take in He. apply Hh2 in He. lia.
    + apply elem_of_cons in He as [->|He]; [simpl; lia|].
      apply subseteq_drop in He. apply Hh2 in He. lia.
  - rewrite Hcmp1. apply sorted_insert; [apply (inv_cmp _ _ _ HI)| |done].
    apply (inv_sorted _ _ _ HI).
  - unfold frontier_ok. fields. intros a Ha. apply meta_None. rewrite Hm6.
    rewrite decide_False by (intros ->; lia). rewrite Hm2. apply meta_None.
    apply (inv_frontier _ _ _ HI). lia.
  - apply (inv_finger_len _ _ _ HI1).
  - apply (inv_distance_len _ _ _ HI1).
  - unfold cache_ok. fields. intros i f Hf.
    destruct (Hcache i f Hf) as [->|(j & e & Hjc & Hj & Ha & Ht & Hd)].
    + left. by rewrite Hhd1.
    + right. exists j, e. rewrite nodes_ins, Hhd1.
      rewrite ins_lookup_le by (simpl; lia). done.
Qed.

(** ** The loop of the deletion, cell by cell *)

Ltac dec_absurd :=
  exfalso; try lia; try congruence;
  match goal with
  | H : ¬ _ |- False =>
    solve [apply H; repeat split; first [done|lia|congruence]]
  end.

Lemma delete_loop (u : skiplist_finger) (n : loc) (level : nat)
  (U : nat → loc) h0 :
  (∀ i, i < level → local_get u i = Ok (U i)) →
  (∀ i, i < level → n ≠ U i) →
  (∀ i, i < level →
     is_Some (dif h0 (U i) i) ∧
     ∃ x, fwd h0 (U i) i = Some x ∧
       (x = Some n → is_Some (dif h0 n i) ∧ is_Some (fwd h0 n i))) →
  ∃ h, for_range 0 level (delete_body u n) h0 = Ok h ∧
    (∀ b, meta h b = meta h0 b) ∧
    (∀ b j, fwd h b j =
       if decide (j < level ∧ b = U j ∧ fwd h0 b j = Some (Some n))
       then fwd h0 n j else fwd h0 b j) ∧
    (∀ b j, dif h b j =
       if decide (j < level ∧ b = U j) then
         if decide (fwd h0 b j = Some (Some n))
         then y ← dif h0 b j; z ← dif h0 n j; Some (y + (z - 1))%Z
         else y ← dif h0 b j; Some (y - 1)%Z
       else dif h0 b j).
Proof.
  intros Hu Hne Hcells.
  destruct (for_range_inv (λ m h,
    (∀ b, meta h b = meta h0 b) ∧
    (∀ b j, fwd h b j =
       if decide (j < m ∧ b = U j ∧ fwd h0 b j = Some (Some n))
       then fwd h0 n j else fwd h0 b j) ∧
    (∀ b j, dif h b j =
       if decide (j < m ∧ b = U j) then
         if decide (fwd h0 b j = Some (Some n))
         then y ← dif h0 b j; z ← dif h0 n j; Some (y + (z - 1))%Z
         else y ← dif h0 b j; Some (y - 1)%Z
       else dif h0 b j)) 0 level (delete_body u n) h0)
    as (h & Hrun & HP).
  - split; [done|]. split; intros b j; (rewrite decide_False; [done|lia]).
  - intros i h [_ Hi] (Hm & Hf & Hd). simpl in Hi.
    destruct (Hcells i Hi) as [[y Hy] (x & Hx & Hn)].
    assert (fwd h (U i) i = Some x) as Hx'.
    { rewrite Hf. rewrite decide_False; [done|lia]. }
    assert (dif h (U i) i = Some y) as Hy'.
    { rewrite Hd. rewrite decide_False; [done|lia]. }
    assert (∀ j, fwd h n j = fwd h0 n j) as Hfn.
    { intros j. rewrite Hf. rewrite decide_False; [done|].
      intros (? & ? & _). by apply (Hne j); [lia|]. }
    assert (∀ j, dif h n j = dif h0 n j) as Hdn.
    { intros j. rewrite Hd. rewrite decide_False; [done|].
      intros (? & ?). by apply (Hne j); [lia|]. }
    unfold delete_body. rewrite (Hu i Hi). step.
    rewrite (get_forward_fwd _ _ _ _ Hx'). step.
    case_decide as Hxn.
    + rewrite (get_diff_dif _ _ _ _ Hy'). step.
      destruct (set_diff_spec h (U i) i (y - 1)%Z y Hy')
        as (h1 & -> & Hm1 & Hf1 & Hd1).
      exists h1. split; [done|]. split; [|split].
      * intros b. by rewrite Hm1.
      * intros b j. rewrite Hf1, Hf.
        destruct (decide (j = i)) as [->|Hji]; repeat case_decide; try done;
          destruct_and?; subst; try done; dec_absurd.
      * intros b j. rewrite Hd1, Hd.
        destruct (decide (j = i)) as [->|Hji]; repeat case_decide;
          destruct_and?; subst; rewrite ?Hy; try done; dec_absurd.
    + subst x.
      destruct (Hn eq_refl) as [[z Hz] [w Hw]].
      rewrite (get_diff_dif _ _ _ _ Hy'). step.
      rewrite (get_diff_dif h n i z) by (by rewrite Hdn). step.
      destruct (set_diff_spec h (U i) i (y + (z - 1))%Z y Hy')
        as (h1 & -> & Hm1 & Hf1 & Hd1). step.
      assert (fwd h1 n i = Some w) as Hw1 by (by rewrite Hf1, Hfn).
      rewrite (get_forward_fwd _ _ _ _ Hw1). step.
      assert (fwd h1 (U i) i = Some (Some n)) as Hx1 by (by rewrite Hf1).
      destruct (set_forward_spec h1 (U i) i w (Some n) Hx1)
        as (h2 & -> & Hm2 & Hd2 & Hf2).
      exists h2. split; [done|]. split; [|split].
      * intros b. by rewrite Hm2, Hm1.
      * intros b j. rewrite Hf2, Hf1, Hf.
        destruct (decide (j = i)) as [->|Hji]; repeat case_decide;
          destruct_and?; subst; try done; dec_absurd.
      * intros b j. rewrite Hd2, Hd1, Hd.
        destruct (decide (j = i)) as [->|Hji]; repeat case_decide;
          destruct_and?; subst; rewrite ?Hy, ?Hz; try done; dec_absurd.
  - exists h. split; [done|]. apply HP.
Qed.

(** ** The heap after a deletion *)

Lemma cells_delete h n :
  (∀ b, meta (delete n h) b = if decide (b = n) then None else meta h b) ∧
  (∀ b j, fwd (delete n h) b j = if decide (b = n) then None else fwd h b j) ∧
  (∀ b j, dif (delete n h) b j = if decide (b = n) then None else dif h b j).
Proof.
  unfold meta, fwd, dif. repeat split; intros b; intros;
    (destruct (decide (b = n)) as [->|];
       [by rewrite lookup_delete_eq|by rewrite lookup_delete_ne]).
Qed.

Section delete_assembly.
Context (h0 : gmap loc SkipList_element_struct) (level : nat) (hd : loc)
  (els : list elem) (c : nat) (en : elem) (u : skiplist_finger).
Local Abbreviation ns := (nodes hd els).
Local Abbreviation n := (a_loc en).
Let U (i : nat) : loc := from_option a_loc n (ns !! fpos ns i c).
Hypothesis Hnodes :
  ∀ j e, ns !! j = Some e → node_ok h0 level e (drop (S j) ns).
Hypothesis Hnd : NoDup (a_loc <$> ns).
Hypothesis Hh : ∀ e, e ∈ els → 1 ≤ a_height e ≤ level.
Hypothesis Hen : ns !! S c = Some en.
Hypothesis Hlevel : level ≤ MAX_LEVEL.
Hypothesis Hu : ∀ i, i < level → local_get u i = Ok (U i).

Lemma del_c_lt : c < length els.
Proof. rewrite nodes_lookup_S in Hen. by apply lookup_lt_Some in Hen. Qed.

Lemma del_U_elem i :
  i < MAX_LEVEL → ∃ e, ns !! fpos ns i c = Some e ∧ tall i e ∧ U i = a_loc e.
Proof.
  intros Hi. destruct (finger_elem hd els c i Hi) as (e & He & Ht).
  exists e. unfold U. by rewrite He.
Qed.

Lemma del_U_at i q e :
  ns !! q = Some e → i < MAX_LEVEL → a_loc e = U i → q = fpos ns i c.
Proof.
  intros Hq Hi Ha. destruct (del_U_elem i Hi) as (e' & He' & _ & HU).
  apply (loc_inj hd els Hnd q e _ e'); [done..|]. by rewrite Ha, HU.
Qed.

Lemma del_U_ne i : i < MAX_LEVEL → n ≠ U i.
Proof.
  intros Hi Ha. apply (del_U_at i (S c) en) in Ha; [|done..].
  pose proof (fpos_le ns i c). lia.
Qed.

Lemma drop_en : drop (S c) ns = en :: drop (S (S c)) ns.
Proof. by apply drop_S. Qed.

Lemma rest_ne i : first_tall i (drop (S (S c)) ns) ≠ Some n.
Proof.
  intros Hft. apply first_tall_Some in Hft as (m0 & e & Hm & Ha & _).
  rewrite lookup_drop in Hm.
  pose proof (loc_inj hd els Hnd _ _ _ _ Hm Hen Ha). lia.
Qed.

Lemma del_finger_span i X :
  first_tall i (seg ns (fpos ns i c) c ++ X) = first_tall i X ∧
  dist i (seg ns (fpos ns i c) c ++ X)
  = (Z.of_nat c - Z.of_nat (fpos ns i c) + dist i X)%Z.
Proof.
  pose proof (fpos_le ns i c). pose proof del_c_lt.
  destruct (first_tall_app_none i (seg ns (fpos ns i c) c) X) as [-> ->].
  - intros m0 x Hm. apply seg_lookup in Hm as [Hm ?].
    apply (fpos_after ns i c (S (fpos ns i c) + m0)); [lia|done].
  - split; [done|]. rewrite length_seg by (simpl; lia). lia.
Qed.

Lemma del_U_fwd i :
  i < MAX_LEVEL →
  fwd h0 (U i) i
  = Some (if decide (tall i en) then Some n
          else first_tall i (drop (S (S c)) ns)).
Proof.
  intros Hi. destruct (del_U_elem i Hi) as (e & He & Ht & ->).
  destruct (Hnodes _ _ He) as (_ & Hfwd & _). rewrite (Hfwd i Ht).
  pose proof (fpos_le ns i c).
  rewrite (drop_seg ns (fpos ns i c) c) by done.
  destruct (del_finger_span i (drop (S c) ns)) as [-> _].
  by rewrite drop_en.
Qed.

Lemma del_U_dif i :
  i < level →
  dif h0 (U i) i
  = Some (Z.of_nat c - Z.of_nat (fpos ns i c)
          + (if decide (tall i en) then 1
             else 1 + dist i (drop (S (S c)) ns)))%Z.
Proof.
  intros Hi. destruct (del_U_elem i ltac:(lia)) as (e & He & Ht & ->).
  destruct (Hnodes _ _ He) as (_ & _ & Hdif). rewrite (Hdif i Ht Hi).
  pose proof (fpos_le ns i c).
  rewrite (drop_seg ns (fpos ns i c) c) by done.
  destruct (del_finger_span i (drop (S c) ns)) as [_ ->].
  by rewrite drop_en.
Qed.

Lemma del_U_test i :
  i < MAX_LEVEL → fwd h0 (U i) i = Some (Some n) ↔ tall i en.
Proof.
  intros Hi. rewrite del_U_fwd by done. case_decide; split; try done.
  intros [= Hft]. by apply rest_ne in Hft.
Qed.

Lemma delete_heap :
  ∃ h1, for_range 0 level (delete_body u n) h0 = Ok h1 ∧
    (∀ b, meta h1 b = meta h0 b) ∧
    ∀ j e, del ns c !! j = Some e →
      node_ok (delete n h1) level e (drop (S j) (del ns c)).
Proof.
  pose proof del_c_lt as Hc.
  destruct (Hnodes _ _ Hen) as (Hmn & Hfn & Hdn).
  destruct (delete_loop u n level U h0) as (h1 & Hrun & Hm1 & Hf1 & Hd1).
  { done. }
  { intros i Hi. apply del_U_ne. lia. }
  { intros i Hi. rewrite del_U_dif by done. split; [eauto|].
    eexists. split; [apply del_U_fwd; lia|].
    case_decide as Ht; [|intros Hft; by apply rest_ne in Hft].
    intros _. rewrite (Hfn i Ht), (Hdn i Ht Hi). eauto. }
  exists h1. split; [done|]. split; [done|].
  destruct (cells_delete h1 n) as (Hm2 & Hf2 & Hd2).
  intros j e Hj.
  assert (c < length ns) as Hcl by (simpl; lia).
  destruct (decide (j ≤ c)) as [Hjc|Hjc].
  - rewrite del_lookup_le in Hj by done. rewrite del_drop_le by done.
    destruct (Hnodes j e Hj) as (Hmeta & Hfwd & Hdif).
    rewrite (drop_seg ns j c Hjc), drop_en in Hfwd, Hdif.
    assert (a_loc e ≠ n) as Hne.
    { intros Ha. pose proof (loc_inj hd els Hnd _ _ _ _ Hj Hen Ha). lia. }
    split; [|split].
    + rewrite Hm2, Hm1. by rewrite decide_False.
    + intros i Hi. rewrite Hf2, Hf1. rewrite decide_False by done.
      rewrite (Hfwd i Hi).
      destruct (finger_or_before hd els c ltac:(lia) i j e Hj Hjc Hi)
        as [[Heq Hnone]|[Hlt (m0 & x & Hm0 & Hx)]].
      * destruct (first_tall_app_none i (seg ns j c)
          (en :: drop (S (S c)) ns) Hnone) as [-> _].
        destruct (first_tall_app_none i (seg ns j c) (drop (S (S c)) ns)
          Hnone) as [-> _].
        cbn [first_tall].
        pose proof Hj as Hj'. rewrite Heq in Hj'.
        assert (U i = a_loc e) as HU by (unfold U; by rewrite Hj').
        destruct (decide (tall i en)) as [Ht|Ht].
        -- rewrite decide_True; [by rewrite (Hfn i Ht)|].
           split; [|done]. pose proof Hen as Hen'.
           rewrite nodes_lookup_S in Hen'.
           apply list_elem_of_lookup_2, Hh in Hen'. unfold tall in Ht. lia.
        -- rewrite decide_False; [done|]. intros (_ & _ & [= Hft]).
           by apply rest_ne in Hft.
      * destruct (first_tall_app_some i (seg ns j c)
          (en :: drop (S (S c)) ns) m0 x Hm0 Hx) as [-> _].
        destruct (first_tall_app_some i (seg ns j c) (drop (S (S c)) ns)
          m0 x Hm0 Hx) as [-> _].
        rewrite decide_False; [done|]. intros (Hil & Ha & _).
        apply (del_U_at i j e) in Ha; [lia|done|lia].
    + intros i Hi Hil. rewrite Hd2, Hd1. rewrite decide_False by done.
      rewrite (Hdif i Hi Hil), (Hfwd i Hi).
      destruct (finger_or_before hd els c ltac:(lia) i j e Hj Hjc Hi)
        as [[Heq Hnone]|[Hlt (m0 & x & Hm0 & Hx)]].
      * destruct (first_tall_app_none i (seg ns j c)
          (en :: drop (S (S c)) ns) Hnone) as [-> ->].
        destruct (first_tall_app_none i (seg ns j c) (drop (S (S c)) ns)
          Hnone) as [_ ->].
        pose proof Hj as Hj'. rewrite Heq in Hj'.
        assert (U i = a_loc e) as HU by (unfold U; by rewrite Hj').
        rewrite decide_True by done. cbn [first_tall dist].
        destruct (decide (tall i en)) as [Ht|Ht].
        -- rewrite decide_True by done. rewrite (Hdn i Ht Hil). simpl.
           f_equal. lia.
        -- rewrite decide_False.
           2:{ intros [= Hft]. by apply rest_ne in Hft. }
           simpl. f_equal. lia.
      * destruct (first_tall_app_some i (seg ns j c)
          (en :: drop (S (S c)) ns) m0 x Hm0 Hx) as [_ ->].
        destruct (first_tall_app_some i (seg ns j c) (drop (S (S c)) ns)
          m0 x Hm0 Hx) as [_ ->].
        rewrite decide_False; [done|]. intros (_ & Ha).
        apply (del_U_at i j e) in Ha; [lia|done|lia].
  - rewrite del_lookup_gt in Hj by lia. rewrite del_drop_gt by lia.
    destruct (Hnodes _ _ Hj) as (Hmeta & Hfwd & Hdif).
    assert (a_loc e ≠ n) as Hne.
    { intros Ha. pose proof (loc_inj hd els Hnd _ _ _ _ Hj Hen Ha). lia. }
    assert (∀ i, i < level → a_loc e ≠ U i) as HneU.
    { intros i Hi Ha. apply (del_U_at i (S j) e) in Ha; [|done|lia].
      pose proof (fpos_le ns i c). lia. }
    split; [|split].
    + rewrite Hm2, Hm1. by rewrite decide_False.
    + intros i Hi. rewrite Hf2, Hf1. rewrite decide_False by done.
      rewrite decide_False; [by apply Hfwd|].
      intros (? & Ha & _). by apply (HneU i).
    + intros i Hi Hil. rewrite Hd2, Hd1. rewrite decide_False by done.
      rewrite decide_False; [by apply Hdif|].
      intros (? & Ha). by apply (HneU i).
Qed.
End delete_assembly.

(** ** Deletion keeps the container well formed *)

Lemma node_ok_mono h level level' e suf :
  level' ≤ level → node_ok h level e suf → node_ok h level' e suf.
Proof.
  intros Hl (Hm & Hf & Hd). split; [done|]. split; [done|].
  intros i Hi Hil. apply Hd; [done|lia].
Qed.

Lemma shrink_level_spec h hd els level :
  (∀ i, i < MAX_LEVEL → fwd h hd i = Some (first_tall i els)) →
  1 ≤ level ≤ MAX_LEVEL →
  (∀ e, e ∈ els → a_height e ≤ level) →
  ∃ level', shrink_level h hd level = Ok level' ∧ 1 ≤ level' ≤ level ∧
    ∀ e, e ∈ els → a_height e ≤ level'.
Proof.
  intros Hf. induction level as [|level IH]; intros Hl Hh; [lia|].
  destruct level as [|l].
  { exists 1. simpl. split; [done|]. split; [lia|done]. }
  cbn [shrink_level]. rewrite (get_forward_fwd _ _ _ _ (Hf (S l) ltac:(lia))).
  step. destruct (first_tall (S l) els) as [a|] eqn:Hft.
  - exists (S (S l)). split; [done|]. split; [lia|done].
  - destruct IH as (level' & Hrun & Hl' & Hh'); [lia| |].
    { intros e He. pose proof (Hh e He).
      apply list_elem_of_lookup in He as [j Hj].
      pose proof (first_tall_None _ _ Hft j e Hj) as Hnt. unfold tall in Hnt.
      lia. }
    exists level'. split; [done|]. split; [lia|done].
Qed.

Lemma nodes_del hd els c :
  nodes hd (take c els ++ drop (S c) els) = del (nodes hd els) c.
Proof. done. Qed.

Lemma sorted_delete cmp els c :
  StronglySorted (key_le cmp) els →
  StronglySorted (key_le cmp) (take c els ++ drop (S c) els).
Proof.
  intros Hs. rewrite <-(take_drop c els) in Hs.
  apply StronglySorted_app in Hs as (Hcross & Hs1 & Hs2).
  assert (drop (S c) els = drop 1 (drop c els)) as ->.
  { rewrite drop_drop. f_equal. lia. }
  apply StronglySorted_app. split; [|split; [done|]].
  - intros x1 x2 Hx1 Hx2. apply Hcross; [done|].
    by apply subseteq_drop in Hx2.
  - destruct (drop c els) as [|x r]; [done|].
    simpl. rewrite drop_0. by apply StronglySorted_cons in Hs2 as [_ ?].
Qed.

(** The finger of level 0 is the node of rank [key_rank], and the node that
    follows it, if any, is the first one whose key is not less than [k]. *)
Lemma search_successor p sl els c e0 :
  Inv p sl els → c ≤ length els →
  nodes (sl_header sl) els !! fpos (nodes (sl_header sl) els) 0 c = Some e0 →
  get_forward (heap p) (a_loc e0) 0 = Ok (a_loc <$> els !! c).
Proof.
  intros HI Hc He0.
  rewrite (fpos_0 (sl_level sl) (sl_header sl) els c (inv_heights _ _ _ HI) Hc)
    in He0.
  destruct (inv_nodes _ _ _ HI _ _ He0) as (_ & Hfwd & _).
  rewrite (get_forward_fwd _ _ _ _
    (Hfwd 0 (node_tall_0 (sl_level sl) (sl_header sl) els c
               (inv_heights _ _ _ HI) Hc c e0 He0))).
  f_equal. change (drop (S c) (nodes (sl_header sl) els)) with (drop c els).
  destruct (els !! c) as [e|] eqn:He.
  - rewrite (drop_S _ _ _ He). simpl. rewrite decide_True; [done|].
    apply list_elem_of_lookup_2, (inv_heights _ _ _ HI) in He. unfold tall. lia.
  - apply lookup_ge_None in He. by rewrite drop_ge.
Qed.

Lemma SkipList_Delete_absent fuel p sl els k :
  Inv p sl els → (sl_length sl < Z.of_nat fuel)%Z →
  (∀ e, els !! key_rank (Member_Compare sl) k els = Some e →
     Member_Compare sl (a_key e) k ≠ 0%Z) →
  ∃ sl', SkipList_Delete fuel p sl k = Ok (p, sl', 0%Z) ∧ Inv p sl' els ∧
    Member_Compare sl' = Member_Compare sl ∧ sl_header sl' = sl_header sl ∧
    sl_level sl' = sl_level sl ∧ sl_length sl' = sl_length sl.
Proof.
  intros HI Hfuel Habs.
  destruct (Search_by_Key_spec fuel p sl els k HI Hfuel)
    as (sl1 & u & d & Hsearch & HI1 & Hcmp1 & Hhd1 & Hlv1 & Hln1 & Hul & Hdl
        & Hud & Hcache).
  pose proof (key_rank_le (Member_Compare sl) k els) as Hc.
  pose proof (inv_level _ _ _ HI) as Hlevel.
  unfold SkipList_Delete. rewrite Hsearch. step.
  destruct (Hud 0 ltac:(lia)) as (e0 & He0 & Ht0 & Hu0 & _).
  rewrite (local_get_Ok _ _ _ Hu0). step.
  rewrite (search_successor p sl els _ e0 HI Hc He0). step.
  exists sl1. split; [|done].
  destruct (els !! key_rank (Member_Compare sl) k els) as [e|] eqn:He;
    [|done]. simpl.
  destruct (inv_nodes _ _ _ HI (S (key_rank (Member_Compare sl) k els)) e He)
    as (Hmeta & _).
  apply meta_deref in Hmeta as (r & _ & -> & Hk & _). step.
  rewrite Hk, Hcmp1. specialize (Habs e eq_refl).
  destruct (Z.eqb_spec (Member_Compare sl (a_key e) k) 0); [done|done].
Qed.

Lemma SkipList_Delete_present fuel p sl els k e :
  Inv p sl els → (sl_length sl < Z.of_nat fuel)%Z →
  els !! key_rank (Member_Compare sl) k els = Some e →
  Member_Compare sl (a_key e) k = 0%Z →
  ∃ p' sl',
    SkipList_Delete fuel p sl k = Ok (p', sl', 1%Z) ∧
    Inv p' sl'
      (take (key_rank (Member_Compare sl) k els) els
       ++ drop (S (key_rank (Member_Compare sl) k els)) els) ∧
    Member_Compare sl' = Member_Compare sl ∧ sl_header sl' = sl_header sl ∧
    sl_level sl' ≤ sl_level sl ∧
    Current_Random_Level p' = Current_Random_Level p ∧ brk p' = brk p ∧
    released p' = released p ++ [(a_key e, a_data e)].
Proof.
  intros HI Hfuel He Heq.
  destruct (Search_by_Key_spec fuel p sl els k HI Hfuel)
    as (sl1 & u & d & Hsearch & HI1 & Hcmp1 & Hhd1 & Hlv1 & Hln1 & Hul & Hdl
        & Hud & Hcache).
  set (c := key_rank (Member_Compare sl) k els) in *.
  assert (c < length els) as Hc by (by apply lookup_lt_Some in He).
  pose proof (inv_level _ _ _ HI) as Hlevel.
  unfold SkipList_Delete. rewrite Hsearch. step.
  destruct (Hud 0 ltac:(lia)) as (e0 & He0 & Ht0 & Hu0 & _).
  rewrite (local_get_Ok _ _ _ Hu0). step.
  rewrite (search_successor p sl els c e0 HI ltac:(lia) He0). rewrite He.
  step. cbn [fmap option_fmap option_map].
  destruct (inv_nodes _ _ _ HI (S c) e He) as (Hmeta & _).
  apply meta_deref in Hmeta as (r & Hr & -> & Hk & Hdt & _). step.
  rewrite Hk, Hcmp1, Heq. cbn [Z.eqb].
  destruct (delete_heap (heap p) (sl_level sl) (sl_header sl) els c e u
    (inv_nodes _ _ _ HI) (inv_nodup _ _ _ HI) (inv_heights _ _ _ HI) He
    ltac:(lia)) as (h1 & Hrun & Hm1 & Hnodes1).
  { intros i Hi. destruct (Hud i Hi) as (ei & Hei & _ & Hui & _).
    rewrite Hei. simpl. by apply local_get_Ok. }
  rewrite Hlv1, Hrun. step.
  assert (∃ r', deref h1 (a_loc e) = Ok r' ∧
    e_key r' = a_key e ∧ e_data r' = a_data e) as (r' & -> & Hk' & Hdt').
  { pose proof (Hm1 (a_loc e)) as Hm.
    destruct (inv_nodes _ _ _ HI (S c) e He) as (Hmeta & _).
    rewrite Hmeta in Hm. apply meta_deref in Hm as (r' & _ & ? & ? & ? & _).
    eauto. }
  step. cbn [heap].
  assert (c < length (nodes (sl_header sl) els)) as Hcl by (simpl; lia).
  assert (nodes (sl_header sl) els !! c = Some e0) as He0c.
  { by rewrite (fpos_0 (sl_level sl) (sl_header sl) els c
      (inv_heights _ _ _ HI) ltac:(lia)) in He0. }
  destruct (Hnodes1 c e0) as (_ & Hfwd0 & _).
  { by rewrite del_lookup_le by done. }
  rewrite (get_forward_fwd _ _ _ _ (Hfwd0 0 Ht0)). step.
  set (els' := take c els ++ drop (S c) els).
  assert (∀ x, x ∈ els' → x ∈ els) as Hsub.
  { intros x Hx. apply elem_of_app in Hx as [Hx|Hx].
    - by apply subseteq_take in Hx.
    - by apply subseteq_drop in Hx. }
  destruct (shrink_level_spec (delete (a_loc e) h1) (sl_header sl1) els'
    (sl_level sl)) as (level' & Hshrink & Hl' & Hh').
  { intros i Hi. destruct (Hnodes1 0 (header_elem (sl_header sl)))
      as (_ & Hfwd & _); [done|]. rewrite Hhd1. by apply Hfwd. }
  { done. }
  { intros x Hx. apply Hsub, (inv_heights _ _ _ HI) in Hx. lia. }
  rewrite Hshrink. step.
  eexists _, _. split; [done|]. fields.
  split; [|rewrite ?Hcmp1, ?Hhd1, ?Hk', ?Hdt'; repeat split; try done; lia].
  constructor; fields.
  - rewrite ?Hcmp1. apply (inv_cmp _ _ _ HI).
  - lia.
  - rewrite Hln1, (inv_length _ _ _ HI). unfold els'. rewrite length_app.
    rewrite length_take, length_drop. lia.
  - rewrite Hhd1. eapply sublist_NoDup; [apply (inv_nodup _ _ _ HI)|].
    apply fmap_sublist. unfold nodes. apply sublist_skip.
    unfold els'. rewrite <-delete_take_drop. apply sublist_delete.
  - rewrite Hhd1. intros j x Hj. apply (node_ok_mono _ (sl_level sl)); [lia|].
    by apply Hnodes1.
  - intros x Hx. pose proof (Hh' x Hx).
    apply Hsub, (inv_heights _ _ _ HI) in Hx. lia.
  - rewrite ?Hcmp1. apply sorted_delete. apply (inv_sorted _ _ _ HI).
  - unfold frontier_ok. fields. intros a Ha. apply meta_None.
    destruct (cells_delete h1 (a_loc e)) as (Hm2 & _). rewrite Hm2.
    case_decide; [done|]. rewrite Hm1. apply meta_None.
    by apply (inv_frontier _ _ _ HI).
  - apply (inv_finger_len _ _ _ HI1).
  - apply (inv_distance_len _ _ _ HI1).
  - unfold cache_ok. fields. intros i f Hf.
    destruct (Hcache i f Hf) as [->|(j & x & Hjc & Hj & Ha & Ht & Hd)].
    + left. by rewrite Hhd1.
    + right. exists j, x. rewrite Hhd1.
      change (nodes (sl_header sl) els') with (del (nodes (sl_header sl) els) c).
      rewrite del_lookup_le by (simpl; lia). done.
Qed.

(** ** Search, iteration and construction *)

Lemma SkipList_Search_spec fuel p sl els k :
  Inv p sl els → (sl_length sl < Z.of_nat fuel)%Z →
  ∃ sl',
    SkipList_Search fuel p sl k
    = Ok (sl',
          match els !! key_rank (Member_Compare sl) k els with
          | Some e =>
            if (Member_Compare sl k (a_key e) =? 0)%Z then a_data e else NULL
          | None => NULL
          end) ∧
    Inv p sl' els ∧
    Member_Compare sl' = Member_Compare sl ∧ sl_header sl' = sl_header sl ∧
    sl_level sl' = sl_level sl ∧ sl_length sl' = sl_length sl.
Proof.
  intros HI Hfuel.
  destruct (Search_by_Key_spec fuel p sl els k HI Hfuel)
    as (sl1 & u & d & Hsearch & HI1 & Hcmp1 & Hhd1 & Hlv1 & Hln1 & Hul & Hdl
        & Hud & Hcache).
  pose proof (key_rank_le (Member_Compare sl) k els) as Hc.
  pose proof (inv_level _ _ _ HI) as Hlevel.
  unfold SkipList_Search. rewrite Hsearch. step.
  destruct (Hud 0 ltac:(lia)) as (e0 & He0 & Ht0 & Hu0 & _).
  rewrite (local_get_Ok _ _ _ Hu0). step.
  rewrite (search_successor p sl els _ e0 HI Hc He0). step.
  exists sl1. split; [|done].
  destruct (els !! key_rank (Member_Compare sl) k els) as [e|] eqn:He;
    [|done]. simpl.
  destruct (inv_nodes _ _ _ HI (S (key_rank (Member_Compare sl) k els)) e He)
    as (Hmeta & _).
  apply meta_deref in Hmeta as (r & _ & -> & Hk & Hdt & _). step.
  rewrite Hk, Hdt, Hcmp1.
  by destruct (Member_Compare sl k (a_key e) =? 0)%Z.
Qed.

Lemma iterate_while_spec fuel p sl els j e :
  Inv p sl els → nodes (sl_header sl) els !! j = Some e →
  length els < fuel + j →
  iterate_while fuel (heap p) (a_loc e)
  = Ok (pair_of <$> drop j els).
Proof.
  intros HI. revert j e. induction fuel as [|fuel IH]; intros j e Hj Hfuel.
  { apply lookup_lt_Some in Hj. simpl in Hj. lia. }
  cbn [iterate_while].
  destruct (inv_nodes _ _ _ HI j e Hj) as (_ & Hfwd & _).
  rewrite (get_forward_fwd _ _ _ _
    (Hfwd 0 (node_tall_0 (sl_level sl) (sl_header sl) els 0
               (inv_heights _ _ _ HI) ltac:(lia) j e Hj))).
  step. change (drop (S j) (nodes (sl_header sl) els)) with (drop j els).
  destruct (els !! j) as [x|] eqn:Hx.
  - rewrite (drop_S _ _ _ Hx). cbn [first_tall].
    rewrite decide_True.
    2:{ apply list_elem_of_lookup_2, (inv_heights _ _ _ HI) in Hx.
        unfold tall. lia. }
    destruct (inv_nodes _ _ _ HI (S j) x Hx) as (Hmeta & _).
    apply meta_deref in Hmeta as (r & _ & -> & Hk & Hdt & _). step.
    rewrite (IH (S j) x Hx) by lia. step. by rewrite Hk, Hdt.
  - apply lookup_ge_None in Hx. by rewrite drop_ge.
Qed.

Lemma SkipList_Iterate_spec fuel p sl els :
  Inv p sl els → (sl_length sl < Z.of_nat fuel)%Z →
  SkipList_Iterate fuel p sl = Ok (pair_of <$> els).
Proof.
  intros HI Hfuel. unfold SkipList_Iterate.
  apply (iterate_while_spec fuel p sl els 0 (header_elem (sl_header sl)));
    [done..|]. rewrite (inv_length _ _ _ HI) in Hfuel. lia.
Qed.

Lemma SkipList_Create_Inv p c :
  frontier_ok p → comparator_ok c →
  Inv (SkipList_Create p c).1 (SkipList_Create p c).2 [].
Proof.
  intros Hfr Hc. unfold SkipList_Create, MakeNode. cbn [fst snd].
  pose proof MAX_LEVEL_pos.
  constructor; fields.
  - done.
  - lia.
  - done.
  - apply NoDup_singleton.
  - intros [|j] e; [|done]. intros [= <-]. simpl.
    unfold node_ok, meta, fwd, dif. simpl. rewrite !lookup_insert_eq. simpl.
    rewrite !length_replicate. split; [done|]. split.
    + intros i Hi. by rewrite lookup_replicate_2.
    + intros i Hi _. by rewrite lookup_replicate_2.
  - intros e He. by apply elem_of_nil in He.
  - constructor.
  - unfold frontier_ok. fields. intros a Ha.
    rewrite !lookup_insert_ne by (intros ?; subst a; lia). apply Hfr. lia.
  - apply length_replicate.
  - apply length_replicate.
  - unfold cache_ok. fields. intros i f Hf.
    apply lookup_replicate in Hf as [-> _]. by left.
Qed.

(** ** More fuel gives the same result *)

Lemma bind_mono {A B : Type} (m m' : res A) (f f' : A → res B) (r : B) :
  (∀ x, m = Ok x → m' = Ok x) →
  (∀ x, m = Ok x → f x = Ok r → f' x = Ok r) →
  m ≫= f = Ok r → m' ≫= f' = Ok r.
Proof.
  intros Hm Hf Hr. apply bind_Ok_inv in Hr as (x & Hx & Hfx).
  rewrite (Hm x Hx). step. by apply Hf.
Qed.

Lemma key_while_mono fuel fuel' h cmp k i f d r :
  fuel ≤ fuel' → key_while fuel h cmp k i f d = Ok r →
  key_while fuel' h cmp k i f d = Ok r.
Proof.
  revert fuel' f d. induction fuel as [|fuel IH]; intros fuel' f d Hle;
    [done|]. destruct fuel' as [|fuel']; [lia|]. cbn [key_while].
  apply bind_mono; [done|]. intros [x|] _; [|done].
  apply bind_mono; [done|]. intros ex _.
  destruct (cmp k (e_key ex) >? 0)%Z; [|done].
  apply bind_mono; [done|]. intros dx _. apply IH. lia.
Qed.

Lemma key_levels_mono fuel fuel' h k n sl finger delta f last r :
  fuel ≤ fuel' → key_levels fuel h k n sl finger delta f last = Ok r →
  key_levels fuel' h k n sl finger delta f last = Ok r.
Proof.
  intros Hle. revert sl finger delta f last.
  induction n as [|n IH]; intros sl finger delta f last; [done|].
  cbn [key_levels].
  apply bind_mono; [done|]. intros cf _.
  apply bind_mono; [done|]. intros ce _.
  apply bind_mono; [done|]. intros [f1 d1] _.
  apply bind_mono; [intros x; by apply key_while_mono|]. intros [f2 d2] _.
  apply bind_mono; [done|]. intros fg _.
  apply bind_mono; [done|]. intros finger' _.
  apply bind_mono; [done|]. intros ds _.
  apply bind_mono; [done|]. intros delta' _. apply IH.
Qed.

Lemma Search_by_Key_mono fuel fuel' p sl finger delta k r :
  fuel ≤ fuel' → Search_by_Key fuel p sl finger delta k = Ok r →
  Search_by_Key fuel' p sl finger delta k = Ok r.
Proof. apply key_levels_mono. Qed.

Lemma SkipList_Insert_mono fuel fuel' p sl k m r :
  fuel ≤ fuel' → SkipList_Insert fuel p sl k m = Ok r →
  SkipList_Insert fuel' p sl k m = Ok r.
Proof.
  intros Hle. unfold SkipList_Insert.
  apply bind_mono; [|done]. intros x. by apply Search_by_Key_mono.
Qed.

Lemma SkipList_Delete_mono fuel fuel' p sl k r :
  fuel ≤ fuel' → SkipList_Delete fuel p sl k = Ok r →
  SkipList_Delete fuel' p sl k = Ok r.
Proof.
  intros Hle. unfold SkipList_Delete.
  apply bind_mono; [|done]. intros x. by apply Search_by_Key_mono.
Qed.

Lemma SkipList_Search_mono fuel fuel' p sl k r :
  fuel ≤ fuel' → SkipList_Search fuel p sl k = Ok r →
  SkipList_Search fuel' p sl k = Ok r.
Proof.
  intros Hle. unfold SkipList_Search.
  apply bind_mono; [|done]. intros x. by apply Search_by_Key_mono.
Qed.

Lemma enough_lt sl : (sl_length sl < Z.of_nat (enough sl))%Z.
Proof. unfold enough. lia. Qed.

(** ** Every reachable state is well formed *)

Lemma reachable_Inv p sl : reachable p sl → ∃ els, Inv p sl els.
Proof.
  induction 1 as [p c Hfr Hc|fuel p sl k m p' sl' _ [els HI] Hop
    |fuel p sl k p' sl' d _ [els HI] Hop|fuel p sl k sl' v _ [els HI] Hop].
  - exists []. by apply SkipList_Create_Inv.
  - destruct (SkipList_Insert_spec (fuel `max` enough sl) p sl els k m HI)
      as (p2 & sl2 & Hrun & HI2 & _); [pose proof (enough_lt sl); lia|].
    apply (SkipList_Insert_mono _ (fuel `max` enough sl)) in Hop; [|lia].
    rewrite Hrun in Hop. injection Hop as <- <-. eauto.
  - apply (SkipList_Delete_mono _ (fuel `max` enough sl)) in Hop; [|lia].
    destruct (els !! key_rank (Member_Compare sl) k els) as [e|] eqn:He.
    + destruct (decide (Member_Compare sl (a_key e) k = 0%Z)) as [Heq|Hne].
      * destruct (SkipList_Delete_present (fuel `max` enough sl) p sl els k e
          HI) as (p2 & sl2 & Hrun & HI2 & _);
          [pose proof (enough_lt sl); lia|done..|].
        rewrite Hrun in Hop. injection Hop as <- <- <-. eauto.
      * destruct (SkipList_Delete_absent (fuel `max` enough sl) p sl els k HI)
          as (sl2 & Hrun & HI2 & _); [pose proof (enough_lt sl); lia| |].
        { intros e' He'. by simplify_eq. }
        rewrite Hrun in Hop. injection Hop as <- <- <-. eauto.
    + destruct (SkipList_Delete_absent (fuel `max` enough sl) p sl els k HI)
        as (sl2 & Hrun & HI2 & _); [pose proof (enough_lt sl); lia| |].
      { intros e' He'. by simplify_eq. }
      rewrite Hrun in Hop. injection Hop as <- <- <-. eauto.
  - apply (SkipList_Search_mono _ (fuel `max` enough sl)) in Hop; [|lia].
    destruct (SkipList_Search_spec (fuel `max` enough sl) p sl els k HI)
      as (sl2 & Hrun & HI2 & _); [pose proof (enough_lt sl); lia|].
    rewrite Hrun in Hop. injection Hop as <- <-. eauto.
Qed.

(** ** Rank consistency *)

Section chains.
Context (p : process) (sl : SkipList) (els : list elem).
Hypothesis HI : Inv p sl els.
Local Abbreviation ns := (nodes (sl_header sl) els).

Lemma chain_spec fuel j e i :
  ns !! j = Some e → tall i e → length ns ≤ fuel + j →
  ∃ ci, chain fuel (heap p) i (a_loc e) = Ok (a_loc e :: ci) ∧
    ∀ m y, ci !! m = Some y →
      ∃ r ey, j < r ∧ ns !! r = Some ey ∧ a_loc ey = y ∧ tall i ey ∧
        (i < sl_level sl →
         span_sum (heap p) i (take (S m) (a_loc e :: ci))
         = Ok (Z.of_nat r - Z.of_nat j)%Z).
Proof.
  revert j e. induction fuel as [|fuel IH]; intros j e Hj Ht Hfuel.
  { apply lookup_lt_Some in Hj. lia. }
  cbn [chain].
  destruct (next_node (heap p) (sl_level sl) (sl_header sl) els
    (inv_nodes _ _ _ HI) j e i Hj Ht)
    as [(Hf & _)|(j2 & e2 & Hj2 & Hl2 & Ht2 & Hf & _ & Hd)].
  - rewrite (get_forward_fwd _ _ _ _ Hf). step. exists []. split; [done|].
    by intros m y ?.
  - rewrite (get_forward_fwd _ _ _ _ Hf). step.
    destruct (IH j2 e2 Hl2 Ht2 ltac:(lia)) as (ci2 & -> & Hci2). step.
    exists (a_loc e2 :: ci2). split; [done|]. intros [|m] y Hy.
    + injection Hy as <-. exists j2, e2. do 4 (split; [done|]).
      intros Hi. cbn [take span_sum].
      rewrite (get_diff_dif _ _ _ _ (Hd Hi)). step. step. f_equal. lia.
    + destruct (Hci2 m y Hy) as (r & ey & Hr & Hlr & Ha & Hty & Hsum).
      exists r, ey. split; [lia|]. do 3 (split; [done|]).
      intros Hi. change (take (S (S m)) (a_loc e :: a_loc e2 :: ci2))
        with (a_loc e :: take (S m) (a_loc e2 :: ci2)).
      cbn [span_sum]. rewrite (get_diff_dif _ _ _ _ (Hd Hi)). step.
      rewrite (Hsum Hi). step. f_equal. lia.
Qed.

Lemma chain_0_spec fuel j e :
  ns !! j = Some e → length ns ≤ fuel + j →
  chain fuel (heap p) 0 (a_loc e) = Ok (a_loc <$> drop j ns).
Proof.
  revert j e. induction fuel as [|fuel IH]; intros j e Hj Hfuel.
  { apply lookup_lt_Some in Hj. lia. }
  cbn [chain]. rewrite (drop_S _ _ _ Hj). cbn [fmap list_fmap].
  destruct (inv_nodes _ _ _ HI j e Hj) as (_ & Hfwd & _).
  rewrite (get_forward_fwd _ _ _ _
    (Hfwd 0 (node_tall_0 (sl_level sl) (sl_header sl) els 0
               (inv_heights _ _ _ HI) ltac:(lia) j e Hj))). step.
  destruct (ns !! S j) as [x|] eqn:Hx.
  - rewrite (drop_S _ _ _ Hx). cbn [first_tall].
    rewrite decide_True
      by (by apply (node_tall_0 (sl_level sl) (sl_header sl) els 0
               (inv_heights _ _ _ HI) ltac:(lia) (S j))).
    rewrite (IH (S j) x Hx) by lia. step. by rewrite (drop_S _ _ _ Hx).
  - apply lookup_ge_None in Hx. by rewrite drop_ge.
Qed.

Lemma span_rank_law_Inv fuel :
  (sl_length sl < Z.of_nat fuel)%Z → span_rank_law 0 fuel p sl.
Proof.
  intros Hfuel i Hi. rewrite (inv_length _ _ _ HI) in Hfuel.
  exists (a_loc <$> ns).
  destruct (chain_spec fuel 0 (header_elem (sl_header sl)) i)
    as (ci & Hci & Hspan); [done|done|simpl; lia|].
  exists (sl_header sl :: ci). split.
  { apply (chain_0_spec fuel 0 (header_elem (sl_header sl)));
      [done|simpl; lia]. }
  split; [done|]. intros m y Hy.
  destruct (Hspan m y Hy) as (r & ey & Hr & Hlr & Ha & Hty & Hsum).
  exists r. split.
  { rewrite list_lookup_fmap, Hlr. simpl. by rewrite Ha. }
  unfold header_elem in Hsum. cbn [a_loc] in Hsum.
  rewrite Hsum; [f_equal; lia|].
  destruct r as [|r]; [lia|]. rewrite nodes_lookup_S in Hlr.
  apply list_elem_of_lookup_2, (inv_heights _ _ _ HI) in Hlr.
  unfold tall in Hty. lia.
Qed.
End chains.

(** ** The fixtures *)

Lemma cmpZ_ok : comparator_ok cmpZ.
Proof.
  unfold cmpZ. split.
  - intros a b. destruct (Z.compare_spec a b), (Z.compare_spec b a); lia.
  - intros a b c.
    destruct (Z.compare_spec a b), (Z.compare_spec b c), (Z.compare_spec a c);
      lia.
Qed.

Lemma p0_frontier : frontier_ok p0.
Proof. intros a _. apply lookup_empty. Qed.

Lemma st_empty_eq : st_empty = SkipList_Create p0 cmpZ.
Proof. vm_compute. reflexivity. Qed.

Lemma st_empty_reachable : reachable st_empty.1 st_empty.2.
Proof.
  rewrite st_empty_eq. apply reach_create; [apply p0_frontier|apply cmpZ_ok].
Qed.

Lemma run_op_reachable fuel st o st' :
  reachable st.1 st.2 → run_op fuel st o = Ok st' → reachable st'.1 st'.2.
Proof.
  destruct st as [p sl], st' as [p' sl'], o as [k m|k|k]; simpl; intros Hr Ho.
  - by eapply reach_insert.
  - apply bind_Ok_inv in Ho as ([[p2 sl2] d] & Hd & [= <- <-]).
    by eapply reach_delete.
  - apply bind_Ok_inv in Ho as ([sl2 v] & Hs & [= <- <-]).
    by eapply reach_search.
Qed.

Lemma run_ops_reachable fuel os st st' :
  reachable st.1 st.2 → run_ops fuel st os = Ok st' → reachable st'.1 st'.2.
Proof.
  revert st. induction os as [|o os IH]; intros st Hr; simpl.
  - by intros [= <-].
  - intros Ho. apply bind_Ok_inv in Ho as (st1 & H1 & H2).
    eapply IH; [|done]. by eapply run_op_reachable.
Qed.

Lemma st_one_reachable : reachable st_one.1 st_one.2.
Proof.
  apply (run_ops_reachable 8 [OpInsert 5 50] st_empty);
    [apply st_empty_reachable|]. by vm_compute.
Qed.

Lemma st_dup_reachable : reachable st_dup.1 st_dup.2.
Proof.
  apply (run_ops_reachable 8 [OpInsert 1 10; OpInsert 1 11] st_empty);
    [apply st_empty_reachable|]. by vm_compute.
Qed.

Lemma st_four_reachable : reachable st_four.1 st_four.2.
Proof.
  apply (run_ops_reachable 8
    [OpInsert 1 10; OpInsert 2 20; OpInsert 3 30; OpInsert 4 40] st_empty);
    [apply st_empty_reachable|]. by vm_compute.
Qed.

(** * The claims *)

Lemma sorted_by_keys cmp els :
  StronglySorted (key_le cmp) els → sorted_by cmp (pair_of <$> els).*1.
Proof.
  intros Hs i j a b Hij Hi Hj.
  rewrite !list_lookup_fmap in Hi, Hj.
  destruct (els !! i) as [x|] eqn:Hx; [|done].
  destruct (els !! j) as [y|] eqn:Hy; [|done].
  simpl in Hi, Hj. injection Hi as <-. injection Hj as <-.
  rewrite <-(take_drop j els) in Hs.
  apply (StronglySorted_app_1_elem_of _ _ _ x y) in Hs; [done|..].
  - apply elem_of_take. eauto.
  - apply list_elem_of_lookup. exists 0. rewrite lookup_drop.
    by replace (j + 0) with j by lia.
Qed.

(** C1 (as amended). Rank consistency: in every reachable state, on every
    level, the spans from the header up to and including the predecessor of
    a node add up to the 1-based rank of that node. *)
Theorem C1_rank_consistency p sl fuel :
  reachable p sl → (sl_length sl < Z.of_nat fuel)%Z →
  span_rank_law 0 fuel p sl.
Proof.
  intros Hr Hfuel. destruct (reachable_Inv p sl Hr) as [els HI].
  by apply (span_rank_law_Inv p sl els).
Qed.

Lemma C1_rank_consistency_witness : span_rank_law 0 2 st_one.1 st_one.2.
Proof.
  apply C1_rank_consistency; [apply st_one_reachable|].
  vm_compute. reflexivity.
Defined.

(** C1 (as stated) fails: after one insertion the span of the header on
    level 0 is 1, the rank of the only element, and not that rank minus
    one. *)
Lemma C1_minus_one_counterexample :
  reachable st_one.1 st_one.2 ∧ ¬ span_rank_law 1 2 st_one.1 st_one.2.
Proof.
  split; [apply st_one_reachable|]. intros Hlaw.
  destruct (Hlaw 0 MAX_LEVEL_pos) as (c0 & ci & H0 & Hi & Hy).
  vm_compute in H0, Hi. injection H0 as <-. injection Hi as <-.
  destruct (Hy 0 2%positive eq_refl) as (r & Hr & Hsum).
  vm_compute in Hsum.
  destruct r as [|[|r]]; simpl in Hr; discriminate.
Qed.

(** C4. Sorted order: in every reachable state the iteration visits the
    elements in non-decreasing key order. *)
Theorem C4_iterate_sorted p sl fuel :
  reachable p sl → (sl_length sl < Z.of_nat fuel)%Z →
  ∃ kvs, SkipList_Iterate fuel p sl = Ok kvs ∧
    sorted_by (Member_Compare sl) kvs.*1.
Proof.
  intros Hr Hfuel. destruct (reachable_Inv p sl Hr) as [els HI].
  exists (pair_of <$> els). split; [by apply SkipList_Iterate_spec|].
  apply sorted_by_keys, (inv_sorted _ _ _ HI).
Qed.

Lemma C4_iterate_sorted_witness :
  ∃ kvs, SkipList_Iterate 5 st_four.1 st_four.2 = Ok kvs ∧
    sorted_by (Member_Compare st_four.2) kvs.*1.
Proof.
  apply C4_iterate_sorted; [apply st_four_reachable|].
  vm_compute. reflexivity.
Defined.

Lemma comparator_refl cmp a : comparator_ok cmp → cmp a a = 0%Z.
Proof. intros [Hsym _]. pose proof (Hsym a a). lia. Qed.

Lemma comparator_eq_sym cmp a b :
  comparator_ok cmp → cmp a b = 0%Z → cmp b a = 0%Z.
Proof. intros [Hsym _] H. pose proof (Hsym a b). pose proof (Hsym b a). lia. Qed.

Lemma key_rank_app cmp k A B :
  (∀ x, x ∈ A → (cmp k (a_key x) > 0)%Z) →
  key_rank cmp k (A ++ B) = length A + key_rank cmp k B.
Proof.
  induction A as [|x A IH]; intros HA; simpl; [done|].
  pose proof (HA x ltac:(left)) as Hx.
  destruct (Z.gtb_spec (cmp k (a_key x)) 0); [|lia].
  rewrite IH; [done|]. intros y Hy. apply HA. by right.
Qed.

Lemma holds_lookup cmp k v els :
  holds cmp k v els →
  ∃ e, els !! key_rank cmp k els = Some e ∧ cmp k (a_key e) = 0%Z ∧
    a_data e = v.
Proof.
  intros (A & e & B & -> & HA & He & Hv). exists e. split; [|done].
  rewrite key_rank_app by done. simpl.
  destruct (Z.gtb_spec (cmp k (a_key e)) 0); [lia|].
  rewrite lookup_app_r by lia. by replace (length A + 0 - length A) with 0 by lia.
Qed.

Lemma holds_after_insert cmp k v els n h :
  comparator_ok cmp →
  holds cmp k v
    (take (key_rank cmp k els) els ++ mkElem n k v h
       :: drop (key_rank cmp k els) els).
Proof.
  intros Hcmp. eexists _, _, _. split; [done|]. split; [|split; [|done]].
  - intros x Hx. apply elem_of_take in Hx as (j & Hj & Hlt).
    by apply (key_rank_lt cmp k els j).
  - simpl. by apply comparator_refl.
Qed.

(** An insertion of a key that does not compare equal to [k] keeps
    [holds]. *)
Lemma holds_insert_other cmp k v els k' x :
  comparator_ok cmp → StronglySorted (key_le cmp) els →
  a_key x = k' → cmp k' k ≠ 0%Z → holds cmp k v els →
  holds cmp k v
    (take (key_rank cmp k' els) els ++ x :: drop (key_rank cmp k' els) els).
Proof.
  intros Hcmp Hs Hx Hne (A & e & B & -> & HA & He & Hv).
  set (c := key_rank cmp k' (A ++ e :: B)).
  destruct (decide (c ≤ length A)) as [Hc|Hc].
  - (* the new element goes before [e], so it is less than [k] *)
    assert (cmp k k' > 0)%Z as Hlt.
    { assert (cmp k' (a_key e) ≤ 0)%Z as H1.
      { apply (key_rank_ge cmp k' (A ++ e :: B) (length A)); [done..| ].
        rewrite lookup_app_r by lia.
        by replace (length A - length A) with 0 by lia. }
      pose proof (comparator_eq_sym cmp _ _ Hcmp He) as H2.
      destruct Hcmp as [Hsym Htrans].
      pose proof (Htrans k' (a_key e) k H1 ltac:(lia)).
      apply Hsym. lia. }
    exists (take c A ++ x :: drop c A), e, B. split; [|split; [|done]].
    + rewrite take_app_le, drop_app_le by done.
      by rewrite <-!app_assoc.
    + intros y Hy. apply elem_of_app in Hy as [Hy|Hy].
      * apply HA. by apply subseteq_take in Hy.
      * apply elem_of_cons in Hy as [->|Hy]; [by rewrite Hx|].
        apply HA. by apply subseteq_drop in Hy.
  - exists A, e, (take (c - S (length A)) B ++ x :: drop (c - S (length A)) B).
    split; [|done].
    rewrite take_app_ge, drop_app_ge by lia.
    replace (c - length A) with (S (c - S (length A))) by lia. simpl.
    by rewrite <-app_assoc.
Qed.

(** A deletion of a key that does not compare equal to [k] keeps
    [holds]. *)
Lemma holds_delete_other cmp k v els k' x :
  comparator_ok cmp →
  els !! key_rank cmp k' els = Some x → cmp (a_key x) k' = 0%Z →
  cmp k' k ≠ 0%Z → holds cmp k v els →
  holds cmp k v
    (take (key_rank cmp k' els) els ++ drop (S (key_rank cmp k' els)) els).
Proof.
  intros Hcmp Hx Hxk Hne (A & e & B & -> & HA & He & Hv).
  set (c := key_rank cmp k' (A ++ e :: B)) in *.
  destruct (decide (c < length A)) as [Hc|Hc].
  - exists (take c A ++ drop (S c) A), e, B. split; [|split; [|done]].
    + rewrite take_app_le, drop_app_le by lia. by rewrite <-!app_assoc.
    + intros y Hy. apply elem_of_app in Hy as [Hy|Hy].
      * apply HA. by apply subseteq_take in Hy.
      * apply HA. by apply subseteq_drop in Hy.
  - destruct (decide (c = length A)) as [Heq|Hgt].
    + exfalso. rewrite Heq in Hx. rewrite lookup_app_r in Hx by lia.
      replace (length A - length A) with 0 in Hx by lia.
      injection Hx as <-.
      pose proof (comparator_eq_sym cmp _ _ Hcmp He) as H1.
      pose proof (comparator_eq_sym cmp _ _ Hcmp Hxk) as H2.
      destruct Hcmp as [Hsym Htrans].
      pose proof (Htrans k' (a_key e) k ltac:(lia) ltac:(lia)).
      pose proof (Htrans k (a_key e) k' ltac:(lia) ltac:(lia)).
      pose proof (Hsym k k'). lia.
    + exists A, e, (take (c - S (length A)) B ++ drop (S (c - S (length A))) B).
      split; [|done].
      rewrite take_app_ge, drop_app_ge by lia.
      replace (c - length A) with (S (c - S (length A))) by lia.
      replace (S c - length A) with (S (S (c - S (length A)))) by lia.
      simpl. by rewrite <-app_assoc.
Qed.

Lemma run_op_holds fuel p sl els k v o :
  Inv p sl els → holds (Member_Compare sl) k v els →
  ¬ touches (Member_Compare sl) k o → (sl_length sl < Z.of_nat fuel)%Z →
  ∃ p' sl' els',
    run_op fuel (p, sl) o = Ok (p', sl') ∧ Inv p' sl' els' ∧
    holds (Member_Compare sl') k v els' ∧
    Member_Compare sl' = Member_Compare sl ∧
    (sl_length sl' ≤ sl_length sl + 1)%Z.
Proof.
  intros HI Hh Ht Hfuel. destruct o as [k' m|k'|k']; simpl in *.
  - destruct (SkipList_Insert_spec fuel p sl els k' m HI Hfuel)
      as (p' & sl' & -> & HI' & Hcmp & _).
    eexists p', sl', _. split; [done|]. split; [done|]. rewrite Hcmp.
    split; [|split; [done|]].
    + apply holds_insert_other; try done;
        [apply (inv_cmp _ _ _ HI)|apply (inv_sorted _ _ _ HI)].
    + rewrite (inv_length _ _ _ HI'), (inv_length _ _ _ HI), length_app.
      cbn [length]. rewrite length_take, length_drop. lia.
  - destruct (els !! key_rank (Member_Compare sl) k' els) as [e|] eqn:He.
    + destruct (decide (Member_Compare sl (a_key e) k' = 0%Z)) as [Heq|Hne].
      * destruct (SkipList_Delete_present fuel p sl els k' e HI Hfuel He Heq)
          as (p' & sl' & -> & HI' & Hcmp & _). step.
        eexists p', sl', _. split; [done|]. split; [done|]. rewrite Hcmp.
        split; [|split; [done|]].
        -- by apply (holds_delete_other _ _ _ _ _ e);
             [apply (inv_cmp _ _ _ HI)|..].
        -- rewrite (inv_length _ _ _ HI'), (inv_length _ _ _ HI), length_app.
           rewrite length_take, length_drop. lia.
      * destruct (SkipList_Delete_absent fuel p sl els k' HI Hfuel)
          as (sl' & -> & HI' & Hcmp & _ & _ & Hlen).
        { intros e' He'. by simplify_eq. }
        step. exists p, sl', els. rewrite Hcmp, Hlen.
        do 4 (split; [done|]). lia.
    + destruct (SkipList_Delete_absent fuel p sl els k' HI Hfuel)
        as (sl' & -> & HI' & Hcmp & _ & _ & Hlen).
      { intros e' He'. by simplify_eq. }
      step. exists p, sl', els. rewrite Hcmp, Hlen.
      do 4 (split; [done|]). lia.
  - destruct (SkipList_Search_spec fuel p sl els k' HI Hfuel)
      as (sl' & -> & HI' & Hcmp & _ & _ & Hlen).
    step. exists p, sl', els. rewrite Hcmp, Hlen.
    do 4 (split; [done|]). lia.
Qed.

Lemma run_ops_holds fuel os :
  ∀ p sl els k v,
  Inv p sl els → holds (Member_Compare sl) k v els →
  (∀ o, o ∈ os → ¬ touches (Member_Compare sl) k o) →
  (sl_length sl + Z.of_nat (length os) < Z.of_nat fuel)%Z →
  ∃ p' sl' els',
    run_ops fuel (p, sl) os = Ok (p', sl') ∧ Inv p' sl' els' ∧
    holds (Member_Compare sl') k v els' ∧
    (sl_length sl' < Z.of_nat fuel)%Z.
Proof.
  induction os as [|o os IH]; intros p sl els k v HI Hh Ht Hfuel.
  - exists p, sl, els. simpl in *. do 3 (split; [done|]). lia.
  - cbn [run_ops].
    destruct (run_op_holds fuel p sl els k v o HI Hh)
      as (p1 & sl1 & els1 & -> & HI1 & Hh1 & Hcmp1 & Hlen1).
    { apply Ht. by left. }
    { cbn [length] in Hfuel. lia. }
    step. apply (IH p1 sl1 els1 k v HI1 Hh1).
    + intros o' Ho'. rewrite Hcmp1. apply Ht. by right.
    + cbn [length] in Hfuel. lia.
Qed.

(** C7 (as amended). Round trip: after [SkipList_Insert (k, v)], followed by
    any insertions, deletions and searches none of which inserts or deletes
    a key that compares equal to [k], the search for [k] returns [v]. *)
Theorem C7_round_trip p sl fuel k v os :
  reachable p sl →
  (sl_length sl + Z.of_nat (length os) + 1 < Z.of_nat fuel)%Z →
  (∀ o, o ∈ os → ¬ touches (Member_Compare sl) k o) →
  ∃ p' sl' sl'',
    run_ops fuel (p, sl) (OpInsert k v :: os) = Ok (p', sl') ∧
    SkipList_Search fuel p' sl' k = Ok (sl'', v).
Proof.
  intros Hr Hfuel Ht. destruct (reachable_Inv p sl Hr) as [els HI].
  cbn [run_ops run_op fst snd].
  destruct (SkipList_Insert_spec fuel p sl els k v HI ltac:(lia))
    as (p1 & sl1 & -> & HI1 & Hcmp1 & _). step.
  assert (sl_length sl1 = sl_length sl + 1)%Z as Hlen1.
  { rewrite (inv_length _ _ _ HI1), (inv_length _ _ _ HI), length_app.
    cbn [length]. rewrite length_take, length_drop.
    pose proof (key_rank_le (Member_Compare sl) k els). lia. }
  destruct (run_ops_holds fuel os p1 sl1 _ k v HI1)
    as (p' & sl' & els' & -> & HI' & Hh' & Hlen').
  { rewrite Hcmp1. apply holds_after_insert, (inv_cmp _ _ _ HI). }
  { intros o Ho. rewrite Hcmp1. by apply Ht. }
  { lia. }
  destruct (SkipList_Search_spec fuel p' sl' els' k HI' Hlen')
    as (sl'' & Hs & _).
  exists p', sl', sl''. split; [done|]. rewrite Hs. f_equal. f_equal.
  destruct (holds_lookup _ _ _ _ Hh') as (e & -> & -> & ->). done.
Qed.

Lemma C7_round_trip_witness :
  ∃ p' sl' sl'',
    run_ops 8 st_one (OpInsert 3 30 :: [OpInsert 4 40; OpDelete 5; OpSearch 3])
    = Ok (p', sl') ∧
    SkipList_Search 8 p' sl' 3 = Ok (sl'', 30%Z).
Proof.
  apply (C7_round_trip st_one.1 st_one.2 8 3%Z 30%Z
           [OpInsert 4 40; OpDelete 5; OpSearch 3]).
  - apply st_one_reachable.
  - vm_compute. reflexivity.
  - intros o Ho. vm_compute in Ho.
    repeat (apply elem_of_cons in Ho as [->|Ho]); try (by vm_compute);
      by apply elem_of_nil in Ho.
Defined.

(** C7 (as stated) fails: a second insertion of the key, which is no
    deletion, comes between the insertion of [(1, 10)] and the search, and
    the search returns 11. *)
Lemma C7_counterexample :
  ∃ p' sl' sl'',
    run_ops 8 st_empty (OpInsert 1 10 :: [OpInsert 1 11]) = Ok (p', sl') ∧
    SkipList_Search 8 p' sl' 1 = Ok (sl'', 11%Z) ∧ 11%Z ≠ 10%Z.
Proof.
  eexists _, _, _. split; [vm_compute; reflexivity|].
  split; [vm_compute; reflexivity|done].
Qed.

(** C9. Idempotent absence: when no member has a key that compares equal to
    [k], the deletion returns 0, leaves the process (and with it every
    element, its links and its spans) as it is, and leaves the length and
    the level of the container as they are. *)
Theorem C9_delete_absent p sl fuel k kvs :
  reachable p sl → (sl_length sl < Z.of_nat fuel)%Z →
  SkipList_Iterate fuel p sl = Ok kvs →
  (∀ kv, kv ∈ kvs → Member_Compare sl kv.1 k ≠ 0%Z) →
  ∃ sl', SkipList_Delete fuel p sl k = Ok (p, sl', 0%Z) ∧
    sl_header sl' = sl_header sl ∧ sl_level sl' = sl_level sl ∧
    sl_length sl' = sl_length sl ∧ SkipList_Iterate fuel p sl' = Ok kvs.
Proof.
  intros Hr Hfuel Hit Habs. destruct (reachable_Inv p sl Hr) as [els HI].
  rewrite (SkipList_Iterate_spec fuel p sl els HI Hfuel) in Hit.
  injection Hit as <-.
  destruct (SkipList_Delete_absent fuel p sl els k HI Hfuel)
    as (sl' & Hd & HI' & _ & Hhd & Hlv & Hln).
  { intros e He. apply (Habs (pair_of e)).
    apply list_elem_of_fmap. exists e. split; [done|].
    by eapply list_elem_of_lookup_2. }
  exists sl'. do 4 (split; [done|]).
  apply SkipList_Iterate_spec; [done|]. by rewrite Hln.
Qed.

Lemma C9_delete_absent_witness :
  ∃ sl', SkipList_Delete 8 st_four.1 st_four.2 7 = Ok (st_four.1, sl', 0%Z) ∧
    sl_header sl' = sl_header st_four.2 ∧ sl_level sl' = sl_level st_four.2 ∧
    sl_length sl' = sl_length st_four.2 ∧
    SkipList_Iterate 8 st_four.1 sl'
    = Ok [(1, 10); (2, 20); (3, 30); (4, 40)]%Z.
Proof.
  apply (C9_delete_absent st_four.1 st_four.2 8 7%Z).
  - apply st_four_reachable.
  - vm_compute. reflexivity.
  - vm_compute. reflexivity.
  - intros kv Hkv.
    repeat (apply elem_of_cons in Hkv as [->|Hkv]); try (by vm_compute);
      by apply elem_of_nil in Hkv.
Defined.

(** C10. Duplicate keys: the node of an insertion is put in after the
    elements that are less than its key and before every element whose key
    compares equal to it, and a search for the key right after the insertion
    returns the inserted value. *)
Theorem C10_insert_before_equal p sl fuel k v :
  reachable p sl → (sl_length sl + 1 < Z.of_nat fuel)%Z →
  ∃ pre suf p' sl' sl'',
    SkipList_Iterate fuel p sl = Ok (pre ++ suf) ∧
    (∀ kv, kv ∈ pre → Member_Compare sl kv.1 k ≠ 0%Z) ∧
    SkipList_Insert fuel p sl k v = Ok (p', sl') ∧
    SkipList_Iterate fuel p' sl' = Ok (pre ++ (k, v) :: suf) ∧
    SkipList_Search fuel p' sl' k = Ok (sl'', v).
Proof.
  intros Hr Hfuel. destruct (reachable_Inv p sl Hr) as [els HI].
  set (c := key_rank (Member_Compare sl) k els).
  destruct (SkipList_Insert_spec fuel p sl els k v HI ltac:(lia))
    as (p1 & sl1 & Hins & HI1 & Hcmp1 & _). fold c in HI1.
  assert (sl_length sl1 = sl_length sl + 1)%Z as Hlen1.
  { rewrite (inv_length _ _ _ HI1), (inv_length _ _ _ HI), length_app.
    cbn [length]. rewrite length_take, length_drop.
    pose proof (key_rank_le (Member_Compare sl) k els). fold c in H. lia. }
  destruct (SkipList_Search_spec fuel p1 sl1 _ k HI1 ltac:(lia))
    as (sl'' & Hs & _).
  exists (pair_of <$> take c els), (pair_of <$> drop c els), p1, sl1, sl''.
  split; [|split; [|split; [done|split]]].
  - rewrite <-fmap_app, take_drop. apply SkipList_Iterate_spec; [done|lia].
  - intros kv Hkv. apply list_elem_of_fmap in Hkv as (e & -> & He).
    apply elem_of_take in He as (j & Hj & Hlt).
    pose proof (key_rank_lt _ k els j e Hlt Hj) as Hgt.
    destruct (inv_cmp _ _ _ HI) as [Hsym _]. apply Hsym in Hgt. simpl. lia.
  - rewrite (SkipList_Iterate_spec fuel p1 sl1 _ HI1) by lia.
    by rewrite fmap_app.
  - rewrite Hs. f_equal. f_equal.
    destruct (holds_lookup (Member_Compare sl1) k v
      (take c els ++ mkElem (brk p) k v
         (Choose_Random_Level (Current_Random_Level p)).1 :: drop c els))
      as (e & -> & -> & ->); [|done].
    rewrite Hcmp1. apply holds_after_insert, (inv_cmp _ _ _ HI).
Qed.

Lemma C10_insert_before_equal_witness :
  ∃ pre suf p' sl' sl'',
    SkipList_Iterate 8 st_dup.1 st_dup.2 = Ok (pre ++ suf) ∧
    (∀ kv, kv ∈ pre → Member_Compare st_dup.2 kv.1 1%Z ≠ 0%Z) ∧
    SkipList_Insert 8 st_dup.1 st_dup.2 1 12 = Ok (p', sl') ∧
    SkipList_Iterate 8 p' sl' = Ok (pre ++ (1%Z, 12%Z) :: suf) ∧
    SkipList_Search 8 p' sl' 1 = Ok (sl'', 12%Z).
Proof.
  apply (C10_insert_before_equal st_dup.1 st_dup.2 8 1%Z 12%Z).
  - apply st_dup_reachable.
  - vm_compute. reflexivity.
Defined.

(** ** The level counter *)

Lemma set_diff_meta h a i x h' :
  set_diff h a i x = Ok h' → same_meta h h'.
Proof.
  unfold set_diff, deref. destruct (h !! a) as [e|] eqn:He; [|done]. step.
  unfold store. case_decide; [|done]. step. intros [= <-] b. unfold meta.
  destruct (decide (b = a)) as [->|].
  - rewrite lookup_insert_eq, He. simpl. by rewrite length_insert.
  - by rewrite lookup_insert_ne.
Qed.

Lemma set_forward_meta h a i x h' :
  set_forward h a i x = Ok h' → same_meta h h'.
Proof.
  unfold set_forward, deref. destruct (h !! a) as [e|] eqn:He; [|done]. step.
  unfold store. case_decide; [|done]. step. intros [= <-] b. unfold meta.
  destruct (decide (b = a)) as [->|].
  - rewrite lookup_insert_eq, He. simpl. by rewrite length_insert.
  - by rewrite lookup_insert_ne.
Qed.

Lemma for_range_rel {St : Type} (R : St → St → Prop) (a n : nat)
  (body : nat → St → res St) (s s' : St) :
  (∀ x, R x x) → (∀ x y z, R x y → R y z → R x z) →
  (∀ i x y, body i x = Ok y → R x y) →
  for_range a n body s = Ok s' → R s s'.
Proof.
  intros Hrefl Htrans Hbody. revert a s.
  induction n as [|n IH]; intros a s; simpl.
  - intros [= <-]. apply Hrefl.
  - intros Hr. apply bind_Ok_inv in Hr as (s1 & H1 & H2).
    eapply Htrans; [by eapply Hbody|by eapply IH].
Qed.

Lemma same_meta_refl h : same_meta h h.
Proof. done. Qed.

Lemma same_meta_trans h1 h2 h3 :
  same_meta h1 h2 → same_meta h2 h3 → same_meta h1 h3.
Proof. intros H1 H2 b. by rewrite H2, H1. Qed.

Lemma insert_diff_body_meta u d n i h h' :
  insert_diff_body u d n i h = Ok h' → same_meta h h'.
Proof.
  unfold insert_diff_body. intros H.
  apply bind_Ok_inv in H as (ui & _ & H).
  apply bind_Ok_inv in H as (x & _ & H).
  apply bind_Ok_inv in H as (d0 & _ & H).
  apply bind_Ok_inv in H as (di & _ & H).
  apply bind_Ok_inv in H as (h1 & H1 & H2).
  eapply same_meta_trans; [by eapply set_diff_meta|by eapply set_diff_meta].
Qed.

Lemma insert_bump_body_meta u i h h' :
  insert_bump_body u i h = Ok h' → same_meta h h'.
Proof.
  unfold insert_bump_body. intros H.
  apply bind_Ok_inv in H as (ui & _ & H).
  apply bind_Ok_inv in H as (x & _ & H). by eapply set_diff_meta.
Qed.

Lemma insert_link_body_meta u n i h h' :
  insert_link_body u n i h = Ok h' → same_meta h h'.
Proof.
  unfold insert_link_body. intros H.
  apply bind_Ok_inv in H as (ui & _ & H).
  apply bind_Ok_inv in H as (x & _ & H).
  apply bind_Ok_inv in H as (h1 & H1 & H2).
  eapply same_meta_trans; [by eapply set_forward_meta|by eapply set_forward_meta].
Qed.

(** An insertion takes one value of the counter, and the element it
    allocates has the height that [Choose_Random_Level] gives for it. *)
Lemma SkipList_Insert_level fuel p sl k m p' sl' :
  SkipList_Insert fuel p sl k m = Ok (p', sl') →
  Current_Random_Level p' = (Current_Random_Level p + 1)%Z ∧
  inserted_level p p' = Ok (Choose_Random_Level (Current_Random_Level p)).1.
Proof.
  unfold SkipList_Insert. intros H.
  apply bind_Ok_inv in H as ([[sl1 u] d] & _ & H).
  apply bind_Ok_inv in H as (u0 & _ & H).
  apply bind_Ok_inv in H as (nx & _ & H).
  pose proof (Choose_Random_Level_range (Current_Random_Level p)) as [_ Hc].
  destruct (Choose_Random_Level (Current_Random_Level p)) as [nl c].
  simpl in Hc. subst c. cbn [fst].
  apply bind_Ok_inv in H as ([[[h2 u2] d2] level2] & _ & H).
  unfold MakeNode in H. cbn [heap brk Current_Random_Level released] in H.
  apply bind_Ok_inv in H as (h4 & H4 & H).
  apply bind_Ok_inv in H as (h5 & H5 & H).
  apply bind_Ok_inv in H as (h6 & H6 & H).
  injection H as <- <-. fields. split; [done|].
  apply (for_range_rel same_meta) in H4;
    [|apply same_meta_refl|apply same_meta_trans
     |intros ? ? ?; apply insert_diff_body_meta].
  apply (for_range_rel same_meta) in H5;
    [|apply same_meta_refl|apply same_meta_trans
     |intros ? ? ?; apply insert_bump_body_meta].
  apply (for_range_rel same_meta) in H6;
    [|apply same_meta_refl|apply same_meta_trans
     |intros ? ? ?; apply insert_link_body_meta].
  pose proof (H6 (brk p)) as Hm. rewrite (H5 (brk p)), (H4 (brk p)) in Hm.
  unfold meta in Hm at 2. rewrite lookup_insert_eq in Hm. simpl in Hm.
  apply meta_deref in Hm as (e & _ & He & _ & _ & Hh & _).
  unfold inserted_level. fields. rewrite He. step. by rewrite Hh.
Qed.

Lemma run_op_counter fuel p sl o p' sl' :
  run_op fuel (p, sl) o = Ok (p', sl') →
  Current_Random_Level p'
  = (Current_Random_Level p + if is_insert o then 1 else 0)%Z.
Proof.
  destruct o as [k m|k|k]; simpl; intros H.
  - by apply SkipList_Insert_level in H as [-> _].
  - apply bind_Ok_inv in H as ([[p2 sl2] d] & Hd & [= <- <-]).
    unfold SkipList_Delete in Hd.
    apply bind_Ok_inv in Hd as ([[sl1 u] dl] & _ & Hd).
    apply bind_Ok_inv in Hd as (u0 & _ & Hd).
    apply bind_Ok_inv in Hd as (nx & _ & Hd).
    destruct nx as [n|]; [|injection Hd as <- _ _; lia].
    apply bind_Ok_inv in Hd as (en & _ & Hd).
    destruct (Member_Compare sl1 (e_key en) k =? 0)%Z;
      [|injection Hd as <- _ _; lia].
    apply bind_Ok_inv in Hd as (h1 & _ & Hd).
    apply bind_Ok_inv in Hd as (en' & _ & Hd).
    apply bind_Ok_inv in Hd as (x & _ & Hd).
    apply bind_Ok_inv in Hd as (lv & _ & Hd).
    injection Hd as <- _ _. simpl. lia.
  - apply bind_Ok_inv in H as ([sl2 v] & _ & [= <- <-]). lia.
Qed.

Lemma run2_levels fuel sched :
  ∀ p a b p' a' b' lvs,
  run2 fuel p a b sched = Ok (p', a', b', lvs) →
  lvs = expected_levels (Current_Random_Level p) sched.
Proof.
  induction sched as [|[first o] r IH]; intros p a b p' a' b' lvs H.
  - by injection H as _ _ _ <-.
  - cbn [run2] in H.
    apply bind_Ok_inv in H as ([p1 x] & Hop & H).
    apply bind_Ok_inv in H as (lv & Hlv & H).
    apply bind_Ok_inv in H as ([[[p2 a2] b2] lvs2] & Hrest & H).
    injection H as _ _ _ <-.
    pose proof (run_op_counter _ _ _ _ _ _ Hop) as Hc.
    apply IH in Hrest. rewrite Hc in Hrest.
    destruct o as [k m|k|k]; cbn [expected_levels is_insert] in *.
    + replace lvs2 with (expected_levels (Current_Random_Level p + 1) r).
      f_equal. destruct first; [|by injection Hlv as <-].
      cbn [run_op fst snd] in Hop.
      apply SkipList_Insert_level in Hop as [_ Hl]. rewrite Hl in Hlv.
      rewrite bind_Ok in Hlv. by injection Hlv as <-.
    + injection Hlv as <-. rewrite Z.add_0_r in Hrest. done.
    + injection Hlv as <-. rewrite Z.add_0_r in Hrest. done.
Qed.

Lemma expected_levels_first c sched :
  (∀ x, x ∈ sched → x.1 = false → is_insert x.2 = false) →
  expected_levels c (filter (λ x, x.1 = true) sched) = expected_levels c sched.
Proof.
  revert c. induction sched as [|[first o] r IH]; intros c Hno; [done|].
  assert (∀ x, x ∈ r → x.1 = false → is_insert x.2 = false) as Hr.
  { intros x Hx. apply Hno. by right. }
  destruct first.
  - rewrite filter_cons_True by done.
    destruct o; cbn [expected_levels]; by rewrite IH.
  - rewrite filter_cons_False by done.
    pose proof (Hno (false, o) ltac:(left) eq_refl) as Ho.
    destruct o; [done|..]; cbn [expected_levels]; by rewrite IH.
Qed.


(** C6 (as stated) fails: with an insertion into the second container in
    between, the two nodes of the first container get the levels 1 and 1;
    without it they get the levels 1 and 2. *)
Lemma C6_counterexample :
  ∃ r r',
    run2 8 two_containers.1.1 two_containers.1.2 two_containers.2
      [(true, OpInsert 1 10); (false, OpInsert 1 10); (true, OpInsert 2 20)]
    = Ok r ∧
    run2 8 two_containers.1.1 two_containers.1.2 two_containers.2
      [(true, OpInsert 1 10); (true, OpInsert 2 20)] = Ok r' ∧
    r.2 = [1; 1] ∧ r'.2 = [1; 2].
Proof.
  eexists _, _. split; [vm_compute; reflexivity|].
  split; [vm_compute; reflexivity|]. split; reflexivity.
Qed.

(** ** The claims that the code breaks *)

(** C2. [SkipList_Delete] takes out one member only: of two members with
    key 1 it deletes the first, returns 1, and the other member is still
    found by the iteration and by the search. *)
Theorem C2_delete_leaves_duplicate :
  SkipList_Iterate 8 st_dup.1 st_dup.2 = Ok [(1, 11); (1, 10)]%Z ∧
  ∃ p' sl' sl'',
    SkipList_Delete 8 st_dup.1 st_dup.2 1 = Ok (p', sl', 1%Z) ∧
    SkipList_Iterate 8 p' sl' = Ok [(1, 10)]%Z ∧
    SkipList_Search 8 p' sl' 1 = Ok (sl'', 10%Z).
Proof.
  split; [vm_compute; reflexivity|]. eexists _, _, _.
  split; [vm_compute; reflexivity|].
  split; vm_compute; reflexivity.
Qed.

(** C3. After the insertions of the keys 1, 2, 3, 4 the second element of
    the iteration has key 2, and [SkipList_Indexed_Key] returns key 1 for
    rank 2. *)
Theorem C3_indexed_key_wrong :
  reachable st_four.1 st_four.2 ∧
  SkipList_Iterate 8 st_four.1 st_four.2
  = Ok [(1, 10); (2, 20); (3, 30); (4, 40)]%Z ∧
  ∃ sl', SkipList_Indexed_Key 8 st_four.1 st_four.2 2 = Ok (sl', 1%Z).
Proof.
  split; [apply st_four_reachable|]. split; [vm_compute; reflexivity|].
  eexists. vm_compute. reflexivity.
Qed.

(** C5. The cache changes the result of the search by index: in the state
    after the insertions of the keys 1, 2, 3, 4 the search for rank 2 that
    starts from the cache ends with the header as finger of level 0, the
    search from the header without the cache with the first element. *)
Theorem C5_index_cache_changes_result :
  reachable st_four.1 st_four.2 ∧
  ∃ sl' f f',
    Search_by_Index 8 st_four.1 st_four.2 fresh_finger 2 = Ok (sl', f, true) ∧
    Search_by_Index_nocache 8 st_four.1 st_four.2 fresh_finger 2
    = Ok (f', true) ∧
    local_get f 0 = Ok (sl_header st_four.2) ∧
    local_get f' 0 = Ok 2%positive ∧
    sl_header st_four.2 = 1%positive.
Proof.
  split; [apply st_four_reachable|]. eexists _, _, _.
  split; [vm_compute; reflexivity|]. split; [vm_compute; reflexivity|].
  split; [vm_compute; reflexivity|]. split; vm_compute; reflexivity.
Qed.

(** C8. A rank one past the length is reported as found and the null
    successor of the last node is dereferenced: on the empty container with
    rank 1, and on a container of four elements with rank 5, the three
    indexed operations fault. Rank 0 gives the null result. *)
Theorem C8_indexed_rank_past_end_faults :
  SkipList_Indexed_Key 8 st_empty.1 st_empty.2 1 = Fault ∧
  SkipList_Indexed_Member 8 st_empty.1 st_empty.2 1 = Fault ∧
  SkipList_Indexed_Update 8 st_empty.1 st_empty.2 1 7 = Fault ∧
  SkipList_Indexed_Key 8 st_four.1 st_four.2 5 = Fault ∧
  SkipList_Indexed_Member 8 st_four.1 st_four.2 5 = Fault ∧
  SkipList_Indexed_Update 8 st_four.1 st_four.2 5 7 = Fault ∧
  (∃ sl', SkipList_Indexed_Key 8 st_four.1 st_four.2 0 = Ok (sl', NULL)).
Proof.
  do 6 (split; [vm_compute; reflexivity|]).
  eexists. vm_compute. reflexivity.
Qed.

(** * Further properties of the operations *)

(** ** Creation *)

(** X1. A new container is empty: the iteration visits nothing, the length
    is 0, one level is in use, every search returns [NULL], and
    the creation allocates the header at the frontier without a call of the
    cleanup routine. *)
Theorem X1_create_empty p c fuel :
  frontier_ok p → comparator_ok c → 0 < fuel →
  SkipList_Iterate fuel (SkipList_Create p c).1 (SkipList_Create p c).2
  = Ok [] ∧
  SkipList_Length (SkipList_Create p c).2 = 0%Z ∧
  sl_level (SkipList_Create p c).2 = 1 ∧
  sl_header (SkipList_Create p c).2 = brk p ∧
  brk (SkipList_Create p c).1 = Pos.succ (brk p) ∧
  released (SkipList_Create p c).1 = released p ∧
  (∀ k, ∃ sl',
     SkipList_Search fuel (SkipList_Create p c).1 (SkipList_Create p c).2 k
     = Ok (sl', NULL)).
Proof.
  intros Hfr Hc Hfuel. pose proof (SkipList_Create_Inv p c Hfr Hc) as HI.
  assert (sl_length (SkipList_Create p c).2 < Z.of_nat fuel)%Z as Hlen.
  { rewrite (inv_length _ _ _ HI). simpl. lia. }
  split; [apply (SkipList_Iterate_spec fuel _ _ [] HI Hlen)|].
  do 5 (split; [done|]). intros k.
  destruct (SkipList_Search_spec fuel _ _ [] k HI Hlen) as (sl' & Hs & _).
  by exists sl'.
Qed.

Lemma X1_create_empty_witness :
  SkipList_Iterate 1 (SkipList_Create p0 cmpZ).1 (SkipList_Create p0 cmpZ).2
  = Ok [] ∧
  SkipList_Length (SkipList_Create p0 cmpZ).2 = 0%Z ∧
  sl_level (SkipList_Create p0 cmpZ).2 = 1 ∧
  sl_header (SkipList_Create p0 cmpZ).2 = brk p0 ∧
  brk (SkipList_Create p0 cmpZ).1 = Pos.succ (brk p0) ∧
  released (SkipList_Create p0 cmpZ).1 = released p0 ∧
  (∀ k, ∃ sl',
     SkipList_Search 1 (SkipList_Create p0 cmpZ).1 (SkipList_Create p0 cmpZ).2 k
     = Ok (sl', NULL)).
Proof.
  apply (X1_create_empty p0 cmpZ 1); [apply p0_frontier|apply cmpZ_ok|lia].
Defined.

(** ** Length *)

(** X2. Length accuracy: in every reachable state [SkipList_Length] is the
    number of pairs that the iteration visits. *)
Theorem X2_length_counts_members p sl fuel :
  reachable p sl → (sl_length sl < Z.of_nat fuel)%Z →
  ∃ kvs, SkipList_Iterate fuel p sl = Ok kvs ∧
    SkipList_Length sl = Z.of_nat (length kvs).
Proof.
  intros Hr Hfuel. destruct (reachable_Inv p sl Hr) as [els HI].
  exists (pair_of <$> els). split; [by apply SkipList_Iterate_spec|].
  unfold SkipList_Length. by rewrite length_fmap, (inv_length _ _ _ HI).
Qed.

Lemma X2_length_counts_members_witness :
  ∃ kvs, SkipList_Iterate 5 st_four.1 st_four.2 = Ok kvs ∧
    SkipList_Length st_four.2 = Z.of_nat (length kvs).
Proof.
  apply X2_length_counts_members; [apply st_four_reachable|].
  vm_compute. reflexivity.
Defined.

(** ** Search *)

Lemma comparator_lt_le cmp k a b :
  comparator_ok cmp → (cmp k a < 0)%Z → (cmp a b ≤ 0)%Z → (cmp k b < 0)%Z.
Proof.
  intros [Hsym Htrans] Hka Hab.
  destruct (Z.lt_ge_cases (cmp k b) 0) as [|Hkb]; [done|].
  assert (cmp b k ≤ 0)%Z as Hbk.
  { pose proof (Hsym k b). pose proof (Hsym b k). lia. }
  pose proof (Htrans _ _ _ Hab Hbk). pose proof (Hsym a k). lia.
Qed.

Lemma first_equal_none cmp k (els : list elem) :
  (∀ e, e ∈ els → cmp k (a_key e) ≠ 0%Z) →
  first_equal cmp k (pair_of <$> els) = NULL.
Proof.
  induction els as [|x els IH]; intros Hne; [done|].
  cbn [fmap list_fmap first_equal pair_of fst snd].
  destruct (Z.eqb_spec (cmp k (a_key x)) 0) as [Heq|_].
  - by apply Hne in Heq; [|left].
  - apply IH. intros e He. apply Hne. by right.
Qed.

Lemma first_equal_rank cmp k els :
  comparator_ok cmp → StronglySorted (key_le cmp) els →
  first_equal cmp k (pair_of <$> els)
  = match els !! key_rank cmp k els with
    | Some e => if (cmp k (a_key e) =? 0)%Z then a_data e else NULL
    | None => NULL
    end.
Proof.
  intros Hcmp Hs. induction Hs as [|x r Hs IH Hx]; [done|].
  cbn [fmap list_fmap first_equal pair_of fst snd key_rank].
  destruct (Z.gtb_spec (cmp k (a_key x)) 0) as [Hgt|Hle].
  - destruct (Z.eqb_spec (cmp k (a_key x)) 0); [lia|]. apply IH.
  - cbn [lookup list_lookup].
    destruct (Z.eqb_spec (cmp k (a_key x)) 0) as [|Hne]; [done|].
    apply first_equal_none. intros e He.
    rewrite Forall_forall in Hx.
    pose proof (comparator_lt_le cmp k (a_key x) (a_key e) Hcmp
                  ltac:(lia) (Hx e He)). lia.
Qed.

(** X3. In every reachable state [SkipList_Search] returns the data of the
    first pair, in iteration order, whose key compares equal to the key
    sought, and [NULL] when no key compares equal; the search changes
    neither the contents nor the length. *)
Theorem X3_search_first_equal p sl fuel k :
  reachable p sl → (sl_length sl < Z.of_nat fuel)%Z →
  ∃ kvs sl',
    SkipList_Iterate fuel p sl = Ok kvs ∧
    SkipList_Search fuel p sl k
    = Ok (sl', first_equal (Member_Compare sl) k kvs) ∧
    SkipList_Iterate fuel p sl' = Ok kvs ∧
    SkipList_Length sl' = SkipList_Length sl.
Proof.
  intros Hr Hfuel. destruct (reachable_Inv p sl Hr) as [els HI].
  destruct (SkipList_Search_spec fuel p sl els k HI Hfuel)
    as (sl' & Hs & HI' & _ & _ & _ & Hlen).
  exists (pair_of <$> els), sl'.
  split; [by apply SkipList_Iterate_spec|]. split.
  { rewrite Hs. f_equal. f_equal. symmetry.
    apply first_equal_rank; [apply (inv_cmp _ _ _ HI)|apply (inv_sorted _ _ _ HI)]. }
  split; [|done]. apply SkipList_Iterate_spec; [done|]. by rewrite Hlen.
Qed.

Lemma X3_search_first_equal_witness :
  ∃ kvs sl',
    SkipList_Iterate 5 st_dup.1 st_dup.2 = Ok kvs ∧
    SkipList_Search 5 st_dup.1 st_dup.2 1
    = Ok (sl', first_equal (Member_Compare st_dup.2) 1%Z kvs) ∧
    SkipList_Iterate 5 st_dup.1 sl' = Ok kvs ∧
    SkipList_Length sl' = SkipList_Length st_dup.2.
Proof.
  apply (X3_search_first_equal st_dup.1 st_dup.2 5 1%Z);
    [apply st_dup_reachable|].
  vm_compute. reflexivity.
Defined.

(** ** Deletion of a member *)

Lemma rank_of_split cmp k (A : list elem) e B :
  comparator_ok cmp → StronglySorted (key_le cmp) (A ++ e :: B) →
  (∀ x, x ∈ A → cmp (a_key x) k ≠ 0%Z) → cmp (a_key e) k = 0%Z →
  key_rank cmp k (A ++ e :: B) = length A.
Proof.
  intros Hcmp Hs HA He. rewrite key_rank_app.
  - cbn [key_rank]. rewrite (comparator_eq_sym _ _ _ Hcmp He). simpl. lia.
  - intros x Hx.
    assert (cmp (a_key x) (a_key e) ≤ 0)%Z as Hxe.
    { apply (StronglySorted_app_1_elem_of _ _ _ x e) in Hs; [done|done|left]. }
    destruct Hcmp as [Hsym Htrans].
    pose proof (Htrans _ _ k Hxe ltac:(lia)). pose proof (HA x Hx).
    apply Hsym. lia.
Qed.

(** X4. Deletion of a member: when a key of the container compares equal to
    [k], [SkipList_Delete] returns 1, takes out the first such pair in
    iteration order and no other pair, hands that pair to the cleanup
    routine once, decrements the length and does not raise the level. *)
Theorem X4_delete_first_equal p sl fuel k pre k' d suf :
  reachable p sl → (sl_length sl < Z.of_nat fuel)%Z →
  SkipList_Iterate fuel p sl = Ok (pre ++ (k', d) :: suf) →
  (∀ kv, kv ∈ pre → Member_Compare sl kv.1 k ≠ 0%Z) →
  Member_Compare sl k' k = 0%Z →
  ∃ p' sl',
    SkipList_Delete fuel p sl k = Ok (p', sl', 1%Z) ∧
    SkipList_Iterate fuel p' sl' = Ok (pre ++ suf) ∧
    SkipList_Length sl' = (SkipList_Length sl - 1)%Z ∧
    released p' = released p ++ [(k', d)] ∧
    sl_level sl' ≤ sl_level sl ∧
    Current_Random_Level p' = Current_Random_Level p ∧ brk p' = brk p.
Proof.
  intros Hr Hfuel Hit Hpre Heq. destruct (reachable_Inv p sl Hr) as [els HI].
  rewrite (SkipList_Iterate_spec fuel p sl els HI Hfuel) in Hit.
  injection Hit as Hit.
  apply fmap_app_inv in Hit as (A & eB & -> & HeB & ->).
  symmetry in HeB. apply fmap_cons_inv in HeB as (e & B & He & -> & ->).
  assert (a_key e = k' ∧ a_data e = d) as [Hk Hd] by (by injection He).
  assert (key_rank (Member_Compare sl) k (A ++ e :: B) = length A) as Hrank.
  { apply rank_of_split; [apply (inv_cmp _ _ _ HI)|apply (inv_sorted _ _ _ HI)| |].
    - intros x Hx. apply (Hpre (pair_of x)). apply list_elem_of_fmap. eauto.
    - by rewrite Hk. }
  destruct (SkipList_Delete_present fuel p sl (A ++ e :: B) k e HI Hfuel)
    as (p' & sl' & Hdel & HI' & _ & _ & Hlv & Hc & Hb & Hrel).
  { rewrite Hrank. rewrite lookup_app_r by lia.
    by replace (length A - length A) with 0 by lia. }
  { by rewrite Hk. }
  rewrite Hrank in HI'.
  rewrite take_app_length in HI'.
  replace (drop (S (length A)) (A ++ e :: B)) with B in HI'.
  2:{ rewrite drop_app_ge by lia.
      by replace (S (length A) - length A) with 1 by lia. }
  assert (sl_length sl' = sl_length sl - 1)%Z as Hlen.
  { rewrite (inv_length _ _ _ HI'), (inv_length _ _ _ HI), !length_app.
    cbn [length]. lia. }
  exists p', sl'. split; [done|]. split.
  { rewrite (SkipList_Iterate_spec fuel p' sl' _ HI') by lia.
    by rewrite fmap_app. }
  split; [done|]. split; [by rewrite Hrel, Hk, Hd|]. done.
Qed.

Lemma X4_delete_first_equal_witness :
  ∃ p' sl',
    SkipList_Delete 5 st_dup.1 st_dup.2 1 = Ok (p', sl', 1%Z) ∧
    SkipList_Iterate 5 p' sl' = Ok ([] ++ [(1, 10)])%Z ∧
    SkipList_Length sl' = (SkipList_Length st_dup.2 - 1)%Z ∧
    released p' = released st_dup.1 ++ [(1, 11)]%Z ∧
    sl_level sl' ≤ sl_level st_dup.2 ∧
    Current_Random_Level p' = Current_Random_Level st_dup.1 ∧
    brk p' = brk st_dup.1.
Proof.
  apply (X4_delete_first_equal st_dup.1 st_dup.2 5 1%Z [] 1%Z 11%Z
           [(1, 10)]%Z).
  - apply st_dup_reachable.
  - vm_compute. reflexivity.
  - vm_compute. reflexivity.
  - intros kv Hkv. by apply elem_of_nil in Hkv.
  - vm_compute. reflexivity.
Defined.

(** ** The level of a new node *)

#[local] Transparent level_loop.

Lemma land_1 x : Z.land x 1 = (x `mod` 2)%Z.
Proof. change 1%Z with (Z.ones 1). by rewrite Z.land_ones by lia. Qed.

Lemma level_loop_ones fuel j m n :
  (0 ≤ m)%Z → j < fuel →
  level_loop fuel (ones j + 2 ^ Z.of_nat (S j) * m) n = n + j.
Proof.
  intros Hm. revert fuel n. induction j as [|j IH]; intros fuel n Hfuel;
    (destruct fuel as [|fuel]; [lia|]); cbn [level_loop]; rewrite land_1.
  - change (ones 0) with 0%Z. change (2 ^ Z.of_nat 1)%Z with 2%Z.
    replace ((0 + 2 * m) `mod` 2)%Z with 0%Z; [simpl; lia|].
    rewrite Z.add_0_l, Z.mul_comm. by rewrite Z.mod_mul.
  - assert (ones (S j) + 2 ^ Z.of_nat (S (S j)) * m
            = 1 + (ones j + 2 ^ Z.of_nat (S j) * m) * 2)%Z as ->.
    { unfold ones. rewrite !Nat2Z.inj_succ, !Z.pow_succ_r by lia. ring. }
    set (q := (ones j + 2 ^ Z.of_nat (S j) * m)%Z).
    rewrite Z.mod_add by lia. change (1 `mod` 2)%Z with 1%Z.
    cbn [Z.eqb negb]. rewrite Z.shiftr_div_pow2 by lia.
    change (2 ^ 1)%Z with 2%Z. rewrite Z.div_add by lia.
    change (1 `div` 2)%Z with 0%Z. rewrite Z.add_0_l.
    subst q. rewrite (IH fuel (S n)) by lia. lia.
Qed.

#[local] Opaque level_loop.

(** X5. For every counter value from 0 to [2^63 - 2], the values that the
    C [long] can take and increment, the level of a new node is one more
    than the number of trailing one bits of the counter, cut off at
    [MAX_LEVEL], and the counter goes up by one. So the level is 1 for every
    even counter value, 2 for every value of the form 4m + 1, 3 for every
    value of the form 8m + 3, and so on. *)
Theorem X5_level_trailing_ones j m :
  (0 ≤ m)%Z → (ones j + 2 ^ Z.of_nat (S j) * m < 2 ^ 63 - 1)%Z →
  Choose_Random_Level (ones j + 2 ^ Z.of_nat (S j) * m)
  = (S j `min` MAX_LEVEL, (ones j + 2 ^ Z.of_nat (S j) * m + 1)%Z).
Proof.
  intros Hm Hc.
  assert (j < 64) as Hj.
  { destruct (decide (j < 64)) as [|Hge]; [done|]. exfalso.
    assert (2 ^ 64 ≤ 2 ^ Z.of_nat j)%Z by (apply Z.pow_le_mono_r; lia).
    assert (0 ≤ 2 ^ Z.of_nat (S j) * m)%Z by (apply Z.mul_nonneg_nonneg; lia).
    unfold ones in Hc. lia. }
  unfold Choose_Random_Level. rewrite level_loop_ones by done.
  f_equal. case_decide; lia.
Qed.

Lemma X5_level_trailing_ones_witness :
  Choose_Random_Level (ones 2 + 2 ^ Z.of_nat 3 * 5)
  = (3 `min` MAX_LEVEL, (ones 2 + 2 ^ Z.of_nat 3 * 5 + 1)%Z).
Proof.
  apply (X5_level_trailing_ones 2 5); [lia|vm_compute; reflexivity].
Defined.

(** ** The search by key and its cache *)

Lemma key_levels_nocache_spec h level hd els cmp k c fuel n :
  (∀ j e, nodes hd els !! j = Some e →
     node_ok h level e (drop (S j) (nodes hd els))) →
  (∀ j e, 1 ≤ j ≤ c → nodes hd els !! j = Some e → (cmp k (a_key e) > 0)%Z) →
  (∀ j e, c < j → nodes hd els !! j = Some e → (cmp k (a_key e) ≤ 0)%Z) →
  level ≤ MAX_LEVEL →
  ∀ (finger : skiplist_finger) (delta : skiplist_delta) f last js es,
  n ≤ level → length finger = MAX_LEVEL → length delta = MAX_LEVEL →
  nodes hd els !! js = Some es → a_loc es = f → last = Z.of_nat js →
  js ≤ c → n ≤ a_height es → c < fuel →
  ∃ finger' delta',
    key_levels_nocache fuel h cmp k n finger delta f last
    = Ok (finger', delta') ∧
    length finger' = MAX_LEVEL ∧ length delta' = MAX_LEVEL ∧
    (∀ i, i < n → ∃ e, nodes hd els !! fpos (nodes hd els) i c = Some e ∧
       finger' !! i = Some (Some (a_loc e)) ∧
       delta' !! i = Some (Some (Z.of_nat (fpos (nodes hd els) i c)))) ∧
    (∀ i, n ≤ i → finger' !! i = finger !! i ∧ delta' !! i = delta !! i).
Proof.
  intros Hnodes Hlt Hge Hlevel. unfold skiplist_finger, skiplist_delta.
  induction n as [|current IH];
    intros finger delta f last js es Hn Hlf Hld Hjs Hf Hlast Hjsc Hes Hfuel.
  { exists finger, delta. repeat split; try done. lia. }
  cbn [key_levels_nocache]. subst f last.
  destruct (key_while_spec h level hd els Hnodes cmp k c Hlt Hge fuel js es
    current Hjs ltac:(unfold tall; lia) ltac:(lia) Hjsc ltac:(lia))
    as (e' & He' & Ht' & ->). step.
  unfold local_set. rewrite (store_Ok finger) by lia. step.
  rewrite (store_Ok delta) by lia. step.
  pose proof (fpos_le (nodes hd els) current c) as Hfle.
  destruct (IH (<[current:=Some (a_loc e')]> finger)
    (<[current:=Some (Z.of_nat (fpos (nodes hd els) current c))]> delta)
    (a_loc e') (Z.of_nat (fpos (nodes hd els) current c))
    (fpos (nodes hd els) current c) e')
    as (finger' & delta' & Hrun & Hlf' & Hld' & Hbelow & Habove);
    try done; try lia; try (by rewrite length_insert).
  { unfold tall in Ht'. lia. }
  exists finger', delta'. do 3 (split; [done|]). split.
  - intros i Hi. destruct (decide (i = current)) as [->|Hne].
    + exists e'. destruct (Habove current) as (-> & ->); [lia|].
      by rewrite !list_lookup_insert_eq by lia.
    + apply Hbelow. lia.
  - intros i Hi. destruct (Habove i) as (-> & ->); [lia|].
    by rewrite !list_lookup_insert_ne by lia.
Qed.


(** X8. What [Search_by_Key] computes on every level in use: [finger[i]] is
    the header or a node whose key is less than [k], and the node after it
    on level [i], when there is one, has a key that is not less than [k]. *)
Theorem X8_key_search_fingers p sl fuel k i :
  reachable p sl → (sl_length sl < Z.of_nat fuel)%Z → i < sl_level sl →
  ∃ sl' u d f r,
    Search_by_Key fuel p sl fresh_finger fresh_delta k = Ok (sl', u, d) ∧
    local_get u i = Ok f ∧ deref (heap p) f = Ok r ∧
    (f = sl_header sl ∨ (Member_Compare sl k (e_key r) > 0)%Z) ∧
    (get_forward (heap p) f i = Ok None ∨
     ∃ x rx, get_forward (heap p) f i = Ok (Some x) ∧
       deref (heap p) x = Ok rx ∧ (Member_Compare sl k (e_key rx) ≤ 0)%Z).
Proof.
  intros Hr Hfuel Hi. destruct (reachable_Inv p sl Hr) as [els HI].
  destruct (Search_by_Key_spec fuel p sl els k HI Hfuel)
    as (sl' & u & d & Hsearch & _ & _ & _ & _ & _ & _ & _ & Hud & _).
  set (c := key_rank (Member_Compare sl) k els) in *.
  set (ns := nodes (sl_header sl) els) in *.
  pose proof (inv_nodes _ _ _ HI) as Hnodes. fold ns in Hnodes.
  destruct (Hud i Hi) as (e & He & Ht & Hu & _).
  destruct (node_deref (heap p) (sl_level sl) (sl_header sl) els Hnodes _ e He)
    as (r & _ & Hr' & Hk & _).
  exists sl', u, d, (a_loc e), r.
  split; [done|]. split; [by apply local_get_Ok|]. split; [done|].
  pose proof (fpos_le ns i c) as Hle. split.
  - destruct (fpos ns i c) as [|q] eqn:Hq.
    + left. unfold ns in He. rewrite nodes_lookup_0 in He. by injection He as <-.
    + right. rewrite Hk. apply (key_rank_nodes_lt _ k (sl_header sl) els (S q)).
      * fold c. lia.
      * done.
  - destruct (next_node (heap p) (sl_level sl) (sl_header sl) els Hnodes
      _ e i He Ht) as [(Hf & _)|(j2 & e2 & Hj2 & Hl2 & Ht2 & Hf & _)].
    + left. by apply get_forward_fwd.
    + right.
      destruct (node_deref (heap p) (sl_level sl) (sl_header sl) els Hnodes
        j2 e2 Hl2) as (rx & _ & Hrx & Hkx & _).
      exists (a_loc e2), rx. split; [by apply get_forward_fwd|].
      split; [done|]. rewrite Hkx.
      apply (key_rank_nodes_ge _ k (sl_header sl) els j2 e2);
        [apply (inv_cmp _ _ _ HI)|apply (inv_sorted _ _ _ HI)| |done].
      fold c. destruct (decide (c < j2)) as [|Hn]; [done|].
      pose proof (fpos_ge ns i c j2 e2 ltac:(lia) Hl2 Ht2). fold ns in Hj2. lia.
Qed.

Lemma X8_key_search_fingers_witness :
  ∃ sl' u d f r,
    Search_by_Key 5 st_four.1 st_four.2 fresh_finger fresh_delta 3%Z
    = Ok (sl', u, d) ∧
    local_get u 1 = Ok f ∧ deref (heap st_four.1) f = Ok r ∧
    (f = sl_header st_four.2 ∨ (Member_Compare st_four.2 3%Z (e_key r) > 0)%Z) ∧
    (get_forward (heap st_four.1) f 1 = Ok None ∨
     ∃ x rx, get_forward (heap st_four.1) f 1 = Ok (Some x) ∧
       deref (heap st_four.1) x = Ok rx ∧
       (Member_Compare st_four.2 3%Z (e_key rx) ≤ 0)%Z).
Proof.
  apply (X8_key_search_fingers st_four.1 st_four.2 5 3%Z 1);
    [apply st_four_reachable| |].
  - vm_compute. reflexivity.
  - vm_compute. lia.
Defined.

(** ** The search by rank *)

Section index_walk.
Context (h : gmap loc SkipList_element_struct) (level : nat) (hd : loc)
  (els : list elem).
Local Abbreviation ns := (nodes hd els).
Hypothesis Hnodes :
  ∀ j e, ns !! j = Some e → node_ok h level e (drop (S j) ns).
Context (n : Z) (c : nat).
Hypothesis Hin : ∀ j, 1 ≤ j ≤ length els → (Z.of_nat j < n)%Z ↔ j ≤ c.

Lemma index_while_spec fuel j e i :
  ns !! j = Some e → tall i e → i < level → j ≤ c → c - j < fuel →
  ∃ e', ns !! fpos ns i c = Some e' ∧ tall i e' ∧
    index_while fuel h n i (a_loc e) (Z.of_nat j)
    = Ok (a_loc e', Z.of_nat (fpos ns i c)).
Proof.
  revert j e. induction fuel as [|fuel IH]; intros j e Hj Ht Hi Hjc Hfuel;
    [lia|]. cbn [index_while].
  destruct (next_node h level hd els Hnodes j e i Hj Ht) as
    [(Hf & Hnone & _)|(j2 & e2 & Hj2 & Hl2 & Ht2 & Hf & Hbetween & Hd)].
  - rewrite (get_forward_fwd _ _ _ _ Hf). step.
    exists e. rewrite (fpos_unique ns i c j e); try done.
    intros j' e' ?. apply Hnone. lia.
  - rewrite (get_forward_fwd _ _ _ _ Hf). step.
    rewrite (get_diff_dif _ _ _ _ (Hd Hi)). step.
    assert (1 ≤ j2 ≤ length els) as Hj2r.
    { apply lookup_lt_Some in Hl2. simpl in Hl2. lia. }
    destruct (Z.ltb_spec (Z.of_nat j2 - Z.of_nat j + Z.of_nat j) n) as [Hlt|Hge].
    + assert (j2 ≤ c) by (apply Hin; lia).
      replace (Z.of_nat j + (Z.of_nat j2 - Z.of_nat j))%Z with (Z.of_nat j2)
        by lia.
      apply IH; try done. lia.
    + assert (c < j2).
      { destruct (decide (c < j2)); [done|].
        assert (Z.of_nat j2 < n)%Z by (apply Hin; lia). lia. }
      exists e. rewrite (fpos_unique ns i c j e); try done.
      intros j' e' ?. apply Hbetween. lia.
Qed.

Hypothesis Hlevel : level ≤ MAX_LEVEL.

Lemma index_levels_spec fuel m :
  ∀ sl (finger : list (option loc)) f place js es,
  m ≤ level →
  length (sl_finger sl) = MAX_LEVEL → length (sl_distance sl) = MAX_LEVEL →
  length finger = MAX_LEVEL →
  (∀ i, i < m → ∃ j e, ns !! j = Some e ∧ tall i e ∧
     sl_finger sl !! i = Some (a_loc e) ∧
     sl_distance sl !! i = Some (Z.of_nat j)) →
  ns !! js = Some es → a_loc es = f → place = Z.of_nat js → js ≤ c →
  m ≤ a_height es → c < fuel →
  ∃ sl' finger' place',
    index_levels fuel h n m sl finger f place = Ok (sl', finger', place') ∧
    Member_Compare sl' = Member_Compare sl ∧ sl_header sl' = sl_header sl ∧
    sl_level sl' = sl_level sl ∧ sl_length sl' = sl_length sl ∧
    length (sl_finger sl') = MAX_LEVEL ∧
    length (sl_distance sl') = MAX_LEVEL ∧
    length finger' = MAX_LEVEL ∧
    (0 < m → place' = Z.of_nat (fpos ns 0 c)) ∧
    (∀ i, i < m → ∃ e, ns !! fpos ns i c = Some e ∧ tall i e ∧
       finger' !! i = Some (Some (a_loc e)) ∧
       sl_finger sl' !! i = Some (a_loc e) ∧
       sl_distance sl' !! i = Some (Z.of_nat (fpos ns i c))) ∧
    (∀ i, m ≤ i →
       finger' !! i = finger !! i ∧
       sl_finger sl' !! i = sl_finger sl !! i ∧
       sl_distance sl' !! i = sl_distance sl !! i).
Proof.
  induction m as [|current IH];
    intros sl finger f place js es Hm Hlf Hld Hlfg Hexact Hjs Hf Hplace Hjsc
      Hes Hfuel.
  { cbn [index_levels]. exists sl, finger, place.
    do 8 (split; [done|]). split; [lia|]. split; [lia|done]. }
  cbn [index_levels].
  destruct (Hexact current ltac:(lia)) as (j & e & Hj & Ht & Hfj & Hdj).
  rewrite (index_Ok _ _ _ Hdj). step.
  assert (∃ j1 e1,
    ((if (Z.of_nat j <? n)%Z
      then cf ← index (sl_finger sl) current; Ok (cf, Z.of_nat j)
      else Ok (f, place)) = Ok (a_loc e1, Z.of_nat j1)) ∧
    ns !! j1 = Some e1 ∧ tall current e1 ∧ j1 ≤ c) as
    (j1 & e1 & -> & Hj1 & Ht1 & Hj1c).
  { destruct (Z.ltb_spec (Z.of_nat j) n) as [Hlt|Hge].
    - exists j, e. rewrite (index_Ok _ _ _ Hfj). step.
      do 3 (split; [done|]).
      destruct j as [|j]; [lia|]. apply Hin; [|done].
      apply lookup_lt_Some in Hj. simpl in Hj. lia.
    - exists js, es. rewrite Hf, Hplace. do 2 (split; [done|]).
      split; [unfold tall; lia|done]. }
  step.
  destruct (index_while_spec fuel j1 e1 current Hj1 Ht1 ltac:(lia) Hj1c
              ltac:(lia)) as (e' & He' & Ht' & ->).
  step. rewrite (store_Ok (sl_finger sl)) by lia. step.
  unfold local_set. rewrite (store_Ok finger) by lia. step.
  rewrite (store_Ok (sl_distance sl)) by lia. step.
  pose proof (fpos_le ns current c) as Hfle.
  destruct (IH
    (mkSkipList (Member_Compare sl) (sl_header sl)
       (<[current:=a_loc e']> (sl_finger sl))
       (<[current:=Z.of_nat (fpos ns current c)]> (sl_distance sl))
       (sl_level sl) (sl_length sl))
    (<[current:=Some (a_loc e')]> finger)
    (a_loc e') (Z.of_nat (fpos ns current c)) (fpos ns current c) e')
    as (sl' & finger' & place' & Hrun & ? & ? & ? & ? & ? & ? & ? & Hplace'
        & Hbelow & Habove);
    cbn [sl_finger sl_distance]; try done; try lia;
    try (by rewrite length_insert).
  { intros i Hi. rewrite !list_lookup_insert_ne by lia. apply Hexact. lia. }
  { unfold tall in Ht'. lia. }
  exists sl', finger', place'. split; [done|]. do 7 (split; [done|]).
  split; [|split].
  - intros _. destruct current as [|current'].
    + cbn [index_levels] in Hrun. by injection Hrun as _ _ <-.
    + apply Hplace'. lia.
  - intros i Hi. destruct (decide (i = current)) as [->|Hne].
    + exists e'. destruct (Habove current) as (-> & -> & ->); [lia|].
      cbn [sl_finger sl_distance]. by rewrite !list_lookup_insert_eq by lia.
    + apply Hbelow. lia.
  - intros i Hi. destruct (Habove i) as (-> & -> & ->); [lia|].
    cbn [sl_finger sl_distance]. by rewrite !list_lookup_insert_ne by lia.
Qed.
End index_walk.

Lemma stop_rank_le n len : stop_rank n len ≤ len.
Proof. unfold stop_rank. lia. Qed.

Lemma stop_rank_in n len j :
  1 ≤ j ≤ len → (Z.of_nat j < n)%Z ↔ j ≤ stop_rank n len.
Proof. unfold stop_rank. lia. Qed.

Lemma cache_exact_ok sl sl0 els :
  cache_ok sl0 (nodes (sl_header sl0) els) →
  sl_header sl = sl_header sl0 → sl_level sl = sl_level sl0 →
  cache_exact sl (nodes (sl_header sl0) els) →
  (∀ i, sl_level sl0 ≤ i →
     sl_finger sl !! i = sl_finger sl0 !! i ∧
     sl_distance sl !! i = sl_distance sl0 !! i) →
  cache_ok sl (nodes (sl_header sl) els).
Proof.
  intros Hc Hhd Hlv Hex Habove i f Hf. rewrite Hhd.
  destruct (decide (i < sl_level sl)) as [Hi|Hi].
  - destruct (Hex i Hi) as (j & e & Hj & Ht & Hfi & Hdi). right.
    exists j, e. do 3 (split; [congruence|]). done.
  - destruct (Habove i ltac:(lia)) as (Hfi & Hdi).
    rewrite Hfi in Hf. destruct (Hc i f Hf) as [|(j & e & ? & ? & ? & ?)];
      [by left|]. right. exists j, e. by rewrite Hdi.
Qed.

Lemma Search_by_Index_spec fuel p sl els n :
  Inv p sl els → cache_exact sl (nodes (sl_header sl) els) →
  (sl_length sl < Z.of_nat fuel)%Z →
  ∃ sl' finger e0,
    Search_by_Index fuel p sl fresh_finger n
    = Ok (sl', finger, (1 <=? n)%Z && (n <=? sl_length sl + 1)%Z) ∧
    Inv p sl' els ∧ cache_exact sl' (nodes (sl_header sl') els) ∧
    sl_header sl' = sl_header sl ∧ sl_level sl' = sl_level sl ∧
    sl_length sl' = sl_length sl ∧
    Member_Compare sl' = Member_Compare sl ∧
    nodes (sl_header sl) els !! stop_rank n (length els) = Some e0 ∧
    local_get finger 0 = Ok (a_loc e0).
Proof.
  intros HI Hex Hfuel.
  pose proof HI as [Hcmp Hlevel Hlen Hnd Hnodes Hh Hs Hfr Hfl Hdl Hc].
  set (ns := nodes (sl_header sl) els) in *.
  set (c := stop_rank n (length els)).
  pose proof (stop_rank_le n (length els)) as Hcle. fold c in Hcle.
  unfold Search_by_Index.
  destruct (index_levels_spec (heap p) (sl_level sl) (sl_header sl) els Hnodes
    n c (stop_rank_in n (length els)) ltac:(lia) fuel (sl_level sl) sl
    fresh_finger (sl_header sl) 0%Z 0 (header_elem (sl_header sl)))
    as (sl' & finger & place & -> & Hcmp' & Hhd' & Hlv' & Hln' & Hfl' & Hdl'
        & Hfg & Hplace & Hbelow & Habove);
    try done; try lia; try apply length_fresh_finger; try (simpl; lia).
  step. rewrite Hplace by lia.
  rewrite (fpos_0 (sl_level sl) (sl_header sl) els c Hh Hcle).
  destruct (Hbelow 0 ltac:(lia)) as (e0 & He0 & _ & Hf0 & _).
  rewrite (fpos_0 (sl_level sl) (sl_header sl) els c Hh Hcle) in He0.
  assert (cache_exact sl' ns) as Hex'.
  { intros i Hi. destruct (Hbelow i ltac:(lia)) as (e & He & Ht & _ & ? & ?).
    by exists (fpos ns i c), e. }
  exists sl', finger, e0. split.
  { f_equal. f_equal. unfold c, stop_rank. rewrite Hlen.
    destruct (Z.leb_spec 1 n); destruct (Z.leb_spec n (Z.of_nat (length els) + 1));
      destruct (Z.eqb_spec (n - Z.of_nat (Z.to_nat (Z.min (n - 1)
                  (Z.of_nat (length els))))) 1); simpl; try done; lia. }
  split.
  { constructor; rewrite ?Hcmp', ?Hhd', ?Hlv', ?Hln'; try done.
    rewrite <-Hhd'. apply (cache_exact_ok sl' sl); try done.
    intros i Hi. by destruct (Habove i Hi) as (_ & ? & ?). }
  split; [by rewrite Hhd'|]. do 5 (split; [done|]).
  by apply local_get_Ok.
Qed.

(** After [Search_by_Key] the cache is exact. *)
Lemma Search_by_Key_exact fuel p sl els k sl' u d :
  Inv p sl els → (sl_length sl < Z.of_nat fuel)%Z →
  Search_by_Key fuel p sl fresh_finger fresh_delta k = Ok (sl', u, d) →
  Inv p sl' els ∧ cache_exact sl' (nodes (sl_header sl') els) ∧
  sl_length sl' = sl_length sl.
Proof.
  intros HI Hfuel Hrun.
  destruct (Search_by_Key_spec fuel p sl els k HI Hfuel)
    as (sl1 & u1 & d1 & Hrun1 & HI1 & _ & Hhd1 & Hlv1 & Hln1 & _).
  rewrite Hrun in Hrun1. injection Hrun1 as <- <- <-.
  split; [done|]. split; [|done].
  pose proof HI as [Hcmp Hlevel Hlen Hnd Hnodes Hh Hs Hfr Hfl Hdl Hc].
  set (c := key_rank (Member_Compare sl) k els).
  pose proof (key_rank_le (Member_Compare sl) k els) as Hcle. fold c in Hcle.
  destruct (key_levels_spec (heap p) (sl_level sl) (sl_header sl) els Hnodes
    (Member_Compare sl) k c) with (fuel := fuel) (n := sl_level sl) (sl := sl)
    (finger := fresh_finger) (delta := fresh_delta) (f := sl_header sl)
    (last := 0%Z) (js := 0) (es := header_elem (sl_header sl))
    as (sl2 & u2 & d2 & Hrun2 & _ & _ & _ & _ & _ & _ & _ & _ & _ & Hbelow & _);
    try done; try lia; try apply length_fresh_finger;
    try apply length_fresh_delta; try (simpl; lia).
  { intros j e. apply key_rank_nodes_lt. }
  { intros j e. by apply key_rank_nodes_ge. }
  unfold Search_by_Key in Hrun. rewrite Hrun in Hrun2.
  injection Hrun2 as <- <- <-.
  intros i Hi. rewrite Hhd1. rewrite Hlv1 in Hi.
  destruct (Hbelow i Hi) as (e & He & Ht & _ & _ & ? & ?).
  by exists (fpos (nodes (sl_header sl) els) i c), e.
Qed.

(** ** Access by rank *)

Lemma successor_at p sl els c e0 :
  Inv p sl els → c ≤ length els →
  nodes (sl_header sl) els !! c = Some e0 →
  get_forward (heap p) (a_loc e0) 0 = Ok (a_loc <$> els !! c).
Proof.
  intros HI Hc He0. apply (search_successor p sl els c e0 HI Hc).
  by rewrite (fpos_0 (sl_level sl) (sl_header sl) els c (inv_heights _ _ _ HI)
                Hc).
Qed.

(** The search by rank with an exact cache: it is found when
    [1 ≤ n ≤ length + 1], and then the node after [finger[0]] is the element
    of rank [n], if there is one. *)
Lemma index_target fuel p sl els n :
  Inv p sl els → cache_exact sl (nodes (sl_header sl) els) →
  (sl_length sl < Z.of_nat fuel)%Z →
  ∃ sl' finger,
    Search_by_Index fuel p sl fresh_finger n
    = Ok (sl', finger, (1 <=? n)%Z && (n <=? sl_length sl + 1)%Z) ∧
    Inv p sl' els ∧ cache_exact sl' (nodes (sl_header sl') els) ∧
    sl_length sl' = sl_length sl ∧
    ((1 ≤ n ≤ sl_length sl + 1)%Z →
     ∃ f0, local_get finger 0 = Ok f0 ∧
       get_forward (heap p) f0 0 = Ok (a_loc <$> els !! Z.to_nat (n - 1))).
Proof.
  intros HI Hex Hfuel.
  destruct (Search_by_Index_spec fuel p sl els n HI Hex Hfuel)
    as (sl' & finger & e0 & Hrun & HI' & Hex' & _ & _ & Hln & _ & He0 & Hf0).
  exists sl', finger. do 4 (split; [done|]). intros Hn.
  exists (a_loc e0). split; [done|].
  pose proof (inv_length _ _ _ HI) as Hlen.
  assert (stop_rank n (length els) = Z.to_nat (n - 1)) as Hc
    by (unfold stop_rank; lia).
  rewrite Hc in He0. apply (successor_at p sl els _ e0 HI); [lia|done].
Qed.

Lemma key_at_lookup els n e :
  (1 ≤ n)%Z → els !! Z.to_nat (n - 1) = Some e →
  key_at (pair_of <$> els) n = a_key e ∧ data_at (pair_of <$> els) n = a_data e.
Proof.
  intros Hn He. unfold key_at, data_at.
  destruct (Z.leb_spec 1 n); [|lia].
  by rewrite !list_lookup_fmap, He.
Qed.

Lemma key_at_outside (els : list elem) n :
  (n < 1 ∨ Z.of_nat (length els) < n)%Z →
  key_at (pair_of <$> els) n = NULL ∧ data_at (pair_of <$> els) n = NULL.
Proof.
  intros Hn. unfold key_at, data_at.
  destruct (Z.leb_spec 1 n); [|done].
  rewrite !list_lookup_fmap.
  rewrite (proj2 (lookup_ge_None els (Z.to_nat (n - 1)))) by lia. done.
Qed.

Lemma SkipList_Indexed_Key_spec fuel p sl els n :
  Inv p sl els → cache_exact sl (nodes (sl_header sl) els) →
  (sl_length sl < Z.of_nat fuel)%Z → n ≠ (sl_length sl + 1)%Z →
  ∃ sl',
    SkipList_Indexed_Key fuel p sl n = Ok (sl', key_at (pair_of <$> els) n) ∧
    Inv p sl' els ∧ cache_exact sl' (nodes (sl_header sl') els) ∧
    sl_length sl' = sl_length sl.
Proof.
  intros HI Hex Hfuel Hn.
  destruct (index_target fuel p sl els n HI Hex Hfuel)
    as (sl' & finger & Hrun & HI' & Hex' & Hln & Hfound).
  pose proof (inv_length _ _ _ HI) as Hlen.
  exists sl'. split; [|done].
  unfold SkipList_Indexed_Key. rewrite Hrun. step.
  destruct (Z.leb_spec 1 n) as [H1|H1];
    [destruct (Z.leb_spec n (sl_length sl + 1)) as [H2|H2]|]; cbn [andb].
  - destruct (Hfound ltac:(lia)) as (f0 & Hf0 & Hnx).
    rewrite Hf0. step. rewrite Hnx. step.
    destruct (els !! Z.to_nat (n - 1)) as [e|] eqn:He.
    2:{ apply lookup_ge_None in He. lia. }
    cbn [fmap option_fmap option_map].
    destruct (inv_nodes _ _ _ HI (S (Z.to_nat (n - 1))) e He) as (Hmeta & _).
    apply meta_deref in Hmeta as (r & _ & -> & Hk & _). step.
    by rewrite Hk, (proj1 (key_at_lookup els n e H1 He)).
  - by rewrite (proj1 (key_at_outside els n ltac:(lia))).
  - by rewrite (proj1 (key_at_outside els n ltac:(lia))).
Qed.

Lemma SkipList_Indexed_Member_spec fuel p sl els n :
  Inv p sl els → cache_exact sl (nodes (sl_header sl) els) →
  (sl_length sl < Z.of_nat fuel)%Z → n ≠ (sl_length sl + 1)%Z →
  ∃ sl',
    SkipList_Indexed_Member fuel p sl n
    = Ok (sl', data_at (pair_of <$> els) n) ∧
    Inv p sl' els ∧ cache_exact sl' (nodes (sl_header sl') els) ∧
    sl_length sl' = sl_length sl.
Proof.
  intros HI Hex Hfuel Hn.
  destruct (index_target fuel p sl els n HI Hex Hfuel)
    as (sl' & finger & Hrun & HI' & Hex' & Hln & Hfound).
  pose proof (inv_length _ _ _ HI) as Hlen.
  exists sl'. split; [|done].
  unfold SkipList_Indexed_Member. rewrite Hrun. step.
  destruct (Z.leb_spec 1 n) as [H1|H1];
    [destruct (Z.leb_spec n (sl_length sl + 1)) as [H2|H2]|]; cbn [andb].
  - destruct (Hfound ltac:(lia)) as (f0 & Hf0 & Hnx).
    rewrite Hf0. step. rewrite Hnx. step.
    destruct (els !! Z.to_nat (n - 1)) as [e|] eqn:He.
    2:{ apply lookup_ge_None in He. lia. }
    cbn [fmap option_fmap option_map].
    destruct (inv_nodes _ _ _ HI (S (Z.to_nat (n - 1))) e He) as (Hmeta & _).
    apply meta_deref in Hmeta as (r & _ & -> & _ & Hd & _). step.
    by rewrite Hd, (proj2 (key_at_lookup els n e H1 He)).
  - by rewrite (proj2 (key_at_outside els n ltac:(lia))).
  - by rewrite (proj2 (key_at_outside els n ltac:(lia))).
Qed.

(** The three reads and writes by rank dereference [NULL] at rank
    [length + 1]. *)
Lemma indexed_past_end fuel p sl els d :
  Inv p sl els → cache_exact sl (nodes (sl_header sl) els) →
  (sl_length sl < Z.of_nat fuel)%Z →
  SkipList_Indexed_Key fuel p sl (sl_length sl + 1) = Fault ∧
  SkipList_Indexed_Member fuel p sl (sl_length sl + 1) = Fault ∧
  SkipList_Indexed_Update fuel p sl (sl_length sl + 1) d = Fault.
Proof.
  intros HI Hex Hfuel.
  destruct (index_target fuel p sl els (sl_length sl + 1) HI Hex Hfuel)
    as (sl' & finger & Hrun & _ & _ & _ & Hfound).
  pose proof (inv_length _ _ _ HI) as Hlen.
  destruct (Hfound ltac:(lia)) as (f0 & Hf0 & Hnx).
  rewrite (proj2 (lookup_ge_None els _)) in Hnx by lia.
  assert ((1 <=? sl_length sl + 1)%Z
          && (sl_length sl + 1 <=? sl_length sl + 1)%Z = true) as Htrue by lia.
  rewrite Htrue in Hrun.
  unfold SkipList_Indexed_Key, SkipList_Indexed_Member, SkipList_Indexed_Update.
  rewrite Hrun.
  split; [|split]; step; rewrite Hf0; step; by rewrite Hnx.
Qed.

(** ** A write to the data of one element *)

Lemma first_tall_shape i l l' :
  shape <$> l = shape <$> l' →
  first_tall i l = first_tall i l' ∧ dist i l = dist i l'.
Proof.
  revert l'. induction l as [|x l IH]; intros [|y l'] Heq; try done.
  cbn [fmap list_fmap] in Heq. unfold shape at 1 3 in Heq.
  injection Heq as Hx Hht Hl. destruct (IH l' Hl) as [IH1 IH2].
  cbn [first_tall dist]. rewrite Hx, IH1, IH2.
  destruct (decide (tall i x)) as [T|T], (decide (tall i y)) as [T'|T'];
    unfold tall in T, T'; try done; lia.
Qed.

Lemma shape_alter (l : list elem) c d :
  shape <$> alter (λ e, with_data e d) c l = shape <$> l.
Proof.
  revert c. induction l as [|x l IH]; intros [|c]; try done.
  change (shape x :: (shape <$> alter (λ e, with_data e d) c l)
          = shape x :: (shape <$> l)). by rewrite IH.
Qed.

Lemma sorted_same_keys cmp (l l' : list elem) :
  a_key <$> l = a_key <$> l' →
  StronglySorted (key_le cmp) l → StronglySorted (key_le cmp) l'.
Proof.
  intros Heq Hs. revert l' Heq.
  induction Hs as [|x l Hs IH Hx]; intros [|y l'] Heq; try done;
    [constructor|].
  injection Heq as Hxy Hl. change (a_key <$> l = a_key <$> l') in Hl.
  constructor; [by apply IH|].
  rewrite Forall_forall in *. intros z Hz.
  assert (a_key z ∈ a_key <$> l') as Hk by (apply list_elem_of_fmap; eauto).
  rewrite <-Hl in Hk. apply list_elem_of_fmap in Hk as (w & Hw & Hwl).
  unfold key_le. rewrite <-Hxy, Hw. by apply Hx.
Qed.

Lemma alter_with_data_lookup (l : list elem) c d j e :
  alter (λ e, with_data e d) c l !! j = Some e →
  ∃ e0, l !! j = Some e0 ∧ a_loc e = a_loc e0 ∧ a_key e = a_key e0 ∧
    a_height e = a_height e0 ∧
    a_data e = (if decide (j = c) then d else a_data e0).
Proof.
  destruct (decide (j = c)) as [->|Hne].
  - rewrite list_lookup_alter_eq.
    destruct (l !! c) as [e0|]; [|done]. intros [= <-]. by exists e0.
  - rewrite list_lookup_alter_ne by done. intros He. by exists e.
Qed.

Lemma update_data_Inv p sl els c e r d :
  Inv p sl els → els !! c = Some e → heap p !! a_loc e = Some r →
  Inv (with_heap p
         (<[a_loc e := mkElement (e_key r) d (e_height r) (e_forward r)
                         (e_diff r)]> (heap p)))
      sl (alter (λ e, with_data e d) c els) ∧
  (cache_exact sl (nodes (sl_header sl) els) →
   cache_exact sl
     (nodes (sl_header sl) (alter (λ e, with_data e d) c els))).
Proof.
  intros HI He Hr.
  pose proof HI as [Hcmp Hlevel Hlen Hnd Hnodes Hh Hs Hfr Hfl Hdl Hc].
  set (els' := alter (λ e, with_data e d) c els).
  set (h' := <[a_loc e := mkElement (e_key r) d (e_height r) (e_forward r)
                            (e_diff r)]> (heap p)).
  assert (nodes (sl_header sl) els'
          = alter (λ e, with_data e d) (S c) (nodes (sl_header sl) els))
    as Hns by done.
  assert (∀ j x, nodes (sl_header sl) els' !! j = Some x →
            ∃ x0, nodes (sl_header sl) els !! j = Some x0 ∧
              a_loc x = a_loc x0 ∧ a_key x = a_key x0 ∧
              a_height x = a_height x0 ∧
              a_data x = (if decide (j = S c) then d else a_data x0)) as Hlk.
  { intros j x. rewrite Hns. apply alter_with_data_lookup. }
  assert (∀ b i, fwd h' b i = fwd (heap p) b i) as Hfwd.
  { intros b i. unfold fwd, h'. destruct (decide (b = a_loc e)) as [->|];
      [by rewrite lookup_insert_eq, Hr|by rewrite lookup_insert_ne]. }
  assert (∀ b i, dif h' b i = dif (heap p) b i) as Hdif.
  { intros b i. unfold dif, h'. destruct (decide (b = a_loc e)) as [->|];
      [by rewrite lookup_insert_eq, Hr|by rewrite lookup_insert_ne]. }
  split.
  - constructor; fields; try done.
    + rewrite (inv_length _ _ _ HI). unfold els'. by rewrite length_alter.
    + replace (a_loc <$> nodes (sl_header sl) els')
        with (a_loc <$> nodes (sl_header sl) els); [done|].
      rewrite Hns. apply list_eq. intros j. rewrite !list_lookup_fmap.
      destruct (decide (j = S c)) as [->|];
        [rewrite list_lookup_alter_eq|by rewrite list_lookup_alter_ne].
      by destruct (nodes (sl_header sl) els !! S c).
    + intros j x Hx. destruct (Hlk j x Hx) as (x0 & Hx0 & Hl & Hk & Hht & Hd).
      destruct (Hnodes j x0 Hx0) as (Hm0 & Hf0 & Hd0).
      assert (shape <$> drop (S j) (nodes (sl_header sl) els')
              = shape <$> drop (S j) (nodes (sl_header sl) els)) as Hsh.
      { rewrite Hns, !fmap_drop. f_equal. apply shape_alter. }
      split; [|split].
      * unfold meta, h'. rewrite Hl, Hk, Hht, Hd.
        destruct (decide (a_loc x0 = a_loc e)) as [Heq|Hne].
        -- rewrite Heq, lookup_insert_eq. cbn.
           assert (j = S c) as ->.
           { apply (loc_inj (sl_header sl) els Hnd j x0 (S c) e); done. }
           rewrite decide_True by done.
           unfold meta in Hm0. rewrite Heq, Hr in Hm0. cbn in Hm0.
           by injection Hm0 as -> _ -> -> ->.
        -- rewrite lookup_insert_ne by done.
           rewrite decide_False; [done|]. intros ->.
           rewrite nodes_lookup_S in Hx0. congruence.
      * intros i Hi. rewrite Hfwd, Hl.
        rewrite (proj1 (first_tall_shape i _ _ Hsh)). apply Hf0. lia.
      * intros i Hi Hil. rewrite Hdif, Hl.
        rewrite (proj2 (first_tall_shape i _ _ Hsh)). apply Hd0; lia.
    + intros x Hx. apply list_elem_of_lookup in Hx as (j & Hj).
      destruct (alter_with_data_lookup els c d j x Hj)
        as (x0 & Hx0 & _ & _ & -> & _).
      apply Hh. by eapply list_elem_of_lookup_2.
    + apply (sorted_same_keys _ els); [|done].
      unfold els'. apply list_eq. intros j. rewrite !list_lookup_fmap.
      destruct (decide (j = c)) as [->|];
        [rewrite list_lookup_alter_eq|by rewrite list_lookup_alter_ne].
      by destruct (els !! c).
    + intros a Ha. unfold with_heap in *. cbn [heap brk] in *.
      unfold h'. rewrite lookup_insert_ne; [by apply Hfr|].
      intros <-. pose proof (Hfr _ Ha) as Hnone. unfold loc in *. congruence.
    + intros i f Hf. destruct (Hc i f Hf) as [|(j & x & Hj & Ha & Ht & Hd)];
        [by left|]. right. rewrite Hns.
      destruct (decide (j = S c)) as [->|Hne].
      * exists (S c), (with_data x d). rewrite list_lookup_alter_eq, Hj. done.
      * exists j, x. by rewrite list_lookup_alter_ne.
  - intros Hex i Hi. destruct (Hex i Hi) as (j & x & Hj & Ht & Hf & Hd).
    rewrite Hns. destruct (decide (j = S c)) as [->|Hne].
    + exists (S c), (with_data x d). rewrite list_lookup_alter_eq, Hj. done.
    + exists j, x. by rewrite list_lookup_alter_ne.
Qed.

Lemma set_data_at_fmap (els : list elem) n d :
  (1 ≤ n)%Z →
  set_data_at (pair_of <$> els) n d
  = pair_of <$> alter (λ e, with_data e d) (Z.to_nat (n - 1)) els.
Proof.
  intros Hn. unfold set_data_at. destruct (Z.leb_spec 1 n); [|lia].
  apply list_eq. intros j.
  destruct (decide (j = Z.to_nat (n - 1))) as [->|Hne].
  - rewrite list_lookup_alter_eq, !list_lookup_fmap, list_lookup_alter_eq.
    by destruct (els !! Z.to_nat (n - 1)).
  - rewrite list_lookup_alter_ne by done.
    by rewrite !list_lookup_fmap, list_lookup_alter_ne.
Qed.

Lemma set_data_at_outside (kvs : list (key_type * data_type)) n d :
  (n < 1 ∨ Z.of_nat (length kvs) < n)%Z → set_data_at kvs n d = kvs.
Proof.
  intros Hn. unfold set_data_at. destruct (Z.leb_spec 1 n); [|done].
  apply list_eq. intros j.
  destruct (decide (j = Z.to_nat (n - 1))) as [->|Hne].
  - rewrite list_lookup_alter_eq.
    by rewrite (proj2 (lookup_ge_None kvs _)) by lia.
  - by rewrite list_lookup_alter_ne.
Qed.

Lemma SkipList_Indexed_Update_spec fuel p sl els n d :
  Inv p sl els → cache_exact sl (nodes (sl_header sl) els) →
  (sl_length sl < Z.of_nat fuel)%Z → n ≠ (sl_length sl + 1)%Z →
  ∃ p' sl' els',
    SkipList_Indexed_Update fuel p sl n d = Ok (p', sl') ∧
    Inv p' sl' els' ∧ cache_exact sl' (nodes (sl_header sl') els') ∧
    sl_length sl' = sl_length sl ∧
    pair_of <$> els' = set_data_at (pair_of <$> els) n d ∧
    ((n < 1 ∨ sl_length sl < n)%Z → p' = p) ∧
    Current_Random_Level p' = Current_Random_Level p ∧ brk p' = brk p ∧
    released p' = released p.
Proof.
  intros HI Hex Hfuel Hn.
  destruct (index_target fuel p sl els n HI Hex Hfuel)
    as (sl' & finger & Hrun & HI' & Hex' & Hln & Hfound).
  pose proof (inv_length _ _ _ HI) as Hlen.
  unfold SkipList_Indexed_Update. rewrite Hrun. step.
  destruct (Z.leb_spec 1 n) as [H1|H1];
    [destruct (Z.leb_spec n (sl_length sl + 1)) as [H2|H2]|]; cbn [andb].
  - destruct (Hfound ltac:(lia)) as (f0 & Hf0 & Hnx).
    rewrite Hf0. step. rewrite Hnx. step.
    destruct (els !! Z.to_nat (n - 1)) as [e|] eqn:He.
    2:{ apply lookup_ge_None in He. lia. }
    cbn [fmap option_fmap option_map].
    destruct (inv_nodes _ _ _ HI' (S (Z.to_nat (n - 1))) e He) as (Hmeta & _).
    apply meta_deref in Hmeta as (r & Hr & -> & _). step.
    destruct (update_data_Inv p sl' els _ e r d HI' He Hr) as [HI2 Hex2].
    eexists _, sl', _. split; [done|]. split; [exact HI2|].
    split; [by apply Hex2|]. split; [done|].
    split; [by rewrite set_data_at_fmap|]. split; [lia|done].
  - exists p, sl', els. do 4 (split; [done|]).
    split; [by rewrite set_data_at_outside by (rewrite length_fmap; lia)|done].
  - exists p, sl', els. do 4 (split; [done|]).
    split; [by rewrite set_data_at_outside by (rewrite length_fmap; lia)|done].
Qed.

(** ** Access by rank after a search by key *)

Lemma SkipList_Search_exact fuel p sl els k sl1 v :
  Inv p sl els → (sl_length sl < Z.of_nat fuel)%Z →
  SkipList_Search fuel p sl k = Ok (sl1, v) →
  Inv p sl1 els ∧ cache_exact sl1 (nodes (sl_header sl1) els) ∧
  sl_length sl1 = sl_length sl.
Proof.
  intros HI Hfuel Hrun.
  destruct (Search_by_Key_spec fuel p sl els k HI Hfuel)
    as (sl' & u & d & Hsearch & _).
  apply (Search_by_Key_exact fuel p sl els k sl1 u d HI Hfuel).
  rewrite Hsearch. f_equal. f_equal. f_equal.
  unfold SkipList_Search in Hrun. rewrite Hsearch in Hrun.
  cbn beta iota in Hrun. rewrite bind_Ok in Hrun. cbn beta iota in Hrun.
  destruct (local_get u 0) as [f0| |]; [|done..]. rewrite bind_Ok in Hrun.
  destruct (get_forward (heap p) f0 0) as [[x|]| |]; [| |done..];
    rewrite bind_Ok in Hrun; [|by injection Hrun].
  destruct (deref (heap p) x) as [ex| |]; [|done..]. rewrite bind_Ok in Hrun.
  by destruct (negb _); injection Hrun.
Qed.

Lemma indexed_keys_spec fuel p els ranks :
  ∀ sl,
  Inv p sl els → cache_exact sl (nodes (sl_header sl) els) →
  (sl_length sl < Z.of_nat fuel)%Z →
  Forall (λ n, n ≠ (sl_length sl + 1)%Z) ranks →
  ∃ sl', indexed_keys fuel p sl ranks
         = Ok (sl', key_at (pair_of <$> els) <$> ranks).
Proof.
  induction ranks as [|n ranks IH]; intros sl HI Hex Hfuel Hr.
  { by exists sl. }
  apply Forall_cons in Hr as [Hn Hr]. cbn [indexed_keys].
  destruct (SkipList_Indexed_Key_spec fuel p sl els n HI Hex Hfuel Hn)
    as (sl1 & -> & HI1 & Hex1 & Hln1). step.
  destruct (IH sl1 HI1 Hex1) as (sl2 & ->); [by rewrite Hln1..|].
  step. by exists sl2.
Qed.


Lemma data_at_set (kvs : list (key_type * data_type)) n d :
  (1 ≤ n ≤ Z.of_nat (length kvs))%Z → data_at (set_data_at kvs n d) n = d.
Proof.
  intros Hn. unfold data_at, set_data_at. destruct (Z.leb_spec 1 n); [|lia].
  rewrite list_lookup_fmap, list_lookup_alter_eq.
  destruct (kvs !! Z.to_nat (n - 1)) as [kv|] eqn:Hkv; [done|].
  apply lookup_ge_None in Hkv. lia.
Qed.


(** ** Destruction *)

Lemma first_tall_0 (l : list elem) :
  (∀ e, e ∈ l → tall 0 e) → first_tall 0 l = a_loc <$> l !! 0.
Proof.
  destruct l as [|x l]; [done|]. intros Hx. cbn [first_tall].
  rewrite decide_True; [done|]. apply Hx. left.
Qed.

Lemma Inv_level0 p sl els :
  Inv p sl els → level0_ok (heap p) (sl_header sl) els.
Proof.
  intros HI. pose proof (inv_heights _ _ _ HI) as Hh.
  assert (∀ k e, e ∈ drop k els → tall 0 e) as Htall.
  { intros k e He. apply subseteq_drop, Hh in He. unfold tall. lia. }
  split; [apply (inv_nodup _ _ _ HI)|]. split.
  - destruct (inv_nodes _ _ _ HI 0 (header_elem (sl_header sl)) eq_refl)
      as (_ & Hf & _).
    specialize (Hf 0 MAX_LEVEL_pos). cbn [a_loc header_elem] in Hf.
    rewrite Hf. f_equal. change (drop 1 (nodes (sl_header sl) els)) with (drop 0 els).
    by rewrite first_tall_0 by apply Htall.
  - intros j e He.
    destruct (inv_nodes _ _ _ HI (S j) e He) as (Hm & Hf & _). split.
    + apply meta_deref in Hm as (r & ? & _ & ? & ? & _). eauto.
    + rewrite (Hf 0).
      2:{ apply list_elem_of_lookup_2, Hh in He. lia. }
      f_equal. change (drop (S (S j)) (nodes (sl_header sl) els))
        with (drop (S j) els).
      rewrite first_tall_0 by apply Htall. rewrite lookup_drop. f_equal.
      f_equal. lia.
Qed.

Lemma set_forward_frame h a i x h' :
  set_forward h a i x = Ok h' → ∀ b, b ≠ a → h' !! b = h !! b.
Proof.
  unfold set_forward. destruct (deref h a) as [e| |]; [|done..].
  rewrite bind_Ok. destruct (store (e_forward e) i x) as [fw| |]; [|done..].
  rewrite bind_Ok. intros [= <-] b Hb. by rewrite lookup_insert_ne.
Qed.

Lemma free_while_spec hd R :
  ∀ fuel p, level0_ok (heap p) hd R → length R < fuel →
  ∃ p', free_while fuel p hd = Ok p' ∧
    released p' = released p ++ (pair_of <$> R) ∧
    (∀ e, e ∈ R → heap p' !! a_loc e = None) ∧
    (∀ a, a ≠ hd → a ∉ (a_loc <$> R) → heap p' !! a = heap p !! a) ∧
    is_Some (heap p' !! hd) ∧
    brk p' = brk p ∧ Current_Random_Level p' = Current_Random_Level p.
Proof.
  induction R as [|e R IH]; intros fuel p (Hnd & Hhd & Hnodes) Hfuel;
    (destruct fuel as [|fuel]; [simpl in Hfuel; lia|]); cbn [free_while].
  - rewrite (get_forward_fwd _ _ _ _ Hhd). step. exists p.
    split; [done|]. split; [by rewrite app_nil_r|].
    split; [by intros e He; apply elem_of_nil in He|]. split; [done|].
    split; [|done]. unfold fwd in Hhd. by destruct (heap p !! hd).
  - change (a_loc <$> (e :: R) !! 0) with (Some (a_loc e)) in Hhd.
    rewrite (get_forward_fwd _ _ _ _ Hhd). step.
    destruct (Hnodes 0 e eq_refl) as ((r & Hr & Hk & Hd) & Hfe).
    change (a_loc <$> (e :: R) !! 1) with (a_loc <$> R !! 0) in Hfe.
    rewrite (get_forward_fwd _ _ _ _ Hfe). step.
    destruct (set_forward_spec (heap p) hd 0 (a_loc <$> R !! 0) _ Hhd)
      as (h1 & Hset & _ & _ & Hf1).
    rewrite Hset. step.
    apply NoDup_cons in Hnd as [Hhdn Hnd'].
    assert (a_loc e ≠ hd) as Hne.
    { intros Heq. apply Hhdn. rewrite <-Heq. left. }
    pose proof (set_forward_frame _ _ _ _ _ Hset) as Hframe.
    unfold deref. rewrite (Hframe _ Hne), Hr. step.
    set (p1 := mkProcess _ _ _ _).
    cbn [fmap list_fmap] in Hnd'. apply NoDup_cons in Hnd' as [HeR HndR].
    destruct (IH fuel p1) as (p' & Hrun & Hrel & Hfreed & Hkeep & Hsome & Hb & Hc).
    { split; [|split].
      - apply NoDup_cons. split; [|done]. intros Hin. apply Hhdn. by right.
      - cbn [heap p1]. destruct (cells_delete h1 (a_loc e)) as (_ & -> & _).
        rewrite decide_False by done. rewrite Hf1.
        by rewrite decide_True by done.
      - intros j x Hx. cbn [heap p1].
        assert (a_loc x ≠ a_loc e) as Hxe.
        { intros Heq. apply HeR. rewrite <-Heq. apply list_elem_of_fmap.
          exists x. split; [done|]. by eapply list_elem_of_lookup_2. }
        assert (a_loc x ≠ hd) as Hxh.
        { intros Heq. apply Hhdn. right. rewrite <-Heq. apply list_elem_of_fmap.
          exists x. split; [done|]. by eapply list_elem_of_lookup_2. }
        destruct (Hnodes (S j) x Hx) as (Hrx & Hfx). split.
        + rewrite lookup_delete_ne by done. by rewrite (Hframe _ Hxh).
        + destruct (cells_delete h1 (a_loc e)) as (_ & -> & _).
          rewrite decide_False by done. rewrite Hf1.
          rewrite decide_False; [done|]. by intros [? _]. }
    { simpl in Hfuel. lia. }
    exists p'. split; [done|]. split.
    { rewrite Hrel. cbn [released p1 fmap list_fmap pair_of].
      by rewrite <-app_assoc, Hk, Hd. }
    split.
    { intros x Hx. apply elem_of_cons in Hx as [->|Hx]; [|by apply Hfreed].
      rewrite (Hkeep _ Hne HeR). cbn [heap p1]. apply lookup_delete_eq. }
    split.
    { intros a Ha HaR. rewrite Hkeep; [|done|].
      - cbn [heap p1]. rewrite lookup_delete_ne; [by apply Hframe|].
        intros <-. apply HaR. left.
      - intros Hin. apply HaR. by right. }
    done.
Qed.

Lemma SkipList_Free_spec fuel p sl els :
  Inv p sl els → (sl_length sl < Z.of_nat fuel)%Z →
  ∃ p', SkipList_Free fuel p sl = Ok p' ∧
    released p' = released p ++ (pair_of <$> els) ∧
    (∀ a, a ∈ a_loc <$> nodes (sl_header sl) els → heap p' !! a = None) ∧
    (∀ a, a ∉ a_loc <$> nodes (sl_header sl) els →
       heap p' !! a = heap p !! a) ∧
    brk p' = brk p ∧ Current_Random_Level p' = Current_Random_Level p.
Proof.
  intros HI Hfuel. rewrite (inv_length _ _ _ HI) in Hfuel.
  destruct (free_while_spec (sl_header sl) els fuel p (Inv_level0 p sl els HI)
              ltac:(lia))
    as (p1 & Hrun & Hrel & Hfreed & Hkeep & [r Hr] & Hb & Hc).
  unfold SkipList_Free. rewrite Hrun. step. unfold deref. rewrite Hr. step.
  eexists. split; [done|]. cbn [released heap brk Current_Random_Level].
  split; [done|]. split; [|split; [|done]].
  - intros a Ha. cbn [nodes fmap list_fmap header_elem a_loc] in Ha.
    apply elem_of_cons in Ha as [->|Ha]; [apply lookup_delete_eq|].
    destruct (decide (a = sl_header sl)) as [->|Hne];
      [apply lookup_delete_eq|]. rewrite lookup_delete_ne by done.
    apply list_elem_of_fmap in Ha as (e & -> & He). by apply Hfreed.
  - intros a Ha. cbn [nodes fmap list_fmap header_elem a_loc] in Ha.
    apply not_elem_of_cons in Ha as [Hne Ha].
    rewrite lookup_delete_ne by done. by apply Hkeep.
Qed.

(** X13. [SkipList_Free] in a reachable state: the cleanup routine is
    called once on every pair of the container, in iteration order; the
    records of the header and of every element are released; no other
    record is touched, and the level counter is left as it is. *)
Theorem X13_free_releases_all p sl fuel kvs locs :
  reachable p sl → (sl_length sl < Z.of_nat fuel)%Z →
  SkipList_Iterate fuel p sl = Ok kvs →
  chain fuel (heap p) 0 (sl_header sl) = Ok locs →
  ∃ p', SkipList_Free fuel p sl = Ok p' ∧
    released p' = released p ++ kvs ∧
    (∀ a, a ∈ locs → heap p' !! a = None) ∧
    (∀ a, a ∉ locs → heap p' !! a = heap p !! a) ∧
    brk p' = brk p ∧ Current_Random_Level p' = Current_Random_Level p.
Proof.
  intros Hr Hfuel Hit Hch. destruct (reachable_Inv p sl Hr) as [els HI].
  rewrite (SkipList_Iterate_spec fuel p sl els HI Hfuel) in Hit.
  injection Hit as <-.
  pose proof (chain_0_spec p sl els HI fuel 0 (header_elem (sl_header sl))
                eq_refl) as Hch0.
  cbn [a_loc header_elem] in Hch0. rewrite Hch0 in Hch.
  2:{ rewrite (inv_length _ _ _ HI) in Hfuel. simpl. lia. }
  injection Hch as <-.
  apply (SkipList_Free_spec fuel p sl els HI Hfuel).
Qed.

Lemma X13_free_releases_all_witness :
  ∃ p', SkipList_Free 5 st_four.1 st_four.2 = Ok p' ∧
    released p' = released st_four.1 ++ [(1, 10); (2, 20); (3, 30); (4, 40)]%Z ∧
    (∀ a, a ∈ [1; 2; 3; 4; 5]%positive → heap p' !! a = None) ∧
    (∀ a, a ∉ [1; 2; 3; 4; 5]%positive → heap p' !! a = heap st_four.1 !! a) ∧
    brk p' = brk st_four.1 ∧
    Current_Random_Level p' = Current_Random_Level st_four.1.
Proof.
  apply (X13_free_releases_all st_four.1 st_four.2 5).
  - apply st_four_reachable.
  - vm_compute. reflexivity.
  - vm_compute. reflexivity.
  - vm_compute. reflexivity.
Defined.

(** ** What the operations do to the fields of the container *)

Lemma key_levels_fields fuel h k n :
  ∀ sl finger delta f last sl' u d,
  key_levels fuel h k n sl finger delta f last = Ok (sl', u, d) →
  sl_level sl' = sl_level sl ∧ sl_header sl' = sl_header sl ∧
  sl_length sl' = sl_length sl ∧ Member_Compare sl' = Member_Compare sl.
Proof.
  induction n as [|n IH]; intros sl finger delta f last sl' u d H;
    cbn [key_levels] in H.
  { by injection H as <- _ _. }
  apply bind_Ok_inv in H as (cf & _ & H).
  apply bind_Ok_inv in H as (ce & _ & H).
  apply bind_Ok_inv in H as ([f1 d1] & _ & H).
  apply bind_Ok_inv in H as ([f2 d2] & _ & H).
  apply bind_Ok_inv in H as (fg & _ & H).
  apply bind_Ok_inv in H as (finger' & _ & H).
  apply bind_Ok_inv in H as (ds & _ & H).
  apply bind_Ok_inv in H as (delta' & _ & H).
  by apply IH in H.
Qed.

Lemma SkipList_Insert_fields fuel p sl k m p' sl' :
  SkipList_Insert fuel p sl k m = Ok (p', sl') →
  sl_level sl'
  = sl_level sl `max` (Choose_Random_Level (Current_Random_Level p)).1 ∧
  sl_header sl' = sl_header sl ∧ sl_length sl' = (sl_length sl + 1)%Z.
Proof.
  unfold SkipList_Insert. intros H.
  apply bind_Ok_inv in H as ([[sl1 u] d] & Hs & H).
  apply key_levels_fields in Hs as (Hlv & Hhd & Hln & _).
  apply bind_Ok_inv in H as (u0 & _ & H).
  apply bind_Ok_inv in H as (nx & _ & H).
  destruct (Choose_Random_Level (Current_Random_Level p)) as [nl c].
  cbn [fst].
  apply bind_Ok_inv in H as ([[[h2 u2] d2] level2] & Hgrow & H).
  unfold MakeNode in H. cbn [heap brk Current_Random_Level released] in H.
  apply bind_Ok_inv in H as (h4 & _ & H).
  apply bind_Ok_inv in H as (h5 & _ & H).
  apply bind_Ok_inv in H as (h6 & _ & H).
  injection H as <- <-. cbn [sl_level sl_header sl_length].
  split; [|by rewrite Hhd, Hln].
  destruct (decide (sl_level sl1 < nl)) as [Hlt|Hge].
  - apply bind_Ok_inv in Hgrow as ([[h' u'] d'] & _ & Hgrow).
    injection Hgrow as _ _ _ <-. lia.
  - injection Hgrow as _ _ _ <-. lia.
Qed.

Lemma SkipList_Delete_fields fuel p sl k p' sl' d :
  SkipList_Delete fuel p sl k = Ok (p', sl', d) →
  sl_header sl' = sl_header sl ∧
  ((d = 0%Z ∧ p' = p ∧ sl_level sl' = sl_level sl) ∨
   (d = 1%Z ∧
    shrink_level (heap p') (sl_header sl) (sl_level sl) = Ok (sl_level sl'))).
Proof.
  unfold SkipList_Delete. intros H.
  apply bind_Ok_inv in H as ([[sl1 u] dl] & Hs & H).
  apply key_levels_fields in Hs as (Hlv & Hhd & Hln & _).
  apply bind_Ok_inv in H as (u0 & _ & H).
  apply bind_Ok_inv in H as (nx & _ & H).
  destruct nx as [n|].
  2:{ injection H as <- <- <-. split; [done|]. by left. }
  apply bind_Ok_inv in H as (en & _ & H).
  destruct (Member_Compare sl1 (e_key en) k =? 0)%Z.
  2:{ injection H as <- <- <-. split; [done|]. by left. }
  apply bind_Ok_inv in H as (h1 & _ & H).
  apply bind_Ok_inv in H as (en' & _ & H).
  cbn zeta in H.
  apply bind_Ok_inv in H as (x & _ & H).
  apply bind_Ok_inv in H as (level' & Hsh & H).
  injection H as <- <- <-. cbn [sl_level sl_header heap].
  split; [done|]. right. split; [done|].
  cbn [heap] in Hsh. by rewrite <-Hhd, <-Hlv.
Qed.

Lemma shrink_level_top h hd L L' :
  shrink_level h hd L = Ok L' →
  L' ≤ 1 ∨ ∃ x, get_forward h hd (L' - 1) = Ok (Some x).
Proof.
  induction L as [|L IH]; cbn [shrink_level].
  { intros [= <-]. left. lia. }
  destruct L as [|l].
  { intros [= <-]. left. lia. }
  intros H. apply bind_Ok_inv in H as (x & Hx & H).
  destruct x as [x|].
  - injection H as <-. right. exists x.
    by replace (S (S l) - 1) with (S l) by lia.
  - by apply IH.
Qed.

(** ** The levels in use *)

Lemma header_forward p sl els i :
  Inv p sl els → i < MAX_LEVEL →
  get_forward (heap p) (sl_header sl) i = Ok (first_tall i els).
Proof.
  intros HI Hi.
  destruct (inv_nodes _ _ _ HI 0 (header_elem (sl_header sl)) eq_refl)
    as (_ & Hf & _).
  specialize (Hf i Hi). cbn [a_loc header_elem] in Hf.
  by apply get_forward_fwd.
Qed.

Lemma first_tall_is_Some i (els : list elem) e :
  e ∈ els → tall i e → is_Some (first_tall i els).
Proof.
  intros He Ht. destruct (first_tall i els) eqn:Hf; [done|].
  apply list_elem_of_lookup in He as (j & Hj).
  by destruct (first_tall_None _ _ Hf j e Hj).
Qed.

(** X14. The levels in use: in every reachable state the level of the
    container is between 1 and [MAX_LEVEL], the header has no successor on
    the levels from [sl_level] on, and it has one on the highest level in
    use unless that is level 1. *)
Theorem X14_levels_in_use p sl :
  reachable p sl →
  1 ≤ sl_level sl ≤ MAX_LEVEL ∧
  (∀ i, sl_level sl ≤ i < MAX_LEVEL →
     get_forward (heap p) (sl_header sl) i = Ok None) ∧
  (sl_level sl = 1 ∨
   ∃ x, get_forward (heap p) (sl_header sl) (sl_level sl - 1) = Ok (Some x)).
Proof.
  intros Hr. destruct (reachable_Inv p sl Hr) as [els HI].
  split; [apply (inv_level _ _ _ HI)|]. split.
  { intros i Hi. rewrite (header_forward p sl els i HI) by lia. f_equal.
    destruct (first_tall i els) as [a|] eqn:Hf; [|done].
    apply first_tall_Some in Hf as (m & e & Hm & _ & Ht & _).
    apply list_elem_of_lookup_2, (inv_heights _ _ _ HI) in Hm.
    unfold tall in Ht. lia. }
  clear els HI.
  induction Hr as [p c Hfr Hc|fuel p sl k m p' sl' Hr IH Hop
    |fuel p sl k p' sl' d Hr IH Hop|fuel p sl k sl' v Hr IH Hop].
  - by left.
  - destruct (reachable_Inv p sl Hr) as [els HI].
    pose proof (SkipList_Insert_fields _ _ _ _ _ _ _ Hop) as (Hlv & Hhd & _).
    destruct (SkipList_Insert_spec (fuel `max` enough sl) p sl els k m HI)
      as (p2 & sl2 & Hrun & HI2 & _); [pose proof (enough_lt sl); lia|].
    apply (SkipList_Insert_mono _ (fuel `max` enough sl)) in Hop; [|lia].
    rewrite Hrun in Hop. injection Hop as <- <-.
    pose proof (inv_level _ _ _ HI) as Hl.
    pose proof (inv_level _ _ _ HI2) as Hl2.
    pose proof (Choose_Random_Level_range (Current_Random_Level p)) as [Hnl _].
    set (nl := (Choose_Random_Level (Current_Random_Level p)).1) in *.
    set (c := key_rank (Member_Compare sl) k els) in *.
    right. rewrite (header_forward p2 sl2 _ _ HI2) by lia.
    assert (∃ e, e ∈ take c els ++ mkElem (brk p) k m nl :: drop c els ∧
              tall (sl_level sl2 - 1) e) as (e & He & Ht).
    { destruct (decide (sl_level sl ≤ nl)) as [Hle|Hgt].
      - exists (mkElem (brk p) k m nl). split.
        + apply elem_of_app. right. left.
        + unfold tall. cbn [a_height]. lia.
      - destruct IH as [H1|[x Hx]]; [lia|].
        rewrite (header_forward p sl els _ HI) in Hx by lia.
        injection Hx as Hx.
        apply first_tall_Some in Hx as (j & e & Hj & _ & Ht & _).
        exists e. split.
        + apply list_elem_of_lookup_2 in Hj.
          rewrite <-(take_drop c els) in Hj.
          apply elem_of_app in Hj as [Hj|Hj]; apply elem_of_app;
            [by left|right; by right].
        + by replace (sl_level sl2) with (sl_level sl) by lia. }
    destruct (first_tall_is_Some _ _ e He Ht) as [x ->]. eauto.
  - destruct (reachable_Inv p' sl' (reach_delete _ _ _ _ _ _ _ Hr Hop))
      as [els' HI'].
    pose proof (inv_level _ _ _ HI') as Hl'.
    destruct (SkipList_Delete_fields _ _ _ _ _ _ _ Hop)
      as (Hhd & [(_ & -> & Hlv)|(_ & Hsh)]).
    + by rewrite Hhd, Hlv.
    + apply shrink_level_top in Hsh as [?|[x Hx]]; [left; lia|].
      right. exists x. by rewrite Hhd.
  - destruct (reachable_Inv p sl Hr) as [els HI].
    apply (SkipList_Search_mono _ (fuel `max` enough sl)) in Hop; [|lia].
    destruct (SkipList_Search_spec (fuel `max` enough sl) p sl els k HI)
      as (sl2 & Hrun & _ & _ & Hhd & Hlv & _); [pose proof (enough_lt sl); lia|].
    rewrite Hrun in Hop. injection Hop as <- _. by rewrite Hhd, Hlv.
Qed.

Lemma X14_levels_in_use_witness :
  1 ≤ sl_level st_four.2 ≤ MAX_LEVEL ∧
  (∀ i, sl_level st_four.2 ≤ i < MAX_LEVEL →
     get_forward (heap st_four.1) (sl_header st_four.2) i = Ok None) ∧
  (sl_level st_four.2 = 1 ∨
   ∃ x, get_forward (heap st_four.1) (sl_header st_four.2)
          (sl_level st_four.2 - 1) = Ok (Some x)).
Proof. apply X14_levels_in_use, st_four_reachable. Defined.

(** ** Memory safety *)

(** X15. No operation goes wrong in a reachable state: with fuel for one
    more loop round than the container has elements, insertion, deletion,
    search, iteration and destruction return; none dereferences a null or
    released pointer or leaves the bounds of an array. *)
Theorem X15_operations_return p sl fuel k m :
  reachable p sl → (sl_length sl < Z.of_nat fuel)%Z →
  (∃ r, SkipList_Insert fuel p sl k m = Ok r) ∧
  (∃ r, SkipList_Delete fuel p sl k = Ok r) ∧
  (∃ r, SkipList_Search fuel p sl k = Ok r) ∧
  (∃ r, SkipList_Iterate fuel p sl = Ok r) ∧
  (∃ r, SkipList_Free fuel p sl = Ok r).
Proof.
  intros Hr Hfuel. destruct (reachable_Inv p sl Hr) as [els HI].
  split; [|split; [|split; [|split]]].
  - destruct (SkipList_Insert_spec fuel p sl els k m HI Hfuel)
      as (p' & sl' & -> & _). eauto.
  - destruct (els !! key_rank (Member_Compare sl) k els) as [e|] eqn:He.
    + destruct (decide (Member_Compare sl (a_key e) k = 0%Z)) as [Heq|Hne].
      * destruct (SkipList_Delete_present fuel p sl els k e HI Hfuel He Heq)
          as (p' & sl' & -> & _). eauto.
      * destruct (SkipList_Delete_absent fuel p sl els k HI Hfuel)
          as (sl' & -> & _); [|eauto]. intros e' He'. by simplify_eq.
    + destruct (SkipList_Delete_absent fuel p sl els k HI Hfuel)
        as (sl' & -> & _); [|eauto]. intros e' He'. by simplify_eq.
  - destruct (SkipList_Search_spec fuel p sl els k HI Hfuel)
      as (sl' & -> & _). eauto.
  - rewrite (SkipList_Iterate_spec fuel p sl els HI Hfuel). eauto.
  - destruct (SkipList_Free_spec fuel p sl els HI Hfuel) as (p' & -> & _).
    eauto.
Qed.

Lemma X15_operations_return_witness :
  (∃ r, SkipList_Insert 5 st_four.1 st_four.2 3 33 = Ok r) ∧
  (∃ r, SkipList_Delete 5 st_four.1 st_four.2 3 = Ok r) ∧
  (∃ r, SkipList_Search 5 st_four.1 st_four.2 3 = Ok r) ∧
  (∃ r, SkipList_Iterate 5 st_four.1 st_four.2 = Ok r) ∧
  (∃ r, SkipList_Free 5 st_four.1 st_four.2 = Ok r).
Proof.
  apply (X15_operations_return st_four.1 st_four.2 5 3%Z 33%Z);
    [apply st_four_reachable|].
  vm_compute. reflexivity.
Defined.

(** ** The accounts of an insertion *)

(** X16. An insertion in a reachable state allocates one record, at the
    frontier, with the key, the data and the level that
    [Choose_Random_Level] gives for the current counter; it adds one to the
    length and to the counter, raises the level of the container to the
    level of the node when that one is higher, and calls no cleanup
    routine. *)
Theorem X16_insert_accounts p sl fuel k m :
  reachable p sl → (sl_length sl < Z.of_nat fuel)%Z →
  ∃ p' sl' r,
    SkipList_Insert fuel p sl k m = Ok (p', sl') ∧
    deref (heap p') (brk p) = Ok r ∧
    e_key r = k ∧ e_data r = m ∧
    e_height r = (Choose_Random_Level (Current_Random_Level p)).1 ∧
    brk p' = Pos.succ (brk p) ∧
    SkipList_Length sl' = (SkipList_Length sl + 1)%Z ∧
    Current_Random_Level p' = (Current_Random_Level p + 1)%Z ∧
    sl_level sl'
    = sl_level sl `max` (Choose_Random_Level (Current_Random_Level p)).1 ∧
    released p' = released p.
Proof.
  intros Hr Hfuel. destruct (reachable_Inv p sl Hr) as [els HI].
  destruct (SkipList_Insert_spec fuel p sl els k m HI Hfuel)
    as (p' & sl' & Hrun & HI' & _ & _ & Hc & Hb & Hrel).
  destruct (SkipList_Insert_fields _ _ _ _ _ _ _ Hrun) as (Hlv & _ & Hln).
  set (c := key_rank (Member_Compare sl) k els) in *.
  pose proof (key_rank_le (Member_Compare sl) k els) as Hcle. fold c in Hcle.
  destruct (inv_nodes _ _ _ HI' (S c)
    (mkElem (brk p) k m (Choose_Random_Level (Current_Random_Level p)).1))
    as (Hmeta & _).
  { rewrite nodes_lookup_S, lookup_app_r by (rewrite length_take; lia).
    rewrite length_take.
    by replace (c - c `min` length els) with 0 by lia. }
  apply meta_deref in Hmeta as (r & _ & Hd & ? & ? & ? & _).
  cbn [a_loc a_key a_data a_height] in *.
  exists p', sl', r. by do 9 (split; [done|]).
Qed.

Lemma X16_insert_accounts_witness :
  ∃ p' sl' r,
    SkipList_Insert 5 st_four.1 st_four.2 3 33 = Ok (p', sl') ∧
    deref (heap p') (brk st_four.1) = Ok r ∧
    e_key r = 3%Z ∧ e_data r = 33%Z ∧
    e_height r = (Choose_Random_Level (Current_Random_Level st_four.1)).1 ∧
    brk p' = Pos.succ (brk st_four.1) ∧
    SkipList_Length sl' = (SkipList_Length st_four.2 + 1)%Z ∧
    Current_Random_Level p' = (Current_Random_Level st_four.1 + 1)%Z ∧
    sl_level sl'
    = sl_level st_four.2
      `max` (Choose_Random_Level (Current_Random_Level st_four.1)).1 ∧
    released p' = released st_four.1.
Proof.
  apply (X16_insert_accounts st_four.1 st_four.2 5 3%Z 33%Z);
    [apply st_four_reachable|].
  vm_compute. reflexivity.
Defined.

(** ** Insertion and deletion *)

(** X17. An insertion followed by a deletion of the same key takes out the
    pair that was put in: the deletion returns 1, hands the new pair to the
    cleanup routine, and the iteration and the length are those from before
    the insertion, whatever pairs with an equal key the container holds. *)
Theorem X17_insert_delete p sl fuel k v kvs :
  reachable p sl → (sl_length sl + 1 < Z.of_nat fuel)%Z →
  SkipList_Iterate fuel p sl = Ok kvs →
  ∃ p1 sl1 p2 sl2,
    SkipList_Insert fuel p sl k v = Ok (p1, sl1) ∧
    SkipList_Delete fuel p1 sl1 k = Ok (p2, sl2, 1%Z) ∧
    SkipList_Iterate fuel p2 sl2 = Ok kvs ∧
    SkipList_Length sl2 = SkipList_Length sl ∧
    released p2 = released p ++ [(k, v)].
Proof.
  intros Hr Hfuel Hit. destruct (reachable_Inv p sl Hr) as [els HI].
  rewrite (SkipList_Iterate_spec fuel p sl els HI ltac:(lia)) in Hit.
  injection Hit as <-.
  pose proof (inv_cmp _ _ _ HI) as Hcmp.
  set (c := key_rank (Member_Compare sl) k els).
  pose proof (key_rank_le (Member_Compare sl) k els) as Hcle. fold c in Hcle.
  destruct (SkipList_Insert_spec fuel p sl els k v HI ltac:(lia))
    as (p1 & sl1 & Hins & HI1 & Hcmp1 & _ & _ & _ & Hrel1). fold c in HI1.
  set (new := mkElem (brk p) k v
                (Choose_Random_Level (Current_Random_Level p)).1) in *.
  pose proof (inv_length _ _ _ HI) as Hlen.
  pose proof (inv_length _ _ _ HI1) as Hlen1.
  rewrite length_app in Hlen1. cbn [length] in Hlen1.
  rewrite length_take, length_drop in Hlen1.
  assert (key_rank (Member_Compare sl1) k (take c els ++ new :: drop c els)
          = c) as Hrank.
  { rewrite Hcmp1, key_rank_app.
    - cbn [key_rank a_key new]. rewrite (comparator_refl _ k Hcmp). simpl.
      rewrite length_take. lia.
    - intros x Hx. apply elem_of_take in Hx as (j & Hj & Hlt).
      by apply (key_rank_lt _ k els j). }
  destruct (SkipList_Delete_present fuel p1 sl1 _ k new HI1 ltac:(lia))
    as (p2 & sl2 & Hdel & HI2 & _ & _ & _ & _ & _ & Hrel2).
  { rewrite Hrank, lookup_app_r by (rewrite length_take; lia).
    rewrite length_take. by replace (c - c `min` length els) with 0 by lia. }
  { rewrite Hcmp1. by apply comparator_refl. }
  rewrite Hrank in HI2.
  assert (take c (take c els ++ new :: drop c els)
          ++ drop (S c) (take c els ++ new :: drop c els) = els) as Hels.
  { rewrite take_app_le by (rewrite length_take; lia).
    rewrite take_take, Nat.min_id.
    rewrite drop_app_ge by (rewrite length_take; lia).
    rewrite length_take.
    replace (S c - c `min` length els) with 1 by lia.
    cbn [drop]. rewrite drop_0. apply take_drop. }
  rewrite Hels in HI2.
  pose proof (inv_length _ _ _ HI2) as Hlen2.
  exists p1, sl1, p2, sl2. do 2 (split; [done|]). split.
  { apply SkipList_Iterate_spec; [done|lia]. }
  split; [unfold SkipList_Length; lia|]. by rewrite Hrel2, Hrel1.
Qed.

Lemma X17_insert_delete_witness :
  ∃ p1 sl1 p2 sl2,
    SkipList_Insert 5 st_dup.1 st_dup.2 1 12 = Ok (p1, sl1) ∧
    SkipList_Delete 5 p1 sl1 1 = Ok (p2, sl2, 1%Z) ∧
    SkipList_Iterate 5 p2 sl2 = Ok [(1, 11); (1, 10)]%Z ∧
    SkipList_Length sl2 = SkipList_Length st_dup.2 ∧
    released p2 = released st_dup.1 ++ [(1, 12)]%Z.
Proof.
  apply (X17_insert_delete st_dup.1 st_dup.2 5 1%Z 12%Z).
  - apply st_dup_reachable.
  - vm_compute. reflexivity.
  - vm_compute. reflexivity.
Defined.

(** ** The search by rank and its cache *)

Lemma index_levels_nocache_spec h level hd els n c fuel m :
  (∀ j e, nodes hd els !! j = Some e →
     node_ok h level e (drop (S j) (nodes hd els))) →
  (∀ j, 1 ≤ j ≤ length els → (Z.of_nat j < n)%Z ↔ j ≤ c) →
  level ≤ MAX_LEVEL →
  ∀ (finger : list (option loc)) f place js es,
  m ≤ level → length finger = MAX_LEVEL →
  nodes hd els !! js = Some es → a_loc es = f → place = Z.of_nat js →
  js ≤ c → m ≤ a_height es → c < fuel →
  ∃ finger' place',
    index_levels_nocache fuel h n m finger f place = Ok (finger', place') ∧
    (0 < m → place' = Z.of_nat (fpos (nodes hd els) 0 c)) ∧
    (∀ i, i < m → ∃ e, nodes hd els !! fpos (nodes hd els) i c = Some e ∧
       finger' !! i = Some (Some (a_loc e))) ∧
    (∀ i, m ≤ i → finger' !! i = finger !! i).
Proof.
  intros Hnodes Hin Hlevel.
  induction m as [|current IH];
    intros finger f place js es Hm Hlf Hjs Hf Hplace Hjsc Hes Hfuel.
  { exists finger, place. split; [done|]. split; [lia|]. split; [lia|done]. }
  cbn [index_levels_nocache]. subst f place.
  destruct (index_while_spec h level hd els Hnodes n c Hin fuel js es current
    Hjs ltac:(unfold tall; lia) ltac:(lia) Hjsc ltac:(lia))
    as (e' & He' & Ht' & ->). step.
  unfold local_set. rewrite (store_Ok finger) by lia. step.
  pose proof (fpos_le (nodes hd els) current c) as Hfle.
  destruct (IH (<[current:=Some (a_loc e')]> finger)
    (a_loc e') (Z.of_nat (fpos (nodes hd els) current c))
    (fpos (nodes hd els) current c) e')
    as (finger' & place' & Hrun & Hplace' & Hbelow & Habove);
    try done; try lia; try (by rewrite length_insert).
  { unfold tall in Ht'. lia. }
  exists finger', place'. split; [done|]. split; [|split].
  - intros _. destruct current as [|current'].
    + cbn [index_levels_nocache] in Hrun. by injection Hrun as _ <-.
    + apply Hplace'. lia.
  - intros i Hi. destruct (decide (i = current)) as [->|Hne].
    + exists e'. rewrite (Habove current) by lia.
      by rewrite list_lookup_insert_eq by lia.
    + apply Hbelow. lia.
  - intros i Hi. rewrite (Habove i) by lia.
    by rewrite list_lookup_insert_ne by lia.
Qed.


(** ** The operations on the list of pairs *)

Lemma kv_insert_rank cmp k v (els : list elem) new :
  pair_of new = (k, v) →
  pair_of <$> (take (key_rank cmp k els) els
               ++ new :: drop (key_rank cmp k els) els)
  = kv_insert cmp k v (pair_of <$> els).
Proof.
  intros Hnew. induction els as [|x els IH].
  { cbn. by rewrite Hnew. }
  cbn [key_rank fmap list_fmap kv_insert pair_of fst].
  destruct (cmp k (a_key x) >? 0)%Z.
  - cbn [take drop app fmap list_fmap]. f_equal. apply IH.
  - cbn [take drop app fmap list_fmap]. by rewrite Hnew.
Qed.

Lemma kv_delete_present cmp k (els : list elem) e :
  els !! key_rank cmp k els = Some e → cmp (a_key e) k = 0%Z →
  pair_of <$> (take (key_rank cmp k els) els
               ++ drop (S (key_rank cmp k els)) els)
  = kv_delete cmp k (pair_of <$> els).
Proof.
  induction els as [|x els IH]; [done|].
  cbn [key_rank fmap list_fmap kv_delete pair_of fst].
  destruct (cmp k (a_key x) >? 0)%Z.
  - cbn [lookup list_lookup take drop app fmap list_fmap]. intros He Heq.
    f_equal. by apply IH.
  - cbn [lookup list_lookup take drop app]. intros [= <-] ->.
    by rewrite drop_0.
Qed.

Lemma kv_delete_absent cmp k (els : list elem) :
  (∀ e, els !! key_rank cmp k els = Some e → cmp (a_key e) k ≠ 0%Z) →
  kv_delete cmp k (pair_of <$> els) = pair_of <$> els.
Proof.
  induction els as [|x els IH]; [done|].
  cbn [key_rank fmap list_fmap kv_delete pair_of fst].
  destruct (cmp k (a_key x) >? 0)%Z.
  - cbn [lookup list_lookup]. intros Hne. f_equal. by apply IH.
  - cbn [lookup list_lookup]. intros Hne.
    destruct (Z.eqb_spec (cmp (a_key x) k) 0) as [Heq|]; [|done].
    by destruct (Hne x eq_refl).
Qed.

Lemma run_op_refines fuel p sl els o :
  Inv p sl els → (sl_length sl < Z.of_nat fuel)%Z →
  ∃ p' sl' els',
    run_op fuel (p, sl) o = Ok (p', sl') ∧ Inv p' sl' els' ∧
    pair_of <$> els' = kv_apply (Member_Compare sl) (pair_of <$> els) o ∧
    Member_Compare sl' = Member_Compare sl ∧
    (sl_length sl' ≤ sl_length sl + 1)%Z.
Proof.
  intros HI Hfuel. destruct o as [k' m|k'|k']; cbn [run_op kv_apply fst snd].
  - destruct (SkipList_Insert_spec fuel p sl els k' m HI Hfuel)
      as (p' & sl' & -> & HI' & Hcmp & _).
    eexists p', sl', _. split; [done|]. split; [done|].
    split; [by apply kv_insert_rank|]. split; [done|].
    rewrite (inv_length _ _ _ HI'), (inv_length _ _ _ HI), length_app.
    cbn [length]. rewrite length_take, length_drop. lia.
  - destruct (els !! key_rank (Member_Compare sl) k' els) as [e|] eqn:He.
    + destruct (decide (Member_Compare sl (a_key e) k' = 0%Z)) as [Heq|Hne].
      * destruct (SkipList_Delete_present fuel p sl els k' e HI Hfuel He Heq)
          as (p' & sl' & -> & HI' & Hcmp & _). step.
        eexists p', sl', _. split; [done|]. split; [done|].
        split; [by apply (kv_delete_present _ _ _ e)|]. split; [done|].
        rewrite (inv_length _ _ _ HI'), (inv_length _ _ _ HI), length_app.
        rewrite length_take, length_drop. lia.
      * destruct (SkipList_Delete_absent fuel p sl els k' HI Hfuel)
          as (sl' & -> & HI' & Hcmp & _ & _ & Hlen).
        { intros e' He'. by simplify_eq. }
        step. exists p, sl', els. rewrite Hlen. do 2 (split; [done|]).
        split; [|split; [done|lia]]. symmetry. apply kv_delete_absent.
        intros e' He'. by simplify_eq.
    + destruct (SkipList_Delete_absent fuel p sl els k' HI Hfuel)
        as (sl' & -> & HI' & Hcmp & _ & _ & Hlen).
      { intros e' He'. by simplify_eq. }
      step. exists p, sl', els. rewrite Hlen. do 2 (split; [done|]).
      split; [|split; [done|lia]]. symmetry. apply kv_delete_absent.
      intros e' He'. by simplify_eq.
  - destruct (SkipList_Search_spec fuel p sl els k' HI Hfuel)
      as (sl' & -> & HI' & Hcmp & _ & _ & Hlen).
    step. exists p, sl', els. rewrite Hlen. do 3 (split; [done|]).
    split; [done|lia].
Qed.

Lemma run_ops_refines fuel os :
  ∀ p sl els,
  Inv p sl els → (sl_length sl + Z.of_nat (length os) < Z.of_nat fuel)%Z →
  ∃ p' sl' els',
    run_ops fuel (p, sl) os = Ok (p', sl') ∧ Inv p' sl' els' ∧
    pair_of <$> els' = foldl (kv_apply (Member_Compare sl)) (pair_of <$> els) os ∧
    (sl_length sl' < Z.of_nat fuel)%Z.
Proof.
  induction os as [|o os IH]; intros p sl els HI Hfuel.
  { exists p, sl, els. do 3 (split; [done|]). simpl in Hfuel. lia. }
  cbn [length] in Hfuel. cbn [run_ops foldl].
  destruct (run_op_refines fuel p sl els o HI ltac:(lia))
    as (p1 & sl1 & els1 & -> & HI1 & Hels1 & Hcmp1 & Hlen1). step.
  destruct (IH p1 sl1 els1 HI1 ltac:(lia))
    as (p' & sl' & els' & Hrun & HI' & Hels' & Hlen').
  exists p', sl', els'. do 2 (split; [done|]). split; [|done].
  by rewrite Hels', Hels1, Hcmp1.
Qed.

(** X19. The container refines a sorted list of pairs: from every reachable
    state, every sequence of insertions, deletions and searches completes,
    and the iteration afterwards yields the list that the corresponding
    list operations make of the iteration before: an insertion puts its
    pair in before the first pair whose key is not less, a deletion takes
    out the first pair with an equal key, a search changes nothing. *)
Theorem X19_refines_sorted_list p sl fuel os kvs :
  reachable p sl →
  (sl_length sl + Z.of_nat (length os) < Z.of_nat fuel)%Z →
  SkipList_Iterate fuel p sl = Ok kvs →
  ∃ p' sl',
    run_ops fuel (p, sl) os = Ok (p', sl') ∧
    SkipList_Iterate fuel p' sl'
    = Ok (foldl (kv_apply (Member_Compare sl)) kvs os).
Proof.
  intros Hr Hfuel Hit. destruct (reachable_Inv p sl Hr) as [els HI].
  rewrite (SkipList_Iterate_spec fuel p sl els HI ltac:(lia)) in Hit.
  injection Hit as <-.
  destruct (run_ops_refines fuel os p sl els HI Hfuel)
    as (p' & sl' & els' & Hrun & HI' & Hels' & Hlen').
  exists p', sl'. split; [done|]. rewrite <-Hels'.
  by apply SkipList_Iterate_spec.
Qed.

Lemma X19_refines_sorted_list_witness :
  ∃ p' sl',
    run_ops 8 st_dup [OpInsert 0 5; OpDelete 1; OpSearch 1; OpInsert 1 12]
    = Ok (p', sl') ∧
    SkipList_Iterate 8 p' sl'
    = Ok (foldl (kv_apply (Member_Compare st_dup.2)) [(1, 11); (1, 10)]%Z
            [OpInsert 0 5; OpDelete 1; OpSearch 1; OpInsert 1 12]).
Proof.
  apply (X19_refines_sorted_list st_dup.1 st_dup.2 8).
  - apply st_dup_reachable.
  - vm_compute. reflexivity.
  - vm_compute. reflexivity.
Defined.

(** ** The footprint of the operations *)

Lemma frame_refl S h : frame S h h.
Proof. done. Qed.

Lemma frame_trans S h1 h2 h3 : frame S h1 h2 → frame S h2 h3 → frame S h1 h3.
Proof. intros H1 H2 x Hx. by rewrite H2, H1. Qed.

Lemma frame_mono (S S' : loc → Prop) h h' :
  (∀ x, S x → S' x) → frame S h h' → frame S' h h'.
Proof. intros HS Hf x Hx. apply Hf. intros ?. apply Hx. by apply HS. Qed.

Lemma set_diff_within (S : loc → Prop) h a i x h' :
  S a → set_diff h a i x = Ok h' → frame S h h'.
Proof.
  intros Ha H. unfold set_diff in H.
  apply bind_Ok_inv in H as (e & _ & H).
  apply bind_Ok_inv in H as (df & _ & H). injection H as <-.
  intros b Hb. rewrite lookup_insert_ne; [done|]. by intros <-.
Qed.

Lemma set_forward_within (S : loc → Prop) h a i x h' :
  S a → set_forward h a i x = Ok h' → frame S h h'.
Proof.
  intros Ha H b Hb. apply (set_forward_frame _ _ _ _ _ H). by intros ->.
Qed.

Lemma local_get_in (S : loc → Prop) (u : skiplist_finger) i f :
  fingers_in S u → local_get u i = Ok f → S f.
Proof.
  intros Hu H. apply (Hu i). unfold local_get in H.
  repeat case_match; by simplify_eq.
Qed.

Lemma insert_diff_body_frame S u d n i h h' :
  fingers_in S u → S n → insert_diff_body u d n i h = Ok h' → frame S h h'.
Proof.
  unfold insert_diff_body. intros Hu Hn H.
  apply bind_Ok_inv in H as (ui & Hui & H).
  apply bind_Ok_inv in H as (x & _ & H).
  apply bind_Ok_inv in H as (d0 & _ & H).
  apply bind_Ok_inv in H as (di & _ & H).
  apply bind_Ok_inv in H as (h1 & H1 & H2).
  apply (frame_trans _ _ h1); [by eapply set_diff_within|].
  eapply set_diff_within; [|done]. by eapply local_get_in.
Qed.

Lemma insert_bump_body_frame S u i h h' :
  fingers_in S u → insert_bump_body u i h = Ok h' → frame S h h'.
Proof.
  unfold insert_bump_body. intros Hu H.
  apply bind_Ok_inv in H as (ui & Hui & H).
  apply bind_Ok_inv in H as (x & _ & H).
  eapply set_diff_within; [|done]. by eapply local_get_in.
Qed.

Lemma insert_link_body_frame S u n i h h' :
  fingers_in S u → S n → insert_link_body u n i h = Ok h' → frame S h h'.
Proof.
  unfold insert_link_body. intros Hu Hn H.
  apply bind_Ok_inv in H as (ui & Hui & H).
  apply bind_Ok_inv in H as (x & _ & H).
  apply bind_Ok_inv in H as (h1 & H1 & H2).
  apply (frame_trans _ _ h1); [by eapply set_forward_within|].
  eapply set_forward_within; [|done]. by eapply local_get_in.
Qed.

Lemma delete_body_frame S u n i h h' :
  fingers_in S u → delete_body u n i h = Ok h' → frame S h h'.
Proof.
  unfold delete_body. intros Hu H.
  apply bind_Ok_inv in H as (ui & Hui & H).
  pose proof (local_get_in S u i ui Hu Hui) as HS.
  apply bind_Ok_inv in H as (x & _ & H).
  destruct (decide (x ≠ Some n)).
  - apply bind_Ok_inv in H as (y & _ & H). by eapply set_diff_within.
  - apply bind_Ok_inv in H as (y & _ & H).
    apply bind_Ok_inv in H as (z & _ & H).
    apply bind_Ok_inv in H as (h1 & H1 & H).
    apply bind_Ok_inv in H as (w & _ & H).
    apply (frame_trans _ _ h1); [by eapply set_diff_within|].
    by eapply set_forward_within.
Qed.

Lemma grow_body_frame S hd len i h (u : skiplist_finger) (d : skiplist_delta)
  h' u' d' :
  S hd → grow_body hd len i (h, u, d) = Ok (h', u', d') →
  frame S h h' ∧ (fingers_in S u → fingers_in S u').
Proof.
  unfold grow_body. intros Hhd H.
  apply bind_Ok_inv in H as (u1 & Hu1 & H).
  apply bind_Ok_inv in H as (d1 & _ & H).
  apply bind_Ok_inv in H as (ui & Hui & H).
  apply bind_Ok_inv in H as (h1 & H1 & H). injection H as <- <- <-.
  unfold local_set, store in Hu1. case_decide; [|done]. injection Hu1 as <-.
  assert (ui = hd) as ->.
  { unfold local_get in Hui. rewrite list_lookup_insert_eq in Hui by done.
    by injection Hui. }
  split; [by eapply set_diff_within|].
  unfold fingers_in, skiplist_finger in *.
  intros Hu j f. destruct (decide (j = i)) as [->|Hne].
  - rewrite list_lookup_insert_eq by done. by intros [= <-].
  - rewrite list_lookup_insert_ne by done. apply Hu.
Qed.

Lemma grow_loop_frame S hd len a n h (u : skiplist_finger)
  (d : skiplist_delta) h' u' d' :
  S hd → for_range a n (grow_body hd len) (h, u, d) = Ok (h', u', d') →
  frame S h h' ∧ (fingers_in S u → fingers_in S u').
Proof.
  intros Hhd H.
  apply (for_range_rel
    (λ s s' : gmap loc SkipList_element_struct * skiplist_finger
              * skiplist_delta,
       frame S s.1.1 s'.1.1 ∧ (fingers_in S s.1.2 → fingers_in S s'.1.2)))
    in H; [done|done|..].
  - intros x y z [H1 H2] [H3 H4]. split; [by eapply frame_trans|auto].
  - intros i [[h0 u0] d0] [[h1 u1] d1] Hb. by eapply grow_body_frame.
Qed.

Lemma Search_by_Key_fingers fuel p sl els k sl1 u d :
  Inv p sl els → (sl_length sl < Z.of_nat fuel)%Z →
  Search_by_Key fuel p sl fresh_finger fresh_delta k = Ok (sl1, u, d) →
  fingers_in (owned sl els) u.
Proof.
  intros HI Hfuel Hrun.
  pose proof HI as [Hcmp Hlevel Hlen Hnd Hnodes Hh Hs Hfr Hfl Hdl Hc].
  set (c := key_rank (Member_Compare sl) k els).
  pose proof (key_rank_le (Member_Compare sl) k els) as Hcle. fold c in Hcle.
  destruct (key_levels_spec (heap p) (sl_level sl) (sl_header sl) els Hnodes
    (Member_Compare sl) k c) with (fuel := fuel) (n := sl_level sl) (sl := sl)
    (finger := fresh_finger) (delta := fresh_delta) (f := sl_header sl)
    (last := 0%Z) (js := 0) (es := header_elem (sl_header sl))
    as (sl2 & u2 & d2 & Hrun2 & _ & _ & _ & _ & _ & _ & _ & _ & _ & Hbelow
        & Habove);
    try done; try lia; try apply length_fresh_finger;
    try apply length_fresh_delta; try (simpl; lia).
  { intros j e. apply key_rank_nodes_lt. }
  { intros j e. by apply key_rank_nodes_ge. }
  unfold Search_by_Key in Hrun. rewrite Hrun in Hrun2.
  injection Hrun2 as <- <- <-.
  intros i f Hf. destruct (decide (i < sl_level sl)) as [Hi|Hi].
  - destruct (Hbelow i Hi) as (e & He & _ & Hu & _).
    assert (f = a_loc e) as ->.
    { pose proof (eq_trans (eq_sym Hf) Hu) as Heq. by injection Heq. }
    apply list_elem_of_fmap. exists e. split; [done|].
    by eapply list_elem_of_lookup_2.
  - destruct (Habove i ltac:(lia)) as (Hu & _).
    pose proof (eq_trans (eq_sym Hu) Hf) as Hfresh.
    unfold fresh_finger in Hfresh.
    apply lookup_replicate in Hfresh as [? _]. done.
Qed.

Lemma SkipList_Insert_frame fuel p sl els k m p' sl' :
  Inv p sl els → (sl_length sl < Z.of_nat fuel)%Z →
  SkipList_Insert fuel p sl k m = Ok (p', sl') →
  frame (λ x, owned sl els x ∨ x = brk p) (heap p) (heap p').
Proof.
  intros HI Hfuel H. unfold SkipList_Insert in H.
  apply bind_Ok_inv in H as ([[sl1 u] d] & Hs & H).
  pose proof (Search_by_Key_fingers _ _ _ _ _ _ _ _ HI Hfuel Hs) as Hu.
  apply key_levels_fields in Hs as (Hlv & Hhd & Hln & _).
  apply bind_Ok_inv in H as (u0 & _ & H).
  apply bind_Ok_inv in H as (nx & _ & H).
  destruct (Choose_Random_Level (Current_Random_Level p)) as [nl c].
  apply bind_Ok_inv in H as ([[[h2 u2] d2] level2] & Hgrow & H).
  unfold MakeNode in H. cbn [heap brk Current_Random_Level released] in H.
  apply bind_Ok_inv in H as (h4 & H4 & H).
  apply bind_Ok_inv in H as (h5 & H5 & H).
  apply bind_Ok_inv in H as (h6 & H6 & H).
  injection H as <- _. unfold with_heap. cbn [heap].
  set (S := λ x, owned sl els x ∨ x = brk p).
  assert (S (sl_header sl1)) as Shd.
  { left. rewrite Hhd. unfold owned. cbn. left. }
  assert (fingers_in S u) as HuS.
  { intros i f Hf. left. by apply (Hu i). }
  assert (frame S (heap p) h2 ∧ fingers_in S u2) as [Hf2 Hu2].
  { destruct (decide (sl_level sl1 < nl)).
    - apply bind_Ok_inv in Hgrow as ([[h' u'] d'] & Hg & Hgrow).
      injection Hgrow as <- <- _ _.
      apply (grow_loop_frame S) in Hg as [? ?]; [|done]. auto.
    - by injection Hgrow as <- <- _ _. }
  apply (frame_trans _ _ h2); [done|].
  apply (frame_trans _ _
    (<[brk p:=mkElement k m nl (replicate nl None) (replicate nl 0%Z)]> h2)).
  { intros x Hx. rewrite lookup_insert_ne; [done|]. intros <-. apply Hx.
    by right. }
  apply (for_range_rel (frame S)) in H4;
    [|apply frame_refl|apply frame_trans
     |intros ? ? ?; apply insert_diff_body_frame; [done|by right]].
  apply (for_range_rel (frame S)) in H5;
    [|apply frame_refl|apply frame_trans
     |intros ? ? ?; by apply insert_bump_body_frame].
  apply (for_range_rel (frame S)) in H6;
    [|apply frame_refl|apply frame_trans
     |intros ? ? ?; apply insert_link_body_frame; [done|by right]].
  eapply frame_trans; [done|]. by eapply frame_trans.
Qed.

Lemma SkipList_Delete_frame fuel p sl els k p' sl' dl :
  Inv p sl els → (sl_length sl < Z.of_nat fuel)%Z →
  SkipList_Delete fuel p sl k = Ok (p', sl', dl) →
  frame (owned sl els) (heap p) (heap p').
Proof.
  intros HI Hfuel H. unfold SkipList_Delete in H.
  destruct (Search_by_Key_spec fuel p sl els k HI Hfuel)
    as (sl0 & u' & d' & Hsearch & _ & _ & _ & _ & _ & _ & _ & Hud & _).
  apply bind_Ok_inv in H as ([[sl1 u] d] & Hs & H).
  pose proof (Search_by_Key_fingers _ _ _ _ _ _ _ _ HI Hfuel Hs) as Hu.
  rewrite Hsearch in Hs. injection Hs as <- <- <-.
  set (c := key_rank (Member_Compare sl) k els) in *.
  pose proof (key_rank_le (Member_Compare sl) k els) as Hc. fold c in Hc.
  pose proof (inv_level _ _ _ HI) as Hlevel.
  destruct (Hud 0 ltac:(lia)) as (e0 & He0 & _ & Hu0 & _).
  rewrite (local_get_Ok _ _ _ Hu0) in H. rewrite bind_Ok in H.
  rewrite (search_successor p sl els _ e0 HI Hc He0) in H.
  rewrite bind_Ok in H.
  destruct (els !! c) as [e|] eqn:He; cbn [fmap option_fmap option_map] in H.
  2:{ by injection H as <- _ _. }
  apply bind_Ok_inv in H as (en & _ & H).
  destruct (Member_Compare sl0 (e_key en) k =? 0)%Z.
  2:{ by injection H as <- _ _. }
  apply bind_Ok_inv in H as (h1 & H1 & H).
  apply bind_Ok_inv in H as (en' & _ & H).
  cbn zeta in H.
  apply bind_Ok_inv in H as (x & _ & H).
  apply bind_Ok_inv in H as (level' & _ & H).
  injection H as <- _ _. cbn [heap].
  apply (for_range_rel (frame (owned sl els))) in H1;
    [|apply frame_refl|apply frame_trans
     |intros ? ? ?; by apply delete_body_frame].
  intros y Hy. rewrite lookup_delete_ne; [by apply H1|].
  intros <-. apply Hy. unfold owned. cbn [nodes fmap list_fmap]. right.
  apply list_elem_of_fmap. exists e. split; [done|].
  by eapply list_elem_of_lookup_2.
Qed.

(** ** Two containers in one process *)

Lemma Inv_frame S p p' sl els :
  Inv p sl els → frame S (heap p) (heap p') →
  (∀ x, owned sl els x → ¬ S x) → frontier_ok p' → Inv p' sl els.
Proof.
  intros HI Hf HS Hfr.
  pose proof HI as [Hcmp Hlevel Hlen Hnd Hnodes Hh Hs _ Hfl Hdl Hc].
  constructor; try done.
  intros j e Hj.
  assert (heap p' !! a_loc e = heap p !! a_loc e) as Heq.
  { apply Hf, HS. apply list_elem_of_fmap. exists e. split; [done|].
    by eapply list_elem_of_lookup_2. }
  destruct (Hnodes j e Hj) as (Hm & Hfw & Hd).
  unfold node_ok, meta, fwd, dif in *. by rewrite Heq.
Qed.

Lemma owned_allocated p sl els x :
  Inv p sl els → owned sl els x → is_Some (heap p !! x).
Proof.
  intros HI Hx. apply list_elem_of_fmap in Hx as (e & -> & He).
  apply list_elem_of_lookup in He as (j & Hj).
  destruct (inv_nodes _ _ _ HI j e Hj) as (Hm & _).
  apply meta_deref in Hm as (r & Hr & _). eauto.
Qed.

Lemma apart_sym p a b A B : apart p a b A B → apart p b a B A.
Proof.
  intros (HA & HB & Hd). split; [done|]. split; [done|].
  intros x Hb Ha. by apply (Hd x).
Qed.

Lemma owned_insert sl sl' els c new x :
  sl_header sl' = sl_header sl →
  owned sl' (take c els ++ new :: drop c els) x →
  owned sl els x ∨ x = a_loc new.
Proof.
  unfold owned. intros ->. cbn [nodes fmap list_fmap].
  rewrite fmap_app, fmap_cons. intros Hx.
  apply elem_of_cons in Hx as [->|Hx]; [left; left|].
  apply elem_of_app in Hx as [Hx|Hx].
  - left. right. rewrite <-(take_drop c els), fmap_app. apply elem_of_app.
    by left.
  - apply elem_of_cons in Hx as [->|Hx]; [by right|].
    left. right. rewrite <-(take_drop c els), fmap_app. apply elem_of_app.
    by right.
Qed.

Lemma owned_delete sl sl' els c x :
  sl_header sl' = sl_header sl →
  owned sl' (take c els ++ drop (S c) els) x → owned sl els x.
Proof.
  unfold owned. intros ->. cbn [nodes fmap list_fmap].
  rewrite fmap_app. intros Hx.
  apply elem_of_cons in Hx as [->|Hx]; [left|]. right.
  apply elem_of_app in Hx as [Hx|Hx].
  - apply list_elem_of_fmap in Hx as (e & -> & He).
    apply list_elem_of_fmap. exists e. split; [done|].
    by apply subseteq_take in He.
  - apply list_elem_of_fmap in Hx as (e & -> & He).
    apply list_elem_of_fmap. exists e. split; [done|].
    by apply subseteq_drop in He.
Qed.

Lemma present_or_absent (A : list elem) c (cmp : key_type → key_type → Z) k :
  (∃ e, A !! c = Some e ∧ cmp (a_key e) k = 0%Z) ∨
  (∀ e, A !! c = Some e → cmp (a_key e) k ≠ 0%Z).
Proof.
  destruct (A !! c) as [e|]; [|by right].
  destruct (decide (cmp (a_key e) k = 0%Z)); [left; eauto|].
  right. by intros ? [= <-].
Qed.

(** An operation on the first of two containers that are apart. *)
Lemma run_op_apart fuel p a b A B o :
  apart p a b A B → (sl_length a < Z.of_nat fuel)%Z →
  ∃ p' a' A',
    run_op fuel (p, a) o = Ok (p', a') ∧ apart p' a' b A' B ∧
    pair_of <$> A' = kv_apply (Member_Compare a) (pair_of <$> A) o ∧
    Member_Compare a' = Member_Compare a ∧
    (sl_length a' ≤ sl_length a + 1)%Z ∧
    (match o with
     | OpInsert _ _ => ∃ l, inserted_level p p' = Ok l
     | _ => True
     end).
Proof.
  intros (HA & HB & Hd) Hfuel.
  destruct o as [k m|k|k]; cbn [run_op kv_apply fst snd].
  - destruct (SkipList_Insert_spec fuel p a A k m HA Hfuel)
      as (p' & a' & Hrun & HA' & Hcmp & Hhd & _).
    pose proof (SkipList_Insert_frame _ _ _ _ _ _ _ _ HA Hfuel Hrun) as Hf.
    destruct (SkipList_Insert_level _ _ _ _ _ _ _ Hrun) as (_ & Hl).
    rewrite Hrun. eexists p', a', _. split; [done|]. split; [|split].
    + split; [done|]. split.
      * apply (Inv_frame _ p p' b B HB Hf); [|apply (inv_frontier _ _ _ HA')].
        intros x Hb [Ha| ->]; [by apply (Hd x)|].
        destruct (owned_allocated p b B _ HB Hb) as [r Hr].
        rewrite (inv_frontier _ _ _ HB) in Hr; [done|]. lia.
      * intros x Ha' Hb.
        apply (owned_insert a a') in Ha' as [Ha| ->]; [by apply (Hd x)| |done].
        cbn [a_loc] in Hb.
        destruct (owned_allocated p b B _ HB Hb) as [r Hr].
        rewrite (inv_frontier _ _ _ HB) in Hr; [done|]. lia.
    + by apply kv_insert_rank.
    + split; [done|]. split; [|eauto].
      rewrite (inv_length _ _ _ HA'), (inv_length _ _ _ HA), length_app.
      cbn [length]. rewrite length_take, length_drop. lia.
  - destruct (present_or_absent A (key_rank (Member_Compare a) k A)
               (Member_Compare a) k) as [(e & He & Heq)|Habs].
    + destruct (SkipList_Delete_present fuel p a A k e HA Hfuel He Heq)
        as (p' & a' & Hrun & HA' & Hcmp & Hhd & _).
      pose proof (SkipList_Delete_frame _ _ _ _ _ _ _ _ HA Hfuel Hrun) as Hf.
      rewrite Hrun. step. eexists p', a', _. split; [done|].
      split; [|split; [by apply (kv_delete_present _ _ _ e)|]].
      * split; [done|]. split.
        -- apply (Inv_frame _ p p' b B HB Hf); [|apply (inv_frontier _ _ _ HA')].
           intros x Hb Ha. by apply (Hd x).
        -- intros x Ha' Hb. apply (owned_delete a a') in Ha'; [|done].
           by apply (Hd x).
      * split; [done|]. split; [|done].
        rewrite (inv_length _ _ _ HA'), (inv_length _ _ _ HA), length_app.
        rewrite length_take, length_drop. lia.
    + destruct (SkipList_Delete_absent fuel p a A k HA Hfuel Habs)
        as (a' & Hrun & HA' & Hcmp & Hhd & _ & Hlen).
      rewrite Hrun. step. exists p, a', A. split; [done|]. split.
      { split; [done|]. split; [done|]. intros x Ha'. apply Hd.
        unfold owned in *. by rewrite <-Hhd. }
      split; [symmetry; by apply kv_delete_absent|].
      split; [done|]. split; [lia|done].
  - destruct (SkipList_Search_spec fuel p a A k HA Hfuel)
      as (a' & Hrun & HA' & Hcmp & Hhd & _ & Hlen).
    rewrite Hrun. step. exists p, a', A. split; [done|]. split.
    { split; [done|]. split; [done|]. intros x Ha'. apply Hd.
      unfold owned in *. by rewrite <-Hhd. }
    split; [done|]. split; [done|]. split; [lia|done].
Qed.

Lemma run2_apart fuel sched :
  ∀ p a b A B,
  apart p a b A B →
  (sl_length a + Z.of_nat (length sched) < Z.of_nat fuel)%Z →
  (sl_length b + Z.of_nat (length sched) < Z.of_nat fuel)%Z →
  ∃ p' a' b' lvs A' B',
    run2 fuel p a b sched = Ok (p', a', b', lvs) ∧ apart p' a' b' A' B' ∧
    pair_of <$> A'
    = foldl (kv_apply (Member_Compare a)) (pair_of <$> A) (ops_of true sched) ∧
    pair_of <$> B'
    = foldl (kv_apply (Member_Compare b)) (pair_of <$> B) (ops_of false sched) ∧
    (sl_length a' < Z.of_nat fuel)%Z ∧ (sl_length b' < Z.of_nat fuel)%Z.
Proof.
  induction sched as [|[first o] sched IH]; intros p a b A B Hap Hfa Hfb.
  { exists p, a, b, [], A, B. cbn [length] in *. do 4 (split; [done|]).
    split; lia. }
  cbn [length] in Hfa, Hfb. cbn [run2 ops_of].
  destruct first; cbn [Bool.eqb].
  - destruct (run_op_apart fuel p a b A B o Hap ltac:(lia))
      as (p1 & a1 & A1 & -> & Hap1 & HA1 & Hcmp1 & Hlen1 & Hlv). step.
    assert (∃ lv,
      match o with
      | OpInsert _ _ => l ← inserted_level p p1; Ok [l]
      | _ => Ok []
      end = Ok lv) as [lv ->].
    { destruct o as [k m|k|k]; [|by eexists..].
      destruct Hlv as [l ->]. by eexists. }
    step.
    destruct (IH p1 a1 b A1 B Hap1 ltac:(lia)) as
      (p' & a' & b' & lvs & A' & B' & -> & Hap' & HA' & HB' & ? & ?).
    { destruct Hap as (_ & HB & _), Hap1 as (_ & HB1 & _).
      rewrite (inv_length _ _ _ HB1). rewrite <-(inv_length _ _ _ HB). lia. }
    step. exists p', a', b', (lv ++ lvs), A', B'.
    do 2 (split; [done|]). split; [|done].
    cbn [foldl]. by rewrite HA', HA1, Hcmp1.
  - destruct (run_op_apart fuel p b a B A o (apart_sym _ _ _ _ _ Hap)
                ltac:(lia))
      as (p1 & b1 & B1 & -> & Hap1 & HB1 & Hcmp1 & Hlen1 & Hlv). step.
    assert (match o with
            | OpInsert _ _ => Ok []
            | _ => Ok []
            end = Ok (@nil nat)) as -> by (by destruct o).
    step. apply apart_sym in Hap1.
    destruct (IH p1 a b1 A B1 Hap1) as
      (p' & a' & b' & lvs & A' & B' & -> & Hap' & HA' & HB' & ? & ?).
    { lia. }
    { lia. }
    step. exists p', a', b', lvs, A', B'.
    do 3 (split; [done|]). split; [|done].
    cbn [foldl]. by rewrite HB', HB1, Hcmp1.
Qed.

Lemma length_ops_of side sched : length (ops_of side sched) ≤ length sched.
Proof.
  induction sched as [|[s o] sched IH]; [done|]. cbn [ops_of length].
  destruct (Bool.eqb s side); cbn [length]; lia.
Qed.

Lemma two_created_apart p ca cb :
  frontier_ok p → comparator_ok ca → comparator_ok cb →
  apart (SkipList_Create (SkipList_Create p ca).1 cb).1
    (SkipList_Create p ca).2 (SkipList_Create (SkipList_Create p ca).1 cb).2
    [] [].
Proof.
  intros Hfr Hca Hcb.
  pose proof (SkipList_Create_Inv p ca Hfr Hca) as HA.
  pose proof (SkipList_Create_Inv _ cb (inv_frontier _ _ _ HA) Hcb) as HB.
  split; [|split; [done|]].
  - apply (Inv_frame (λ x, x = Pos.succ (brk p)) _ _ _ _ HA);
      [|by intros x [->|Hx]%elem_of_cons; [cbn; lia|apply elem_of_nil in Hx]
       |apply (inv_frontier _ _ _ HB)].
    intros x Hx. unfold SkipList_Create, MakeNode.
    cbn [fst snd heap brk Current_Random_Level released].
    by rewrite !lookup_insert_ne by done.
  - intros x [->|Hx]%elem_of_cons [Hb|Hb]%elem_of_cons;
      try (by apply elem_of_nil in Hx); try (by apply elem_of_nil in Hb).
    cbn in Hb. lia.
Qed.

(** X20. Two containers of one process do not disturb each other's
    contents: for every schedule of insertions, deletions and searches on
    two containers created one after the other, all operations complete,
    and each container ends up with the pairs that its own operations make
    of the empty list - the pairs it ends up with when its operations are
    run on a fresh container alone. (The levels of the nodes do depend on
    the other container, through the shared counter.) *)
Theorem X20_two_containers_independent p ca cb fuel sched :
  frontier_ok p → comparator_ok ca → comparator_ok cb →
  length sched < fuel →
  ∃ p' a' b' lvs pa sa,
    run2 fuel (SkipList_Create (SkipList_Create p ca).1 cb).1
      (SkipList_Create p ca).2
      (SkipList_Create (SkipList_Create p ca).1 cb).2 sched
    = Ok (p', a', b', lvs) ∧
    SkipList_Iterate fuel p' a'
    = Ok (foldl (kv_apply ca) [] (ops_of true sched)) ∧
    SkipList_Iterate fuel p' b'
    = Ok (foldl (kv_apply cb) [] (ops_of false sched)) ∧
    run_ops fuel (SkipList_Create p ca) (ops_of true sched) = Ok (pa, sa) ∧
    SkipList_Iterate fuel pa sa = SkipList_Iterate fuel p' a'.
Proof.
  intros Hfr Hca Hcb Hfuel.
  destruct (run2_apart fuel sched _ _ _ [] []
              (two_created_apart p ca cb Hfr Hca Hcb))
    as (p' & a' & b' & lvs & A' & B' & Hrun & (HA' & HB' & _) & HAk & HBk
        & Hla & Hlb); [cbn; lia..|].
  pose proof (SkipList_Create_Inv p ca Hfr Hca) as HA.
  destruct (run_ops_refines fuel (ops_of true sched) _ _ [] HA)
    as (pa & sa & As & Hrs & HIs & Hks & Hls).
  { pose proof (length_ops_of true sched). cbn. lia. }
  exists p', a', b', lvs, pa, sa. split; [done|].
  rewrite (SkipList_Iterate_spec fuel p' a' A' HA' Hla).
  rewrite (SkipList_Iterate_spec fuel p' b' B' HB' Hlb).
  rewrite (SkipList_Iterate_spec fuel pa sa As HIs Hls).
  rewrite HAk, HBk, Hks.
  split; [done|]. split; [done|]. split; [|done].
  by destruct (SkipList_Create p ca).
Qed.

Lemma X20_two_containers_independent_witness :
  ∃ p' a' b' lvs pa sa,
    run2 8 (SkipList_Create (SkipList_Create p0 cmpZ).1 cmpZ).1
      (SkipList_Create p0 cmpZ).2
      (SkipList_Create (SkipList_Create p0 cmpZ).1 cmpZ).2
      [(true, OpInsert 2 20); (false, OpInsert 1 10); (true, OpInsert 1 11);
       (false, OpDelete 1); (true, OpSearch 2)]
    = Ok (p', a', b', lvs) ∧
    SkipList_Iterate 8 p' a'
    = Ok (foldl (kv_apply cmpZ) []
            (ops_of true
               [(true, OpInsert 2 20); (false, OpInsert 1 10);
                (true, OpInsert 1 11); (false, OpDelete 1);
                (true, OpSearch 2)])) ∧
    SkipList_Iterate 8 p' b'
    = Ok (foldl (kv_apply cmpZ) []
            (ops_of false
               [(true, OpInsert 2 20); (false, OpInsert 1 10);
                (true, OpInsert 1 11); (false, OpDelete 1);
                (true, OpSearch 2)])) ∧
    run_ops 8 (SkipList_Create p0 cmpZ)
      (ops_of true
         [(true, OpInsert 2 20); (false, OpInsert 1 10);
          (true, OpInsert 1 11); (false, OpDelete 1); (true, OpSearch 2)])
    = Ok (pa, sa) ∧
    SkipList_Iterate 8 pa sa = SkipList_Iterate 8 p' a'.
Proof.
  apply (X20_two_containers_independent p0 cmpZ cmpZ 8);
    [apply p0_frontier|apply cmpZ_ok|apply cmpZ_ok|cbn; lia].
Defined.

(** ** The chains of the levels *)

Lemma filter_first_tall i (l : list elem) :
  match first_tall i l with
  | None => filter (tall i) l = []
  | Some a =>
    ∃ m e, l !! m = Some e ∧ a_loc e = a ∧
      filter (tall i) l = e :: filter (tall i) (drop (S m) l)
  end.
Proof.
  induction l as [|x l IH]; [done|]. cbn [first_tall].
  destruct (decide (tall i x)) as [Ht|Ht].
  - exists 0, x. split; [done|]. split; [done|].
    by rewrite filter_cons_True by done.
  - rewrite filter_cons_False by done.
    destruct (first_tall i l) as [a|]; [|done].
    destruct IH as (m & e & Hm & Ha & Hf). by exists (S m), e.
Qed.

Lemma chain_filter p sl els fuel j e i :
  Inv p sl els →
  nodes (sl_header sl) els !! j = Some e → tall i e →
  length (nodes (sl_header sl) els) ≤ fuel + j →
  chain fuel (heap p) i (a_loc e)
  = Ok (a_loc <$> e :: filter (tall i) (drop (S j) (nodes (sl_header sl) els))).
Proof.
  intros HI. revert j e. induction fuel as [|fuel IH]; intros j e Hj Ht Hfuel.
  { apply lookup_lt_Some in Hj. lia. }
  cbn [chain]. destruct (inv_nodes _ _ _ HI j e Hj) as (_ & Hfwd & _).
  rewrite (get_forward_fwd _ _ _ _ (Hfwd i Ht)). step.
  pose proof (filter_first_tall i (drop (S j) (nodes (sl_header sl) els)))
    as Hff.
  destruct (first_tall i (drop (S j) (nodes (sl_header sl) els))) as [a|].
  - destruct Hff as (m & e2 & Hm & <- & Hf). rewrite Hf.
    rewrite lookup_drop in Hm.
    assert (tall i e2) as Ht2.
    { assert (e2 ∈ filter (tall i) (drop (S j) (nodes (sl_header sl) els)))
        as Hin by (rewrite Hf; left).
      by apply list_elem_of_filter in Hin as [? _]. }
    rewrite (IH (S j + m) e2 Hm Ht2).
    2:{ apply lookup_lt_Some in Hm. lia. }
    step. rewrite drop_drop. by replace (S j + S m) with (S (S j + m)) by lia.
  - by rewrite Hff.
Qed.

Lemma filter_locs h i (l : list elem) :
  (∀ e, e ∈ l → tallerb h i (a_loc e) ↔ tall i e) →
  filter (λ x, tallerb h i x) (a_loc <$> l) = a_loc <$> filter (tall i) l.
Proof.
  induction l as [|x l IH]; intros Hl; [done|]. cbn [fmap list_fmap].
  assert (filter (λ x, tallerb h i x) (a_loc <$> l)
          = a_loc <$> filter (tall i) l) as IH'.
  { apply IH. intros e He. apply Hl. by right. }
  destruct (decide (tall i x)) as [Ht|Ht].
  - rewrite filter_cons_True by (by apply Hl; [left|]).
    rewrite (filter_cons_True (tall i)) by done. cbn [fmap list_fmap].
    by rewrite IH'.
  - rewrite filter_cons_False by (intros ?; apply Ht, Hl; [left|done]).
    by rewrite (filter_cons_False (tall i)) by done.
Qed.

(** X21. The level structure: in every reachable state the level-0 chain
    from the header holds the header and [length] further records, all
    different, and on every level the chain from the header holds exactly
    the records of the level-0 chain that have more levels than that, in
    the same order. *)
Theorem X21_level_chains p sl fuel i :
  reachable p sl → (sl_length sl < Z.of_nat fuel)%Z → i < MAX_LEVEL →
  ∃ locs,
    chain fuel (heap p) 0 (sl_header sl) = Ok locs ∧
    NoDup locs ∧ Z.of_nat (length locs) = (SkipList_Length sl + 1)%Z ∧
    chain fuel (heap p) i (sl_header sl)
    = Ok (filter (λ x, tallerb (heap p) i x) locs).
Proof.
  intros Hr Hfuel Hi. destruct (reachable_Inv p sl Hr) as [els HI].
  pose proof (inv_length _ _ _ HI) as Hlen.
  set (ns := nodes (sl_header sl) els).
  exists (a_loc <$> ns). split.
  { apply (chain_0_spec p sl els HI fuel 0 (header_elem (sl_header sl)));
      [done|]. cbn. lia. }
  split; [apply (inv_nodup _ _ _ HI)|]. split.
  { rewrite length_fmap. unfold ns, SkipList_Length. cbn [nodes length]. lia. }
  pose proof (chain_filter p sl els fuel 0 (header_elem (sl_header sl)) i HI
                eq_refl Hi) as Hch.
  cbn [a_loc header_elem] in Hch. rewrite Hch by (cbn; lia).
  f_equal. rewrite filter_locs.
  - unfold ns, nodes. by rewrite (filter_cons_True (tall i)) by done.
  - intros e He. apply list_elem_of_lookup in He as (j & Hj).
    destruct (inv_nodes _ _ _ HI j e Hj) as (Hm & _).
    apply meta_deref in Hm as (r & Hr' & _ & _ & _ & Hh & _).
    unfold tallerb, tall. rewrite Hr', Hh. apply bool_decide_spec.
Qed.

Lemma X21_level_chains_witness :
  ∃ locs,
    chain 5 (heap st_four.1) 0 (sl_header st_four.2) = Ok locs ∧
    NoDup locs ∧
    Z.of_nat (length locs) = (SkipList_Length st_four.2 + 1)%Z ∧
    chain 5 (heap st_four.1) 1 (sl_header st_four.2)
    = Ok (filter (λ x, tallerb (heap st_four.1) 1 x) locs).
Proof.
  apply (X21_level_chains st_four.1 st_four.2 5 1);
    [apply st_four_reachable|vm_compute; reflexivity|].
  pose proof MAX_LEVEL_pos. unfold lt. vm_compute. lia.
Defined.

(** * The by-rank functions among the steps *)

Lemma index_while_mono fuel fuel' h n i f d r :
  fuel ≤ fuel' → index_while fuel h n i f d = Ok r →
  index_while fuel' h n i f d = Ok r.
Proof.
  revert fuel' f d. induction fuel as [|fuel IH]; intros fuel' f d Hle;
    [done|]. destruct fuel' as [|fuel']; [lia|]. cbn [index_while].
  apply bind_mono; [done|]. intros [x|] _; [|done].
  apply bind_mono; [done|]. intros dx _.
  destruct (dx + d <? n)%Z; [|done]. apply IH. lia.
Qed.

Lemma index_levels_mono fuel fuel' h n m sl finger f place r :
  fuel ≤ fuel' → index_levels fuel h n m sl finger f place = Ok r →
  index_levels fuel' h n m sl finger f place = Ok r.
Proof.
  intros Hle. revert sl finger f place.
  induction m as [|m IH]; intros sl finger f place; [done|].
  cbn [index_levels].
  apply bind_mono; [done|]. intros dist _.
  apply bind_mono; [done|]. intros [f1 d1] _.
  apply bind_mono; [intros x; by apply index_while_mono|]. intros [f2 d2] _.
  apply bind_mono; [done|]. intros fg _.
  apply bind_mono; [done|]. intros finger' _.
  apply bind_mono; [done|]. intros ds _. apply IH.
Qed.

Lemma Search_by_Index_mono fuel fuel' p sl finger n r :
  fuel ≤ fuel' → Search_by_Index fuel p sl finger n = Ok r →
  Search_by_Index fuel' p sl finger n = Ok r.
Proof.
  intros Hle. unfold Search_by_Index.
  apply bind_mono; [|done]. intros x. by apply index_levels_mono.
Qed.

Lemma SkipList_Indexed_Key_mono fuel fuel' p sl n r :
  fuel ≤ fuel' → SkipList_Indexed_Key fuel p sl n = Ok r →
  SkipList_Indexed_Key fuel' p sl n = Ok r.
Proof.
  intros Hle. unfold SkipList_Indexed_Key.
  apply bind_mono; [|done]. intros x. by apply Search_by_Index_mono.
Qed.

Lemma SkipList_Indexed_Member_mono fuel fuel' p sl n r :
  fuel ≤ fuel' → SkipList_Indexed_Member fuel p sl n = Ok r →
  SkipList_Indexed_Member fuel' p sl n = Ok r.
Proof.
  intros Hle. unfold SkipList_Indexed_Member.
  apply bind_mono; [|done]. intros x. by apply Search_by_Index_mono.
Qed.

Lemma SkipList_Indexed_Update_mono fuel fuel' p sl n d r :
  fuel ≤ fuel' → SkipList_Indexed_Update fuel p sl n d = Ok r →
  SkipList_Indexed_Update fuel' p sl n d = Ok r.
Proof.
  intros Hle. unfold SkipList_Indexed_Update.
  apply bind_mono; [|done]. intros x. by apply Search_by_Index_mono.
Qed.

(** In a disciplined state the container is well formed, and right after a
    search by key or a by-rank call its cache is exact. *)
Lemma disciplined_Inv c p sl :
  disciplined c p sl →
  ∃ els, Inv p sl els ∧
    (c = FreshCache → cache_exact sl (nodes (sl_header sl) els)).
Proof.
  induction 1 as [p c Hfr Hc|fuel p sl k m p' sl' _ (els & HI & _) Hop
    |fuel p sl k p' sl' d _ (els & HI & _) Hop
    |fuel p sl k sl' v _ (els & HI & _) Hop
    |fuel p sl n sl' k _ (els & HI & Hex) Hop
    |fuel p sl n sl' d _ (els & HI & Hex) Hop
    |fuel p sl n d p' sl' _ (els & HI & Hex) Hop
    |p sl _ (els & HI & _)].
  - exists []. split; [by apply SkipList_Create_Inv|done].
  - destruct (SkipList_Insert_spec (fuel `max` enough sl) p sl els k m HI)
      as (p2 & sl2 & Hrun & HI2 & _); [pose proof (enough_lt sl); lia|].
    apply (SkipList_Insert_mono _ (fuel `max` enough sl)) in Hop; [|lia].
    rewrite Hrun in Hop. injection Hop as <- <-.
    eexists. split; [exact HI2|done].
  - apply (SkipList_Delete_mono _ (fuel `max` enough sl)) in Hop; [|lia].
    destruct (present_or_absent els (key_rank (Member_Compare sl) k els)
                (Member_Compare sl) k) as [(e & He & Heq)|Habs].
    + destruct (SkipList_Delete_present (fuel `max` enough sl) p sl els k e
        HI) as (p2 & sl2 & Hrun & HI2 & _);
        [pose proof (enough_lt sl); lia|done..|].
      rewrite Hrun in Hop. injection Hop as <- <- <-.
      eexists. split; [exact HI2|done].
    + destruct (SkipList_Delete_absent (fuel `max` enough sl) p sl els k HI)
        as (sl2 & Hrun & HI2 & _); [pose proof (enough_lt sl); lia|done|].
      rewrite Hrun in Hop. injection Hop as <- <- <-.
      eexists. split; [exact HI2|done].
  - apply (SkipList_Search_mono _ (fuel `max` enough sl)) in Hop; [|lia].
    destruct (SkipList_Search_exact (fuel `max` enough sl) p sl els k sl' v HI)
      as (HI' & Hex' & _); [pose proof (enough_lt sl); lia|done|].
    eexists. split; [exact HI'|done].
  - specialize (Hex eq_refl).
    apply (SkipList_Indexed_Key_mono _ (fuel `max` enough sl)) in Hop; [|lia].
    destruct (decide (n = (sl_length sl + 1)%Z)) as [->|Hn].
    { destruct (indexed_past_end (fuel `max` enough sl) p sl els 0%Z HI Hex)
        as (Hf & _); [pose proof (enough_lt sl); lia|]. congruence. }
    destruct (SkipList_Indexed_Key_spec (fuel `max` enough sl) p sl els n HI
      Hex) as (sl2 & Hrun & HI2 & Hex2 & _);
      [pose proof (enough_lt sl); lia|done|].
    rewrite Hrun in Hop. injection Hop as <- _.
    eexists. split; [exact HI2|done].
  - specialize (Hex eq_refl).
    apply (SkipList_Indexed_Member_mono _ (fuel `max` enough sl)) in Hop;
      [|lia].
    destruct (decide (n = (sl_length sl + 1)%Z)) as [->|Hn].
    { destruct (indexed_past_end (fuel `max` enough sl) p sl els 0%Z HI Hex)
        as (_ & Hf & _); [pose proof (enough_lt sl); lia|]. congruence. }
    destruct (SkipList_Indexed_Member_spec (fuel `max` enough sl) p sl els n
      HI Hex) as (sl2 & Hrun & HI2 & Hex2 & _);
      [pose proof (enough_lt sl); lia|done|].
    rewrite Hrun in Hop. injection Hop as <- _.
    eexists. split; [exact HI2|done].
  - specialize (Hex eq_refl).
    apply (SkipList_Indexed_Update_mono _ (fuel `max` enough sl)) in Hop;
      [|lia].
    destruct (decide (n = (sl_length sl + 1)%Z)) as [->|Hn].
    { destruct (indexed_past_end (fuel `max` enough sl) p sl els d HI Hex)
        as (_ & _ & Hf); [pose proof (enough_lt sl); lia|]. congruence. }
    destruct (SkipList_Indexed_Update_spec (fuel `max` enough sl) p sl els n d
      HI Hex) as (p2 & sl2 & els2 & Hrun & HI2 & Hex2 & _);
      [pose proof (enough_lt sl); lia|done|].
    rewrite Hrun in Hop. injection Hop as <- <-.
    eexists. split; [exact HI2|done].
  - exists els. split; [done|]. intros [=].
Qed.

Lemma reachable_disciplined p sl : reachable p sl → disciplined AnyCache p sl.
Proof.
  induction 1 as [p c Hfr Hc|fuel p sl k m p' sl' _ IH Hop
    |fuel p sl k p' sl' d _ IH Hop|fuel p sl k sl' v _ IH Hop].
  - by apply disc_create.
  - by eapply disc_insert.
  - by eapply disc_delete.
  - apply disc_any. by eapply disc_search.
Qed.

Lemma st_ranked_disciplined : disciplined FreshCache st_ranked.1 st_ranked.2.
Proof.
  eapply (disc_update 8 st_four.1 _ 4%Z 44%Z).
  - eapply (disc_key 8 st_four.1 _ 2%Z).
    + eapply (disc_search 8 st_four.1 st_four.2 3%Z).
      * apply reachable_disciplined, st_four_reachable.
      * vm_compute. reflexivity.
    + vm_compute. reflexivity.
  - vm_compute. reflexivity.
Qed.

(** The discipline is needed. After the insertions of the keys 3, 4, 5, 1
    the cache of level 2 is still the one of the creation; the read of
    rank 3 started from it returns the right key, 4, but leaves the node of
    rank 1 in the cache with the distance 2. From then on the search by key
    computes distances that are not ranks, and after a search by key the
    read of rank 3 returns the key 3, which is the second one. *)
Lemma stale_by_rank_call_spoils_the_cache :
  SkipList_Iterate 8 st_stale.1 st_stale.2
  = Ok [(1, 10); (3, 30); (4, 40); (5, 50)]%Z ∧
  (∃ sl u d, Search_by_Key 8 st_stale.1 st_stale.2 fresh_finger fresh_delta 6%Z
             = Ok (sl, u, d) ∧
     take 3 d = [Some 4; Some 3; Some 2]%Z) ∧
  (∃ u d, Search_by_Key_nocache 8 st_stale.1 st_stale.2 fresh_finger
            fresh_delta 6%Z = Ok (u, d) ∧
     take 3 d = [Some 4; Some 3; Some 1]%Z) ∧
  (∃ sl1 v sl2, SkipList_Search 8 st_stale.1 st_stale.2 6 = Ok (sl1, v) ∧
     SkipList_Indexed_Key 8 st_stale.1 sl1 3 = Ok (sl2, 3%Z)).
Proof.
  split; [vm_compute; reflexivity|]. split; [|split].
  - eexists _, _, _. split; vm_compute; reflexivity.
  - eexists _, _. split; vm_compute; reflexivity.
  - eexists _, _, _. split; vm_compute; reflexivity.
Qed.

(** ** The search by key in the disciplined states *)

(** X6. The cache of the search by key is an optimisation only, as long as
    the by-rank functions have only been called on a fresh cache: in every
    disciplined state [Search_by_Key], which starts each level at the cached
    finger when that one is before the key, computes the same fingers and
    the same distances as the ladder that starts at the header and does not
    look at the cache. (After a by-rank call on a cache that is not fresh
    the distances differ: [stale_by_rank_call_spoils_the_cache].) *)
Theorem X6_key_search_cache_neutral p sl fuel k :
  disciplined AnyCache p sl → (sl_length sl < Z.of_nat fuel)%Z →
  ∃ sl' u d,
    Search_by_Key fuel p sl fresh_finger fresh_delta k = Ok (sl', u, d) ∧
    Search_by_Key_nocache fuel p sl fresh_finger fresh_delta k = Ok (u, d).
Proof.
  intros Hr Hfuel. destruct (disciplined_Inv _ p sl Hr) as (els & HI & _).
  pose proof HI as [Hcmp Hlevel Hlen Hnd Hnodes Hh Hs Hfr Hfl Hdl Hc].
  set (c := key_rank (Member_Compare sl) k els).
  pose proof (key_rank_le (Member_Compare sl) k els) as Hcle. fold c in Hcle.
  assert (∀ j e, 1 ≤ j ≤ c → nodes (sl_header sl) els !! j = Some e →
            (Member_Compare sl k (a_key e) > 0)%Z) as Hlt.
  { intros j e. apply key_rank_nodes_lt. }
  assert (∀ j e, c < j → nodes (sl_header sl) els !! j = Some e →
            (Member_Compare sl k (a_key e) ≤ 0)%Z) as Hge.
  { intros j e. by apply key_rank_nodes_ge. }
  destruct (key_levels_spec (heap p) (sl_level sl) (sl_header sl) els Hnodes
    (Member_Compare sl) k c Hlt Hge ltac:(lia) fuel (sl_level sl) sl
    fresh_finger fresh_delta (sl_header sl) 0%Z 0 (header_elem (sl_header sl)))
    as (sl' & u & d & Hrun & _ & _ & _ & _ & _ & _ & Hul & Hdll & _ & Hbelow
        & Habove);
    try done; try lia; try apply length_fresh_finger;
    try apply length_fresh_delta; try (simpl; lia).
  destruct (key_levels_nocache_spec (heap p) (sl_level sl) (sl_header sl) els
    (Member_Compare sl) k c fuel (sl_level sl) Hnodes Hlt Hge ltac:(lia)
    fresh_finger fresh_delta (sl_header sl) 0%Z 0 (header_elem (sl_header sl)))
    as (u' & d' & Hrun' & Hul' & Hdl' & Hbelow' & Habove');
    try done; try lia; try apply length_fresh_finger;
    try apply length_fresh_delta; try (simpl; lia).
  exists sl', u, d. split; [done|].
  unfold Search_by_Key_nocache. rewrite Hrun'. f_equal.
  assert (u' = u ∧ d' = d) as [-> ->]; [|done].
  split; apply list_eq; intros i.
  - destruct (decide (i < sl_level sl)) as [Hi|Hi].
    + destruct (Hbelow i Hi) as (e & He & _ & Hu & _).
      destruct (Hbelow' i Hi) as (e' & He' & Hu' & _).
      assert (e' = e) as -> by congruence.
      exact (eq_trans Hu' (eq_sym Hu)).
    + destruct (Habove i ltac:(lia)) as (Hu & _).
      destruct (Habove' i ltac:(lia)) as (Hu' & _).
      exact (eq_trans Hu' (eq_sym Hu)).
  - destruct (decide (i < sl_level sl)) as [Hi|Hi].
    + destruct (Hbelow i Hi) as (e & He & _ & _ & Hd & _).
      destruct (Hbelow' i Hi) as (e' & He' & _ & Hd').
      exact (eq_trans Hd' (eq_sym Hd)).
    + destruct (Habove i ltac:(lia)) as (_ & Hd & _).
      destruct (Habove' i ltac:(lia)) as (_ & Hd').
      exact (eq_trans Hd' (eq_sym Hd)).
Qed.

Lemma X6_key_search_cache_neutral_witness :
  ∃ sl' u d,
    Search_by_Key 5 st_ranked.1 st_ranked.2 fresh_finger fresh_delta 3%Z
    = Ok (sl', u, d) ∧
    Search_by_Key_nocache 5 st_ranked.1 st_ranked.2 fresh_finger fresh_delta 3%Z
    = Ok (u, d).
Proof.
  apply (X6_key_search_cache_neutral st_ranked.1 st_ranked.2 5 3%Z);
    [apply disc_any, st_ranked_disciplined|].
  vm_compute. reflexivity.
Defined.

(** X7. What [Search_by_Key] computes on level 0 in a disciplined state
    (the by-rank functions have only been called on a fresh cache): the
    pairs before
    [finger[0]] are those whose key is less than [k], [delta[0]] is their
    number, and the walk from [finger[0]] on visits the other pairs, none
    of which is less than [k]. *)
Theorem X7_key_search_rank p sl fuel k :
  disciplined AnyCache p sl → (sl_length sl < Z.of_nat fuel)%Z →
  ∃ sl' u d f0 pre suf,
    Search_by_Key fuel p sl fresh_finger fresh_delta k = Ok (sl', u, d) ∧
    local_get u 0 = Ok f0 ∧
    local_get d 0 = Ok (Z.of_nat (length pre)) ∧
    SkipList_Iterate fuel p sl = Ok (pre ++ suf) ∧
    iterate_while fuel (heap p) f0 = Ok suf ∧
    (∀ kv, kv ∈ pre → (Member_Compare sl k kv.1 > 0)%Z) ∧
    (∀ kv, kv ∈ suf → (Member_Compare sl k kv.1 ≤ 0)%Z).
Proof.
  intros Hr Hfuel. destruct (disciplined_Inv _ p sl Hr) as (els & HI & _).
  destruct (Search_by_Key_spec fuel p sl els k HI Hfuel)
    as (sl' & u & d & Hsearch & _ & _ & _ & _ & _ & _ & _ & Hud & _).
  set (c := key_rank (Member_Compare sl) k els) in *.
  pose proof (key_rank_le (Member_Compare sl) k els) as Hc. fold c in Hc.
  pose proof (inv_level _ _ _ HI) as Hlevel.
  pose proof (inv_length _ _ _ HI) as Hlen.
  destruct (Hud 0 ltac:(lia)) as (e0 & He0 & _ & Hu0 & Hd0).
  rewrite (fpos_0 (sl_level sl) (sl_header sl) els c (inv_heights _ _ _ HI) Hc)
    in He0, Hd0.
  exists sl', u, d, (a_loc e0), (pair_of <$> take c els),
    (pair_of <$> drop c els).
  split; [done|]. split; [by apply local_get_Ok|]. split.
  { rewrite length_fmap, length_take, Nat.min_l by lia. by apply local_get_Ok. }
  split.
  { rewrite <-fmap_app, take_drop. by apply SkipList_Iterate_spec. }
  split.
  { apply (iterate_while_spec fuel p sl els c e0 HI He0). lia. }
  split.
  - intros kv Hkv. apply list_elem_of_fmap in Hkv as (e & -> & He).
    apply elem_of_take in He as (j & Hj & Hjc).
    by apply (key_rank_lt _ k els j e).
  - intros kv Hkv. apply list_elem_of_fmap in Hkv as (e & -> & He).
    apply list_elem_of_lookup in He as (j & Hj). rewrite lookup_drop in Hj.
    apply (key_rank_ge _ k els (c + j) e);
      [apply (inv_cmp _ _ _ HI)|apply (inv_sorted _ _ _ HI)|fold c; lia|done].
Qed.

Lemma X7_key_search_rank_witness :
  ∃ sl' u d f0 pre suf,
    Search_by_Key 5 st_ranked.1 st_ranked.2 fresh_finger fresh_delta 3%Z
    = Ok (sl', u, d) ∧
    local_get u 0 = Ok f0 ∧
    local_get d 0 = Ok (Z.of_nat (length pre)) ∧
    SkipList_Iterate 5 st_ranked.1 st_ranked.2 = Ok (pre ++ suf) ∧
    iterate_while 5 (heap st_ranked.1) f0 = Ok suf ∧
    (∀ kv, kv ∈ pre → (Member_Compare st_ranked.2 3%Z kv.1 > 0)%Z) ∧
    (∀ kv, kv ∈ suf → (Member_Compare st_ranked.2 3%Z kv.1 ≤ 0)%Z).
Proof.
  apply (X7_key_search_rank st_ranked.1 st_ranked.2 5 3%Z);
    [apply disc_any, st_ranked_disciplined|].
  vm_compute. reflexivity.
Defined.

(** ** The by-rank functions on a fresh cache *)

(** X9. Reads by rank on a fresh cache: in a disciplined state right after
    a search by key or a by-rank call, a sequence of [SkipList_Indexed_Key]
    calls returns for each rank [n] the [n]-th key of the iteration, ranks
    counting from 1, and [NULL] for the ranks below 1 and above
    [length + 1]. *)
Theorem X9_indexed_keys_fresh_cache p sl fuel kvs ranks :
  disciplined FreshCache p sl → (sl_length sl < Z.of_nat fuel)%Z →
  SkipList_Iterate fuel p sl = Ok kvs →
  Forall (λ n, n ≠ (Z.of_nat (length kvs) + 1)%Z) ranks →
  ∃ sl2, indexed_keys fuel p sl ranks = Ok (sl2, key_at kvs <$> ranks).
Proof.
  intros Hr Hfuel Hit Hranks.
  destruct (disciplined_Inv _ p sl Hr) as (els & HI & Hex).
  rewrite (SkipList_Iterate_spec fuel p sl els HI Hfuel) in Hit.
  injection Hit as <-.
  apply indexed_keys_spec; [done|by apply Hex|done|].
  rewrite (inv_length _ _ _ HI). by rewrite length_fmap in Hranks.
Qed.

Lemma X9_indexed_keys_fresh_cache_witness :
  ∃ sl2,
    indexed_keys 5 st_ranked.1 st_ranked.2 [4; 1; 0; 9; 2]%Z
    = Ok (sl2, key_at [(1, 10); (2, 20); (3, 30); (4, 44)]%Z
                 <$> [4; 1; 0; 9; 2]%Z).
Proof.
  apply (X9_indexed_keys_fresh_cache st_ranked.1 st_ranked.2 5).
  - apply st_ranked_disciplined.
  - vm_compute. reflexivity.
  - vm_compute. reflexivity.
  - repeat (apply Forall_cons; split; [vm_compute; discriminate|]).
    apply Forall_nil_2.
Defined.

(** X10. A read of the data by rank on a fresh cache: in a disciplined state
    right after a search by key or a by-rank call, [SkipList_Indexed_Member]
    returns the data of the [n]-th pair of the iteration, and [NULL] for a
    rank below 1 or above [length + 1]; the contents stay as they are. *)
Theorem X10_indexed_member_fresh_cache p sl fuel kvs n :
  disciplined FreshCache p sl → (sl_length sl < Z.of_nat fuel)%Z →
  SkipList_Iterate fuel p sl = Ok kvs →
  n ≠ (Z.of_nat (length kvs) + 1)%Z →
  ∃ sl2, SkipList_Indexed_Member fuel p sl n = Ok (sl2, data_at kvs n) ∧
    SkipList_Iterate fuel p sl2 = Ok kvs.
Proof.
  intros Hr Hfuel Hit Hn.
  destruct (disciplined_Inv _ p sl Hr) as (els & HI & Hex).
  rewrite (SkipList_Iterate_spec fuel p sl els HI Hfuel) in Hit.
  injection Hit as <-.
  destruct (SkipList_Indexed_Member_spec fuel p sl els n HI (Hex eq_refl)
              Hfuel)
    as (sl2 & Hrun & HI2 & _ & Hln2).
  { rewrite (inv_length _ _ _ HI). by rewrite length_fmap in Hn. }
  exists sl2. split; [done|].
  apply SkipList_Iterate_spec; [done|]. by rewrite Hln2.
Qed.

Lemma X10_indexed_member_fresh_cache_witness :
  ∃ sl2,
    SkipList_Indexed_Member 5 st_ranked.1 st_ranked.2 4
    = Ok (sl2, data_at [(1, 10); (2, 20); (3, 30); (4, 44)]%Z 4) ∧
    SkipList_Iterate 5 st_ranked.1 sl2
    = Ok [(1, 10); (2, 20); (3, 30); (4, 44)]%Z.
Proof.
  apply (X10_indexed_member_fresh_cache st_ranked.1 st_ranked.2 5).
  - apply st_ranked_disciplined.
  - vm_compute. reflexivity.
  - vm_compute. reflexivity.
  - vm_compute. discriminate.
Defined.

(** X11. Rank [length + 1] on a fresh cache: in a disciplined state right
    after a search by key or a by-rank call, the search by rank reports the
    rank [length + 1] as found, and each of [SkipList_Indexed_Key],
    [SkipList_Indexed_Member] and [SkipList_Indexed_Update] then
    dereferences the null successor of the last node. *)
Theorem X11_rank_past_end_fresh_cache p sl fuel d :
  disciplined FreshCache p sl → (sl_length sl < Z.of_nat fuel)%Z →
  SkipList_Indexed_Key fuel p sl (SkipList_Length sl + 1) = Fault ∧
  SkipList_Indexed_Member fuel p sl (SkipList_Length sl + 1) = Fault ∧
  SkipList_Indexed_Update fuel p sl (SkipList_Length sl + 1) d = Fault.
Proof.
  intros Hr Hfuel. destruct (disciplined_Inv _ p sl Hr) as (els & HI & Hex).
  by apply (indexed_past_end fuel p sl els d HI (Hex eq_refl)).
Qed.

Lemma X11_rank_past_end_fresh_cache_witness :
  SkipList_Indexed_Key 5 st_ranked.1 st_ranked.2
    (SkipList_Length st_ranked.2 + 1) = Fault ∧
  SkipList_Indexed_Member 5 st_ranked.1 st_ranked.2
    (SkipList_Length st_ranked.2 + 1) = Fault ∧
  SkipList_Indexed_Update 5 st_ranked.1 st_ranked.2
    (SkipList_Length st_ranked.2 + 1) 7 = Fault.
Proof.
  apply (X11_rank_past_end_fresh_cache st_ranked.1 st_ranked.2 5 7%Z).
  - apply st_ranked_disciplined.
  - vm_compute. reflexivity.
Defined.

(** X12. A write by rank on a fresh cache: in a disciplined state right
    after a search by key or a by-rank call, [SkipList_Indexed_Update]
    makes of the iteration the list in which the data of the [n]-th pair is
    the new data and everything else is as before (for a rank below 1 or
    above [length + 1] that is the list as it was); it keeps the length,
    calls no cleanup routine, and a read of rank [n] right after it returns
    the data of rank [n] of that list. *)
Theorem X12_indexed_update_fresh_cache p sl fuel kvs n d :
  disciplined FreshCache p sl → (sl_length sl < Z.of_nat fuel)%Z →
  SkipList_Iterate fuel p sl = Ok kvs →
  n ≠ (Z.of_nat (length kvs) + 1)%Z →
  ∃ p' sl2 sl3,
    SkipList_Indexed_Update fuel p sl n d = Ok (p', sl2) ∧
    SkipList_Iterate fuel p' sl2 = Ok (set_data_at kvs n d) ∧
    SkipList_Length sl2 = SkipList_Length sl ∧
    released p' = released p ∧
    SkipList_Indexed_Member fuel p' sl2 n
    = Ok (sl3, data_at (set_data_at kvs n d) n).
Proof.
  intros Hr Hfuel Hit Hn.
  destruct (disciplined_Inv _ p sl Hr) as (els & HI & Hex).
  rewrite (SkipList_Iterate_spec fuel p sl els HI Hfuel) in Hit.
  injection Hit as <-. rewrite length_fmap in Hn.
  pose proof (inv_length _ _ _ HI) as Hlen.
  destruct (SkipList_Indexed_Update_spec fuel p sl els n d HI (Hex eq_refl))
    as (p' & sl2 & els' & Hrun & HI2 & Hex2 & Hln2 & Hels' & _ & _ & _ & Hrel);
    [lia..|].
  destruct (SkipList_Indexed_Member_spec fuel p' sl2 els' n HI2 Hex2)
    as (sl3 & Hm & _); [lia..|].
  exists p', sl2, sl3. split; [done|]. split.
  { rewrite <-Hels'. apply SkipList_Iterate_spec; [done|lia]. }
  split; [unfold SkipList_Length; lia|]. split; [done|].
  by rewrite Hm, Hels'.
Qed.

Lemma X12_indexed_update_fresh_cache_witness :
  ∃ p' sl2 sl3,
    SkipList_Indexed_Update 5 st_ranked.1 st_ranked.2 2 77 = Ok (p', sl2) ∧
    SkipList_Iterate 5 p' sl2
    = Ok [(1, 10); (2, 77); (3, 30); (4, 44)]%Z ∧
    SkipList_Length sl2 = SkipList_Length st_ranked.2 ∧
    released p' = released st_ranked.1 ∧
    SkipList_Indexed_Member 5 p' sl2 2 = Ok (sl3, 77%Z).
Proof.
  apply (X12_indexed_update_fresh_cache st_ranked.1 st_ranked.2 5
           [(1, 10); (2, 20); (3, 30); (4, 44)]%Z 2%Z 77%Z).
  - apply st_ranked_disciplined.
  - vm_compute. reflexivity.
  - vm_compute. reflexivity.
  - vm_compute. discriminate.
Defined.

(** X18. The cache of the search by rank, when it is fresh: in a
    disciplined state right after a search by key or a by-rank call,
    [Search_by_Index], which starts each level at the cached finger when
    the cached distance is less than the rank, computes the same fingers
    and the same answer as the ladder that starts at the header and does
    not look at the cache. *)
Theorem X18_index_search_cache_neutral p sl fuel n :
  disciplined FreshCache p sl → (sl_length sl < Z.of_nat fuel)%Z →
  ∃ sl2 f found,
    Search_by_Index fuel p sl fresh_finger n = Ok (sl2, f, found) ∧
    Search_by_Index_nocache fuel p sl fresh_finger n = Ok (f, found).
Proof.
  intros Hr Hfuel. destruct (disciplined_Inv _ p sl Hr) as (els & HI & Hex).
  specialize (Hex eq_refl).
  pose proof HI as [Hcmp Hlevel Hlen Hnd Hnodes Hh Hsort Hfr Hfl Hdl Hc].
  set (c := stop_rank n (length els)).
  pose proof (stop_rank_le n (length els)) as Hcle. fold c in Hcle.
  unfold Search_by_Index, Search_by_Index_nocache.
  destruct (index_levels_spec (heap p) (sl_level sl) (sl_header sl) els
    Hnodes n c (stop_rank_in n (length els)) ltac:(lia) fuel (sl_level sl) sl
    fresh_finger (sl_header sl) 0%Z 0 (header_elem (sl_header sl)))
    as (sl2 & finger & place & -> & _ & _ & _ & _ & _ & _ & Hfg & Hplace
        & Hbelow & Habove);
    try done; try lia; try apply length_fresh_finger; try (simpl; lia).
  destruct (index_levels_nocache_spec (heap p) (sl_level sl) (sl_header sl)
    els n c fuel (sl_level sl) Hnodes (stop_rank_in n (length els))
    ltac:(lia) fresh_finger (sl_header sl) 0%Z 0 (header_elem (sl_header sl)))
    as (finger' & place' & -> & Hplace' & Hbelow' & Habove');
    try done; try lia; try apply length_fresh_finger; try (simpl; lia).
  step. step. rewrite Hplace, Hplace' by lia.
  exists sl2, finger,
    (n - Z.of_nat (fpos (nodes (sl_header sl) els) 0 c) =? 1)%Z.
  split; [done|]. f_equal. f_equal.
  apply list_eq. intros i.
  destruct (decide (i < sl_level sl)) as [Hi|Hi].
  - destruct (Hbelow i Hi) as (e & He & _ & Hu & _).
    destruct (Hbelow' i Hi) as (e' & He' & Hu').
    assert (e' = e) as -> by congruence.
    exact (eq_trans Hu' (eq_sym Hu)).
  - destruct (Habove i ltac:(lia)) as (Hu & _).
    exact (eq_trans (Habove' i ltac:(lia)) (eq_sym Hu)).
Qed.

Lemma X18_index_search_cache_neutral_witness :
  ∃ sl2 f found,
    Search_by_Index 5 st_ranked.1 st_ranked.2 fresh_finger 4%Z
    = Ok (sl2, f, found) ∧
    Search_by_Index_nocache 5 st_ranked.1 st_ranked.2 fresh_finger 4%Z
    = Ok (f, found).
Proof.
  apply (X18_index_search_cache_neutral st_ranked.1 st_ranked.2 5 4%Z).
  - apply st_ranked_disciplined.
  - vm_compute. reflexivity.
Defined.

(** ** The level counter of the process *)

Lemma run2_counter fuel sched :
  ∀ p a b p' a' b' lvs,
  run2 fuel p a b sched = Ok (p', a', b', lvs) →
  Current_Random_Level p'
  = (Current_Random_Level p
     + Z.of_nat (length (filter (λ x, is_insert x.2) sched)))%Z.
Proof.
  induction sched as [|[first o] r IH]; intros p a b p' a' b' lvs H.
  - injection H as <- _ _ _. cbn. lia.
  - cbn [run2] in H.
    apply bind_Ok_inv in H as ([p1 x] & Hop & H).
    apply bind_Ok_inv in H as (lv & Hlv & H).
    apply bind_Ok_inv in H as ([[[p2 a2] b2] lvs2] & Hrest & H).
    injection H as <- _ _ _.
    pose proof (run_op_counter _ _ _ _ _ _ Hop) as Hc.
    apply IH in Hrest. rewrite Hrest, Hc.
    destruct (is_insert o) eqn:Ho.
    + rewrite filter_cons_True by (cbn; by rewrite Ho). cbn [length]. lia.
    + rewrite filter_cons_False by (cbn; rewrite Ho; intros []). lia.
Qed.

Lemma expected_levels_counts c sched :
  expected_levels c (filter (λ x, counts x) sched) = expected_levels c sched.
Proof.
  revert c. induction sched as [|[first o] r IH]; intros c; [done|].
  destruct first.
  - rewrite filter_cons_True by done.
    destruct o; cbn [expected_levels]; by rewrite IH.
  - destruct o as [k m|k|k].
    + rewrite filter_cons_True by done. cbn [expected_levels]. by rewrite IH.
    + rewrite filter_cons_False by (by intros ?). cbn [expected_levels].
      apply IH.
    + rewrite filter_cons_False by (by intros ?). cbn [expected_levels].
      apply IH.
Qed.

(** C6 (as amended). The level counter is one counter for the whole
    process. The level that a counter value from 0 to [2^63 - 2] gives is
    one more than the number of its trailing one bits, cut off at
    [MAX_LEVEL], and the counter goes up by one. For two containers created
    in one process and every schedule of operations on them, all operations
    complete; each insertion, into either container, takes the next value
    of the counter, so that the counter ends up advanced by the number of
    insertions, and the levels given to the nodes of the first container
    are those that the counter values at its insertions determine. The
    second container bears on them through its insertions only: without the
    deletions and searches of the second container the levels are the
    same. *)
Theorem C6_levels_shared_counter p ca cb fuel sched j m :
  frontier_ok p → comparator_ok ca → comparator_ok cb →
  length sched < fuel →
  (0 ≤ m)%Z → (ones j + 2 ^ Z.of_nat (S j) * m < 2 ^ 63 - 1)%Z →
  Choose_Random_Level (ones j + 2 ^ Z.of_nat (S j) * m)
  = (S j `min` MAX_LEVEL, (ones j + 2 ^ Z.of_nat (S j) * m + 1)%Z) ∧
  ∃ p' a' b' lvs p1 a1 b1,
    run2 fuel (SkipList_Create (SkipList_Create p ca).1 cb).1
      (SkipList_Create p ca).2
      (SkipList_Create (SkipList_Create p ca).1 cb).2 sched
    = Ok (p', a', b', lvs) ∧
    lvs = expected_levels (Current_Random_Level p) sched ∧
    Current_Random_Level p'
    = (Current_Random_Level p
       + Z.of_nat (length (filter (λ x, is_insert x.2) sched)))%Z ∧
    run2 fuel (SkipList_Create (SkipList_Create p ca).1 cb).1
      (SkipList_Create p ca).2
      (SkipList_Create (SkipList_Create p ca).1 cb).2
      (filter (λ x, counts x) sched)
    = Ok (p1, a1, b1, lvs).
Proof.
  intros Hfr Hca Hcb Hfuel Hm Hc. split.
  { assert (j < 64) as Hj.
    { destruct (decide (j < 64)) as [|Hge]; [done|]. exfalso.
      assert (2 ^ 64 ≤ 2 ^ Z.of_nat j)%Z by (apply Z.pow_le_mono_r; lia).
      assert (0 ≤ 2 ^ Z.of_nat (S j) * m)%Z
        by (apply Z.mul_nonneg_nonneg; lia).
      unfold ones in Hc. lia. }
    unfold Choose_Random_Level. rewrite level_loop_ones by done.
    f_equal. case_decide; lia. }
  pose proof (two_created_apart p ca cb Hfr Hca Hcb) as Hap.
  destruct (run2_apart fuel sched _ _ _ [] [] Hap)
    as (p' & a' & b' & lvs & A' & B' & Hrun & _); [cbn; lia..|].
  destruct (run2_apart fuel (filter (λ x, counts x) sched) _ _ _ [] [] Hap)
    as (p1 & a1 & b1 & lvs1 & A1 & B1 & Hrun1 & _);
    [pose proof (length_filter (λ x, counts x) sched); cbn; lia..|].
  pose proof (run2_levels _ _ _ _ _ _ _ _ _ Hrun) as Hl.
  pose proof (run2_levels _ _ _ _ _ _ _ _ _ Hrun1) as Hl1.
  pose proof (run2_counter _ _ _ _ _ _ _ _ _ Hrun) as Hcnt.
  rewrite expected_levels_counts in Hl1.
  exists p', a', b', lvs, p1, a1, b1.
  split; [done|]. split; [done|]. split; [done|]. by rewrite Hrun1, Hl1, Hl.
Qed.

Lemma C6_levels_shared_counter_witness :
  Choose_Random_Level (ones 2 + 2 ^ Z.of_nat 3 * 5)
  = (3 `min` MAX_LEVEL, (ones 2 + 2 ^ Z.of_nat 3 * 5 + 1)%Z) ∧
  ∃ p' a' b' lvs p1 a1 b1,
    run2 8 (SkipList_Create (SkipList_Create p0 cmpZ).1 cmpZ).1
      (SkipList_Create p0 cmpZ).2
      (SkipList_Create (SkipList_Create p0 cmpZ).1 cmpZ).2
      [(true, OpInsert 1 10); (false, OpInsert 1 10); (false, OpSearch 1);
       (true, OpInsert 2 20); (false, OpDelete 1); (true, OpInsert 3 30)]
    = Ok (p', a', b', lvs) ∧
    lvs = expected_levels (Current_Random_Level p0)
            [(true, OpInsert 1 10); (false, OpInsert 1 10);
             (false, OpSearch 1); (true, OpInsert 2 20); (false, OpDelete 1);
             (true, OpInsert 3 30)] ∧
    Current_Random_Level p'
    = (Current_Random_Level p0
       + Z.of_nat (length (filter (λ x, is_insert x.2)
            [(true, OpInsert 1 10); (false, OpInsert 1 10);
             (false, OpSearch 1); (true, OpInsert 2 20); (false, OpDelete 1);
             (true, OpInsert 3 30)])))%Z ∧
    run2 8 (SkipList_Create (SkipList_Create p0 cmpZ).1 cmpZ).1
      (SkipList_Create p0 cmpZ).2
      (SkipList_Create (SkipList_Create p0 cmpZ).1 cmpZ).2
      (filter (λ x, counts x)
         [(true, OpInsert 1 10); (false, OpInsert 1 10); (false, OpSearch 1);
          (true, OpInsert 2 20); (false, OpDelete 1); (true, OpInsert 3 30)])
    = Ok (p1, a1, b1, lvs).
Proof.
  apply (C6_levels_shared_counter p0 cmpZ cmpZ 8 _ 2 5);
    [apply p0_frontier|apply cmpZ_ok|apply cmpZ_ok|cbn; lia|lia
    |vm_compute; reflexivity].
Defined.
